(** * Momentum SGD update operators (caffe2/sgd/momentum_sgd_op.h)

    A shallow embedding of the kernel [momentum_sgd_update] and of the three
    operators built on it ([MomentumSGDOp], [MomentumSGDUpdateOp],
    [SparseMomentumSGDUpdateOp]), over a workspace of named blobs.

    - [float] is IEEE-754 binary32, given by the Standard Library's
      [SpecFloat] at precision 24 and maximal exponent 128, with the default
      rounding (to nearest, ties to even).
    - A tensor owns a list of elements; a [float*] is a blob name and an
      element offset, so that an operator run in place (the same blob name
      as input and as output) really shares its storage.
    - Code runs in a state-and-error monad over the workspace: a failed
      [CAFFE_ENFORCE] or an access outside a tensor's storage stops the run
      and leaves the workspace as it was at that point. *)

From Stdlib Require Import ZArith Lia Bool.
From Stdlib Require Import Floats.SpecFloat.
From stdpp Require Import gmap strings list.

Local Open Scope Z_scope.

(** ** binary32 arithmetic *)

Module F32.

Definition prec : Z := 24.
Definition emax : Z := 128.

Definition float : Type := spec_float.

Definition mul : float -> float -> float := SFmul prec emax.
Definition add : float -> float -> float := SFadd prec emax.
Definition sub : float -> float -> float := SFsub prec emax.

(** The [int] literal [1] converted to [float]. *)
Definition one : float := Eval cbv in SFone prec emax.
Definition zero : float := S754_zero false.

(** The C++ comparison [x == y]. *)
Definition eqb : float -> float -> bool := SFeqb.

Definition valid (x : float) : bool := valid_binary prec emax x.

(** Neither an infinity nor a NaN. *)
Definition is_finite (x : float) : bool :=
  match x with
  | S754_zero _ | S754_finite _ _ _ => true
  | _ => false
  end.

Definition is_zero (x : float) : bool :=
  match x with
  | S754_zero _ => true
  | _ => false
  end.

(** Dyadic literals [m * 2^e], rounded to binary32. *)
Definition of_Z (m : Z) (e : Z) : float := binary_normalize prec emax m e false.

End F32.

Export F32(float).

Arguments F32.mul : simpl never.
Arguments F32.add : simpl never.
Arguments F32.sub : simpl never.

Declare Scope f32_scope.
Delimit Scope f32_scope with f32.
Infix "*" := F32.mul : f32_scope.
Infix "+" := F32.add : f32_scope.
Infix "-" := F32.sub : f32_scope.

(** ** Tensors, blobs and the workspace *)

(** Modelled from the spec: the tensor class of the host framework
    (caffe2/core/tensor.h is not part of the sources).  A tensor has a shape
    and typed storage; [NoData] is a tensor whose storage has no element
    type yet, or one of a type that no operator here handles. *)
Inductive Storage :=
| FloatData (xs : list float)
| Int32Data (xs : list Z)
| Int64Data (xs : list Z)
| NoData.

Record Tensor := mkTensor { dims : list nat; storage : Storage }.

(** A blob holds a tensor or a value of some other type. *)
Inductive Blob :=
| TensorBlob (t : Tensor)
| OtherBlob.

Abbreviation Workspace := (gmap string Blob).

(** A [float*] into the storage of a blob. *)
Record ptr := Ptr { blob : string; off : Z }.

Definition ptr_add (p : ptr) (k : Z) : ptr := Ptr (blob p) (off p + k).
Infix "+p" := ptr_add (at level 50, left associativity).

#[global] Instance ptr_eq_dec : EqDecision ptr.
Proof. solve_decision. Defined.

Inductive error :=
| TypeMismatch           (* a blob or a tensor is not of the requested type *)
| ShapeMismatch          (* a CAFFE_ENFORCE on sizes failed *)
| UnsupportedIndexWidth  (* DispatchHelper found no matching index type *)
| NoSuchBlob             (* an input or output slot names no blob *)
| OutOfBounds (p : ptr)  (* access outside the storage: undefined in C++ *)
| DivisionByZero.        (* integer division by zero: undefined in C++ *)

Inductive result (A : Type) :=
| Done (a : A)
| Fail (e : error).
Arguments Done {A} a.
Arguments Fail {A} e.

(** ** The monad of operator code *)

Definition M (A : Type) : Type := Workspace -> result A * Workspace.

Definition ret {A} (a : A) : M A := fun ws => (Done a, ws).

Definition bind {A B} (c : M A) (k : A -> M B) : M B :=
  fun ws =>
    match c ws with
    | (Done a, ws') => k a ws'
    | (Fail e, ws') => (Fail e, ws')
    end.

Definition throw {A} (e : error) : M A := fun ws => (Fail e, ws).

Notation "'let*' x ':=' c 'in' k" := (bind c (fun x => k))
  (at level 10, x binder, c at level 100, k at level 200).
Notation "'do' c 'then' k" := (bind c (fun _ => k))
  (at level 10, c at level 100, k at level 200).

(** [for (auto i = i0; i < i0 + k; ++i) body(i)] *)
Fixpoint for_loop (k : nat) (i : Z) (body : Z -> M unit) : M unit :=
  match k with
  | O => ret tt
  | S k' => do body i then for_loop k' (i + 1) body
  end.

(** [for (auto i = 0; i < N; ++i) body(i)] *)
Definition for_range (N : Z) (body : Z -> M unit) : M unit :=
  for_loop (Z.to_nat N) 0 body.

(** ** Memory access through pointers *)

Definition float_data (ws : Workspace) (name : string) : option (list float) :=
  match ws !! name with
  | Some (TensorBlob t) =>
      match storage t with
      | FloatData xs => Some xs
      | _ => None
      end
  | _ => None
  end.

(** The value at [p], when [p] lies inside the storage of a float tensor. *)
Definition read (ws : Workspace) (p : ptr) : option float :=
  match float_data ws (blob p) with
  | Some xs => if 0 <=? off p then xs !! Z.to_nat (off p) else None
  | None => None
  end.

Definition set_float_data (ws : Workspace) (name : string) (xs : list float)
  : Workspace :=
  match ws !! name with
  | Some (TensorBlob t) => <[name := TensorBlob (mkTensor (dims t) (FloatData xs))]> ws
  | _ => ws
  end.

(** The workspace after [*p = v], for [p] inside its storage. *)
Definition upd (ws : Workspace) (p : ptr) (v : float) : Workspace :=
  match float_data ws (blob p) with
  | Some xs =>
      if 0 <=? off p
      then set_float_data ws (blob p) (<[Z.to_nat (off p) := v]> xs)
      else ws
  | None => ws
  end.

Definition load (p : ptr) : M float :=
  fun ws =>
    match read ws p with
    | Some v => (Done v, ws)
    | None => (Fail (OutOfBounds p), ws)
    end.

Definition store (p : ptr) (v : float) : M unit :=
  fun ws =>
    match read ws p with
    | Some _ => (Done tt, upd ws p v)
    | None => (Fail (OutOfBounds p), ws)
    end.

(** ** The kernel *)

Section Kernel.
Local Open Scope f32_scope.

(** One iteration of the loop of [momentum_sgd_update]. *)
Definition momentum_sgd_update_body
    (LR : float) (g m ng nm : ptr) (momentum : float) (nesterov : bool)
    (param : option ptr) (i : Z) : M unit :=
  do (if negb nesterov then
        let* gi := load (g +p i) in
        let* mi := load (m +p i) in
        let adjusted_gradient := LR * gi + momentum * mi in
        do store (nm +p i) adjusted_gradient then
        store (ng +p i) adjusted_gradient
      else
        let* mi := load (m +p i) in
        let* gi := load (g +p i) in
        let mi_new := momentum * mi + LR * gi in
        do store (nm +p i) mi_new then
        store (ng +p i) ((F32.one + momentum) * mi_new - momentum * mi))
  then
  match param with
  | Some param =>
      let* pi := load (param +p i) in
      let* ngi := load (ng +p i) in
      store (param +p i) (pi - ngi)
  | None => ret tt
  end.

Definition momentum_sgd_update
    (N : Z) (g m ng nm lr : ptr) (momentum : float) (nesterov : bool)
    (param : option ptr) : M unit :=
  let* LR := load (lr +p 0) in
  for_range N (momentum_sgd_update_body LR g m ng nm momentum nesterov param).

End Kernel.

(** ** Tensor and operator interface *)

(** Modelled from the spec: [Tensor::size()], the number of elements the
    shape stands for. *)
Definition numel (d : list nat) : nat := fold_right Nat.mul 1%nat d.
Definition size (t : Tensor) : Z := Z.of_nat (numel (dims t)).

(** The narrowing of a 64-bit size to the kernel's [int N]. *)
Definition to_int (z : Z) : Z := (z + 2 ^ 31) mod 2 ^ 32 - 2 ^ 31.

Definition CAFFE_ENFORCE (cond : bool) (e : error) : M unit :=
  if cond then ret tt else throw e.

(** Signed 64-bit division [a / b], which truncates; by zero it is undefined. *)
Definition divide (a b : Z) : M Z :=
  if b =? 0 then throw DivisionByZero else ret (a ÷ b).

(** Modelled from the spec: an operator instance of the host framework
    (caffe2/core/operator.h is not part of the sources): the blob names
    bound to its input and output slots, and the two arguments read once at
    construction. *)
Record Operator := mkOperator {
  inputs : list string;
  outputs : list string;
  momentum_ : float;
  nesterov_ : bool
}.

Section TensorAPI.
(** Contents of storage that was allocated and not yet written. *)
Variable junk : float.
Variable op : Operator.

(** Modelled from the spec: [OperatorBase::InputIsType<Tensor<Context>>(i)]. *)
Definition InputIsType (i : nat) : M bool :=
  fun ws =>
    match inputs op !! i with
    | Some name =>
        match ws !! name with
        | Some (TensorBlob _) => (Done true, ws)
        | _ => (Done false, ws)
        end
    | None => (Fail NoSuchBlob, ws)
    end.

(** Modelled from the spec: [Input(i)], a reference to the tensor of the
    i-th input blob, here the name of that blob. *)
Definition Input (i : nat) : M string :=
  fun ws =>
    match inputs op !! i with
    | Some name =>
        match ws !! name with
        | Some (TensorBlob _) => (Done name, ws)
        | Some OtherBlob => (Fail TypeMismatch, ws)
        | None => (Fail NoSuchBlob, ws)
        end
    | None => (Fail NoSuchBlob, ws)
    end.

(** Modelled from the spec: [Output(i)], the tensor of the i-th output
    blob; a blob that holds no tensor yet is given an empty one. *)
Definition Output (i : nat) : M string :=
  fun ws =>
    match outputs op !! i with
    | Some name =>
        match ws !! name with
        | Some (TensorBlob _) => (Done name, ws)
        | _ => (Done name, <[name := TensorBlob (mkTensor [0%nat] NoData)]> ws)
        end
    | None => (Fail NoSuchBlob, ws)
    end.

Definition tensor (name : string) : M Tensor :=
  fun ws =>
    match ws !! name with
    | Some (TensorBlob t) => (Done t, ws)
    | Some OtherBlob => (Fail TypeMismatch, ws)
    | None => (Fail NoSuchBlob, ws)
    end.

(** [t.size()] *)
Definition size_of (name : string) : M Z :=
  let* t := tensor name in ret (size t).

(** [t.dim(i)]; an index past the last dimension is undefined in C++. *)
Definition dim (name : string) (i : nat) : M Z :=
  let* t := tensor name in
  match dims t !! i with
  | Some d => ret (Z.of_nat d)
  | None => throw (OutOfBounds (Ptr name (Z.of_nat i)))
  end.

Definition resize_storage (n : Z) (s : Storage) : Storage :=
  match s with
  | FloatData xs => FloatData (resize (Z.to_nat n) junk xs)
  | Int32Data xs => Int32Data (resize (Z.to_nat n) 0 xs)
  | Int64Data xs => Int64Data (resize (Z.to_nat n) 0 xs)
  | NoData => NoData
  end.

(** Modelled from the spec: [out->ResizeLike(src)]: the output takes the
    shape of [src]; elements it already holds stay, new ones are
    unwritten. *)
Definition ResizeLike (out src : string) : M unit :=
  let* s := tensor src in
  let* o := tensor out in
  fun ws =>
    (Done tt,
     <[out := TensorBlob (mkTensor (dims s) (resize_storage (size s) (storage o)))]> ws).

(** Modelled from the spec: [t.data<float>()]. *)
Definition data (name : string) : M ptr :=
  let* t := tensor name in
  match storage t with
  | FloatData _ => ret (Ptr name 0)
  | _ => throw TypeMismatch
  end.

(** Modelled from the spec: [t->mutable_data<float>()]: storage of another
    element type is replaced by fresh float storage of the tensor's size. *)
Definition mutable_data (name : string) : M ptr :=
  let* t := tensor name in
  match storage t with
  | FloatData _ => ret (Ptr name 0)
  | _ =>
      fun ws =>
        (Done (Ptr name 0),
         <[name := TensorBlob
                     (mkTensor (dims t)
                        (FloatData (replicate (Z.to_nat (size t)) junk)))]> ws)
  end.

End TensorAPI.

(** ** MomentumSGDOp: gradient and momentum only *)

Module MomentumSGDOp.
(* INPUT_TAGS(GRAD, MOMENTUM, LR); OUTPUT_TAGS(OUTPUT_GRAD, OUTPUT_MOMENTUM) *)
Definition GRAD : nat := 0.
Definition MOMENTUM : nat := 1.
Definition LR : nat := 2.
Definition OUTPUT_GRAD : nat := 0.
Definition OUTPUT_MOMENTUM : nat := 1.

Definition RunOnDevice (junk : float) (op : Operator) : M bool :=
  let* is_t := InputIsType op GRAD in
  do CAFFE_ENFORCE is_t TypeMismatch then
  let* is_t := InputIsType op MOMENTUM in
  do CAFFE_ENFORCE is_t TypeMismatch then
  let* lr := Input op LR in
  let* lr_size := size_of lr in
  do CAFFE_ENFORCE (lr_size =? 1) ShapeMismatch then
  let* grad := Input op GRAD in
  let* grad_size := size_of grad in
  let* mom := Input op MOMENTUM in
  let* mom_size := size_of mom in
  do CAFFE_ENFORCE (grad_size =? mom_size) ShapeMismatch then
  let* out_grad := Output op OUTPUT_GRAD in
  let* grad := Input op GRAD in
  do ResizeLike junk out_grad grad then
  let* out_mom := Output op OUTPUT_MOMENTUM in
  let* mom := Input op MOMENTUM in
  do ResizeLike junk out_mom mom then
  let* grad := Input op GRAD in
  let* N := size_of grad in
  let* g := data grad in
  let* mom := Input op MOMENTUM in
  let* m := data mom in
  let* out_grad := Output op OUTPUT_GRAD in
  let* ng := mutable_data junk out_grad in
  let* out_mom := Output op OUTPUT_MOMENTUM in
  let* nm := mutable_data junk out_mom in
  let* lr := Input op LR in
  let* lr := data lr in
  do momentum_sgd_update (to_int N) g m ng nm lr
       (momentum_ op) (nesterov_ op) None then
  ret true.
End MomentumSGDOp.

(** ** MomentumSGDUpdateOp: gradient, momentum and parameter *)

Module MomentumSGDUpdateOp.
(* INPUT_TAGS(GRAD, MOMENTUM, LR, PARAM);
   OUTPUT_TAGS(OUTPUT_GRAD, OUTPUT_MOMENTUM, OUTPUT_PARAM) *)
Definition GRAD : nat := 0.
Definition MOMENTUM : nat := 1.
Definition LR : nat := 2.
Definition PARAM : nat := 3.
Definition OUTPUT_GRAD : nat := 0.
Definition OUTPUT_MOMENTUM : nat := 1.
Definition OUTPUT_PARAM : nat := 2.

Definition RunOnDevice (junk : float) (op : Operator) : M bool :=
  let* is_t := InputIsType op GRAD in
  do CAFFE_ENFORCE is_t TypeMismatch then
  let* is_t := InputIsType op MOMENTUM in
  do CAFFE_ENFORCE is_t TypeMismatch then
  let* lr := Input op LR in
  let* lr_size := size_of lr in
  do CAFFE_ENFORCE (lr_size =? 1) ShapeMismatch then
  let* grad := Input op GRAD in
  let* grad_size := size_of grad in
  let* mom := Input op MOMENTUM in
  let* mom_size := size_of mom in
  do CAFFE_ENFORCE (grad_size =? mom_size) ShapeMismatch then
  let* out_grad := Output op OUTPUT_GRAD in
  let* grad := Input op GRAD in
  do ResizeLike junk out_grad grad then
  let* out_mom := Output op OUTPUT_MOMENTUM in
  let* mom := Input op MOMENTUM in
  do ResizeLike junk out_mom mom then
  let* grad := Input op GRAD in
  let* N := size_of grad in
  let* g := data grad in
  let* mom := Input op MOMENTUM in
  let* m := data mom in
  let* out_grad := Output op OUTPUT_GRAD in
  let* ng := mutable_data junk out_grad in
  let* out_mom := Output op OUTPUT_MOMENTUM in
  let* nm := mutable_data junk out_mom in
  let* lr := Input op LR in
  let* lr := data lr in
  let* out_param := Output op OUTPUT_PARAM in
  let* param := mutable_data junk out_param in
  do momentum_sgd_update (to_int N) g m ng nm lr
       (momentum_ op) (nesterov_ op) (Some param) then
  ret true.
End MomentumSGDUpdateOp.

(** ** SparseMomentumSGDUpdateOp: rows selected by an index list *)

(** The two index types of [TensorTypes<int32_t, int64_t>]. *)
Inductive SIndex := int32_t | int64_t.

Definition index_data (w : SIndex) (ws : Workspace) (name : string)
  : option (list Z) :=
  match ws !! name with
  | Some (TensorBlob t) =>
      match w, storage t with
      | int32_t, Int32Data xs => Some xs
      | int64_t, Int64Data xs => Some xs
      | _, _ => None
      end
  | _ => None
  end.

(** Modelled from the spec: [t.data<SIndex>()]. *)
Definition index_ptr (w : SIndex) (name : string) : M ptr :=
  fun ws =>
    match ws !! name with
    | Some (TensorBlob _) =>
        match index_data w ws name with
        | Some _ => (Done (Ptr name 0), ws)
        | None => (Fail TypeMismatch, ws)
        end
    | Some OtherBlob => (Fail TypeMismatch, ws)
    | None => (Fail NoSuchBlob, ws)
    end.

(** [indices[i]] *)
Definition load_index (w : SIndex) (p : ptr) : M Z :=
  fun ws =>
    match index_data w ws (blob p) with
    | Some xs =>
        if 0 <=? off p then
          match xs !! Z.to_nat (off p) with
          | Some z => (Done z, ws)
          | None => (Fail (OutOfBounds p), ws)
          end
        else (Fail (OutOfBounds p), ws)
    | None => (Fail (OutOfBounds p), ws)
    end.

Module SparseMomentumSGDUpdateOp.
(* INPUT_TAGS(GRAD, MOMENTUM, LR, PARAM, INDICES);
   OUTPUT_TAGS(OUTPUT_GRAD, OUTPUT_MOMENTUM, OUTPUT_PARAM) *)
Definition GRAD : nat := 0.
Definition MOMENTUM : nat := 1.
Definition LR : nat := 2.
Definition PARAM : nat := 3.
Definition INDICES : nat := 4.
Definition OUTPUT_GRAD : nat := 0.
Definition OUTPUT_MOMENTUM : nat := 1.
Definition OUTPUT_PARAM : nat := 2.

(** The body of the row loop of [DoRunWithType]. *)
Definition row_update (w : SIndex) (op : Operator) (block_size : Z)
    (gradIn momentumIn lr indices gradOut momentumOut paramOut : ptr)
    (i : Z) : M unit :=
  let* idx := load_index w (indices +p i) in
  let offsetI := i * block_size in
  let offsetIdx := idx * block_size in
  momentum_sgd_update (to_int block_size)
    (gradIn +p offsetI) (momentumIn +p offsetIdx)
    (gradOut +p offsetI) (momentumOut +p offsetIdx)
    lr (momentum_ op) (nesterov_ op) (Some (paramOut +p offsetIdx)).

Definition DoRunWithType (w : SIndex) (junk : float) (op : Operator) : M bool :=
  let* is_t := InputIsType op GRAD in
  do CAFFE_ENFORCE is_t TypeMismatch then
  let* is_t := InputIsType op MOMENTUM in
  do CAFFE_ENFORCE is_t TypeMismatch then
  let* lr := Input op LR in
  let* lr_size := size_of lr in
  do CAFFE_ENFORCE (lr_size =? 1) ShapeMismatch then
  let* param := Input op PARAM in
  let* param_size := size_of param in
  let* mom := Input op MOMENTUM in
  let* mom_size := size_of mom in
  do CAFFE_ENFORCE (param_size =? mom_size) ShapeMismatch then
  let* ind := Input op INDICES in
  let* ind_size := size_of ind in
  let* grad := Input op GRAD in
  let* grad_rows := dim grad 0 in
  do CAFFE_ENFORCE (ind_size =? grad_rows) ShapeMismatch then

  let* out_grad := Output op OUTPUT_GRAD in
  let* grad := Input op GRAD in
  do ResizeLike junk out_grad grad then
  let* out_mom := Output op OUTPUT_MOMENTUM in
  let* mom := Input op MOMENTUM in
  do ResizeLike junk out_mom mom then
  let* out_param := Output op OUTPUT_PARAM in
  let* param := Input op PARAM in
  do ResizeLike junk out_param param then

  let* grad := Input op GRAD in
  let* n := dim grad 0 in
  let* grad := Input op GRAD in
  let* grad_size := size_of grad in
  let* block_size := divide grad_size n in

  let* grad := Input op GRAD in
  let* gradIn := data grad in
  let* mom := Input op MOMENTUM in
  let* momentumIn := data mom in
  let* lr := Input op LR in
  let* lr := data lr in
  let* param := Input op PARAM in
  let* paramIn := data param in
  let* ind := Input op INDICES in
  let* indices := index_ptr w ind in

  let* out_grad := Output op OUTPUT_GRAD in
  let* gradOut := mutable_data junk out_grad in
  let* out_mom := Output op OUTPUT_MOMENTUM in
  let* momentumOut := mutable_data junk out_mom in
  let* out_param := Output op OUTPUT_PARAM in
  let* paramOut := mutable_data junk out_param in

  do for_range n
       (row_update w op block_size
          gradIn momentumIn lr indices gradOut momentumOut paramOut) then
  ret true.

(** Modelled from the spec: [DispatchHelper] of the host framework
    (caffe2/core/operator.h is not part of the sources).
    [DispatchHelper<TensorTypes<int32_t, int64_t>>::call(this, Input(INDICES))]
    runs [DoRunWithType<SIndex>] for the element type of the index tensor
    when it is one of the two the source lists, and raises for any other. *)
Definition RunOnDevice (junk : float) (op : Operator) : M bool :=
  let* ind := Input op INDICES in
  let* t := tensor ind in
  match storage t with
  | Int32Data _ => DoRunWithType int32_t junk op
  | Int64Data _ => DoRunWithType int64_t junk op
  | _ => throw UnsupportedIndexWidth
  end.
End SparseMomentumSGDUpdateOp.

(** ** Vocabulary of the statements *)

(** The value the kernel stores in [nm[i]]. *)
Definition nm_of (LR momentum : float) (nesterov : bool) (gi mi : float) : float :=
  if nesterov
  then (momentum * mi + LR * gi)%f32
  else (LR * gi + momentum * mi)%f32.

(** The value the kernel stores in [ng[i]]. *)
Definition ng_of (LR momentum : float) (nesterov : bool) (gi mi : float) : float :=
  if nesterov
  then ((F32.one + momentum) * (momentum * mi + LR * gi) - momentum * mi)%f32
  else (LR * gi + momentum * mi)%f32.

(** How the buffers of one kernel call may share storage: each output is
    its input itself or lies in another blob, and the parameter row lies in
    a blob of its own. *)
Record layout (g m ng nm : ptr) (param : option ptr) : Prop := {
  lay_ng_g : ng = g \/ blob ng <> blob g;
  lay_nm_m : nm = m \/ blob nm <> blob m;
  lay_nm_g : blob nm <> blob g;
  lay_ng_m : blob ng <> blob m;
  lay_nm_ng : blob nm <> blob ng;
  lay_param : forall p, param = Some p ->
    blob p <> blob g /\ blob p <> blob m /\ blob p <> blob ng /\ blob p <> blob nm
}.

(** [p[0..N)] lies inside the storage of a float tensor. *)
Definition valid_range (ws : Workspace) (p : ptr) (N : Z) : bool :=
  match float_data ws (blob p) with
  | Some xs => (0 <=? off p) && (off p + N <=? Z.of_nat (length xs))
  | None => false
  end.

Definition valid_range_opt (ws : Workspace) (p : option ptr) (N : Z) : bool :=
  match p with
  | Some p => valid_range ws p N
  | None => true
  end.

(** The state after iteration [i] of the kernel, when it stays in bounds. *)
Definition after_body (LR momentum : float) (nesterov : bool)
    (ng nm : ptr) (param : option ptr)
    (ws : Workspace) (i : Z) (gi mi : float) : Workspace :=
  let ws1 := upd (upd ws (nm +p i) (nm_of LR momentum nesterov gi mi))
                 (ng +p i) (ng_of LR momentum nesterov gi mi) in
  match param with
  | Some p =>
      match read ws (p +p i) with
      | Some pi => upd ws1 (p +p i) (pi - ng_of LR momentum nesterov gi mi)%f32
      | None => ws1
      end
  | None => ws1
  end.

(** Every access of iterations [i0 .. i0 + k) is in bounds. *)
Definition in_bounds (g m ng nm : ptr) (param : option ptr)
    (ws : Workspace) (i0 : Z) (k : nat) : Prop :=
  forall i, i0 <= i < i0 + Z.of_nat k ->
    is_Some (read ws (g +p i)) /\ is_Some (read ws (m +p i)) /\
    is_Some (read ws (ng +p i)) /\ is_Some (read ws (nm +p i)) /\
    forall p, param = Some p -> is_Some (read ws (p +p i)).

(** What iterations [i0 .. i0 + k) turn [ws] into. *)
Definition loop_post (LR momentum : float) (nesterov : bool)
    (g m ng nm : ptr) (param : option ptr)
    (ws ws' : Workspace) (i0 : Z) (k : nat) : Prop :=
  (forall i gi mi, i0 <= i < i0 + Z.of_nat k ->
     read ws (g +p i) = Some gi -> read ws (m +p i) = Some mi ->
     read ws' (nm +p i) = Some (nm_of LR momentum nesterov gi mi) /\
     read ws' (ng +p i) = Some (ng_of LR momentum nesterov gi mi) /\
     forall p pi, param = Some p -> read ws (p +p i) = Some pi ->
       read ws' (p +p i) = Some (pi - ng_of LR momentum nesterov gi mi)%f32) /\
  (forall q,
     (forall i, i0 <= i < i0 + Z.of_nat k ->
        q <> nm +p i /\ q <> ng +p i /\ forall p, param = Some p -> q <> p +p i) ->
     read ws' q = read ws q) /\
  (forall q, is_Some (read ws' q) <-> is_Some (read ws q)).

(** The blob [name] holds the tensor [t]. *)
Definition holds (ws : Workspace) (name : string) (t : Tensor) : Prop :=
  ws !! name = Some (TensorBlob t).

(** The blob [name] holds a float tensor of shape [d] whose storage [xs]
    has exactly the elements the shape stands for. *)
Definition float_tensor (ws : Workspace) (name : string)
    (d : list nat) (xs : list float) : Prop :=
  holds ws name (mkTensor d (FloatData xs)) /\ length xs = numel d.

(** The blob [name] holds a tensor of shape [d]; if its storage is of type
    float, it has the elements the shape stands for. *)
Definition shaped (ws : Workspace) (name : string) (d : list nat) : Prop :=
  exists s, holds ws name (mkTensor d s) /\
    forall xs, s = FloatData xs -> length xs = numel d.

(** A computation that leaves the blob [b] as it is, whatever it returns. *)
Definition preserves {A} (b : string) (c : M A) : Prop :=
  forall ws, (c ws).2 !! b = ws !! b.

(** How the slots of a dense operator are wired to blobs: [G], [Mo], [L] are
    the gradient, momentum and learning-rate inputs, [Go], [Mo'], [Po] the
    gradient, momentum and parameter outputs.  A gradient or momentum output
    is its input (the operator runs in place) or a blob of its own; the
    parameter output is never one of the gradient or momentum blobs. *)
Record dense_wiring (op : Operator) (G Mo L Go Mo' Po : string) : Prop := {
  dw_G : inputs op !! 0%nat = Some G;
  dw_Mo : inputs op !! 1%nat = Some Mo;
  dw_L : inputs op !! 2%nat = Some L;
  dw_Go : outputs op !! 0%nat = Some Go;
  dw_Mo' : outputs op !! 1%nat = Some Mo';
  dw_Po : outputs op !! 2%nat = Some Po;
  dw_alias_G : Go = G \/ (Go <> G /\ Go <> Mo /\ Go <> L /\ Go <> Po);
  dw_alias_Mo : Mo' = Mo \/ (Mo' <> G /\ Mo' <> Mo /\ Mo' <> L /\ Mo' <> Po);
  dw_G_Mo : G <> Mo;
  dw_Go_Mo' : Go <> Mo';
  dw_Po_G : Po <> G;
  dw_Po_Mo : Po <> Mo
}.

(** The kernel call of [MomentumSGDUpdateOp::RunOnDevice], once the checks
    have passed and the outputs are in place. *)
Definition dense_update_kernel (op : Operator) (N : Z)
    (G Mo L Go Mo' Po : string) : M bool :=
  do momentum_sgd_update (to_int N)
       (Ptr G 0) (Ptr Mo 0) (Ptr Go 0) (Ptr Mo' 0) (Ptr L 0)
       (momentum_ op) (nesterov_ op) (Some (Ptr Po 0)) then
  ret true.

(** The three update variants of the spec. *)
Inductive variant :=
| DenseGradientUpdate
| DenseParameterUpdate
| SparseIndexedUpdate.

Definition run (v : variant) (junk : float) (op : Operator) : M bool :=
  match v with
  | DenseGradientUpdate => MomentumSGDOp.RunOnDevice junk op
  | DenseParameterUpdate => MomentumSGDUpdateOp.RunOnDevice junk op
  | SparseIndexedUpdate => SparseMomentumSGDUpdateOp.RunOnDevice junk op
  end.

(** The index list has one of the two supported element types. *)
Definition index_tensor (t : Tensor) : Prop :=
  match storage t with
  | Int32Data _ | Int64Data _ => True
  | _ => False
  end.

(** The inputs of a call are tensors of the expected kinds, and their
    lengths break one of the relations the variant states. *)
Definition shape_violation (v : variant) (op : Operator) (ws : Workspace) : Prop :=
  exists G Mo L tg tm tl,
    inputs op !! 0%nat = Some G /\ inputs op !! 1%nat = Some Mo /\
    inputs op !! 2%nat = Some L /\
    holds ws G tg /\ holds ws Mo tm /\ holds ws L tl /\
    match v with
    | DenseGradientUpdate | DenseParameterUpdate =>
        size tl <> 1 \/ size tg <> size tm
    | SparseIndexedUpdate =>
        exists P I tp ti,
          inputs op !! 3%nat = Some P /\ inputs op !! 4%nat = Some I /\
          holds ws P tp /\ holds ws I ti /\ index_tensor ti /\
          (size tl <> 1 \/ size tp <> size tm \/
           exists n, dims tg !! 0%nat = Some n /\ size ti <> Z.of_nat n)
    end.

(** The dense parameter update as the spec words it for distinct parameter
    buffers: after a successful call the output parameter [Po] holds, for
    each of the [N] elements, the input parameter [P] minus the step left in
    the gradient output [Go]. *)
Definition output_is_input_minus_step (junk : float) (op : Operator)
    (ws : Workspace) (P Go Po : string) (N : Z) : Prop :=
  forall ws',
    MomentumSGDUpdateOp.RunOnDevice junk op ws = (Done true, ws') ->
    forall i pin ngi, 0 <= i < N ->
      read ws (Ptr P i) = Some pin ->
      read ws' (Ptr Go i) = Some ngi ->
      read ws' (Ptr Po i) = Some (pin - ngi)%f32.

(** Two floats are the same number: identical, or zeros of either sign. *)
Definition same_value (x y : float) : Prop :=
  x = y \/ (F32.is_zero x = true /\ F32.is_zero y = true).

(** The kernel at momentum 0 as the spec words it: in either branch, for all
    inputs, [ng[i]] and [nm[i]] are [LR * g[i]]. *)
Definition plain_sgd_at_zero_momentum (ws : Workspace) (N : Z)
    (g m ng nm lr : ptr) (param : option ptr) : Prop :=
  forall nesterov ws' LR,
    momentum_sgd_update N g m ng nm lr F32.zero nesterov param ws = (Done tt, ws') ->
    read ws (lr +p 0) = Some LR ->
    forall i gi, 0 <= i < N -> read ws (g +p i) = Some gi ->
      exists ngi nmi,
        read ws' (ng +p i) = Some ngi /\ read ws' (nm +p i) = Some nmi /\
        same_value ngi (LR * gi)%f32 /\ same_value nmi (LR * gi)%f32.

(** How the slots of the sparse operator are wired to blobs: [G], [Mo], [L],
    [P], [I] are the gradient, momentum, learning-rate, parameter and index
    inputs, [Go], [Mo'], [Po] the three outputs.  Each output is its input
    (in place) or a blob of its own. *)
Record sparse_wiring (op : Operator) (G Mo L P I Go Mo' Po : string) : Prop := {
  sw_G : inputs op !! 0%nat = Some G;
  sw_Mo : inputs op !! 1%nat = Some Mo;
  sw_L : inputs op !! 2%nat = Some L;
  sw_P : inputs op !! 3%nat = Some P;
  sw_I : inputs op !! 4%nat = Some I;
  sw_Go : outputs op !! 0%nat = Some Go;
  sw_Mo' : outputs op !! 1%nat = Some Mo';
  sw_Po : outputs op !! 2%nat = Some Po;
  sw_alias_G : Go = G \/ (Go <> G /\ Go <> Mo /\ Go <> L /\ Go <> P /\ Go <> I);
  sw_alias_Mo : Mo' = Mo \/ (Mo' <> G /\ Mo' <> Mo /\ Mo' <> L /\ Mo' <> P /\ Mo' <> I);
  sw_alias_P : Po = P \/ (Po <> G /\ Po <> Mo /\ Po <> L /\ Po <> P /\ Po <> I);
  sw_inputs : G <> Mo /\ G <> P /\ Mo <> P /\ L <> G /\ L <> Mo /\ L <> P /\
              I <> G /\ I <> Mo /\ I <> P;
  sw_outputs : Go <> Mo' /\ Go <> Po /\ Mo' <> Po
}.

(** Storage of an index list of the given element type. *)
Definition index_storage (w : SIndex) (idxs : list Z) : Storage :=
  match w with
  | int32_t => Int32Data idxs
  | int64_t => Int64Data idxs
  end.

(** The row loop of [DoRunWithType], once the checks have passed and the
    outputs are in place. *)
Definition sparse_rows (w : SIndex) (op : Operator) (n block_size : Z)
    (G Mo L I Go Mo' Po : string) : M bool :=
  do for_range n
       (SparseMomentumSGDUpdateOp.row_update w op block_size
          (Ptr G 0) (Ptr Mo 0) (Ptr L 0) (Ptr I 0)
          (Ptr Go 0) (Ptr Mo' 0) (Ptr Po 0)) then
  ret true.

(** Block [r] of a flat buffer cut into blocks of [bs] elements. *)
Definition block (bs r : nat) (xs : list float) : list float :=
  take bs (drop (r * bs) xs).

(** How the slots of the gradient-only operator are wired to blobs. *)
Record grad_wiring (op : Operator) (G Mo L Go Mo' : string) : Prop := {
  gw_G : inputs op !! 0%nat = Some G;
  gw_Mo : inputs op !! 1%nat = Some Mo;
  gw_L : inputs op !! 2%nat = Some L;
  gw_Go : outputs op !! 0%nat = Some Go;
  gw_Mo' : outputs op !! 1%nat = Some Mo';
  gw_alias_G : Go = G \/ (Go <> G /\ Go <> Mo /\ Go <> L);
  gw_alias_Mo : Mo' = Mo \/ (Mo' <> G /\ Mo' <> Mo /\ Mo' <> L);
  gw_G_Mo : G <> Mo;
  gw_Go_Mo' : Go <> Mo'
}.

(** The kernel call of [MomentumSGDOp::RunOnDevice]. *)
Definition dense_gradient_kernel (op : Operator) (N : Z)
    (G Mo L Go Mo' : string) : M bool :=
  do momentum_sgd_update (to_int N)
       (Ptr G 0) (Ptr Mo 0) (Ptr Go 0) (Ptr Mo' 0) (Ptr L 0)
       (momentum_ op) (nesterov_ op) None then
  ret true.

(** The blob [X] holds no tensor: it is missing or holds something else. *)
Definition not_tensor (ws : Workspace) (X : string) : Prop :=
  forall t, ws !! X <> Some (TensorBlob t).

(** The gradient input or, with a gradient that is a tensor, the momentum
    input of a call holds no tensor.  (For the sparse variant, whose dispatch
    comes first, the index list is a tensor of a supported type.) *)
Definition type_violation (v : variant) (op : Operator) (ws : Workspace) : Prop :=
  (exists G, inputs op !! 0%nat = Some G /\
     (not_tensor ws G \/
      exists tg Mo, holds ws G tg /\ inputs op !! 1%nat = Some Mo /\
                    not_tensor ws Mo)) /\
  match v with
  | SparseIndexedUpdate =>
      exists I ti, inputs op !! 4%nat = Some I /\ holds ws I ti /\ index_tensor ti
  | _ => True
  end.

(** ** Concrete workspaces *)

Module Example.
Definition f (m e : Z) : float := F32.of_Z m e.
(* 0.1f and 0.9f *)
Definition c0_1 : float := Eval cbv in f 13421773 (-27).
Definition c0_9 : float := Eval cbv in f 15099494 (-24).
Definition c1 : float := Eval cbv in f 1 0.
Definition c2 : float := Eval cbv in f 2 0.
Definition c3 : float := Eval cbv in f 3 0.
Definition c5 : float := Eval cbv in f 5 0.

Definition vec (xs : list float) : Blob :=
  TensorBlob (mkTensor [length xs] (FloatData xs)).
Definition mat (rows cols : nat) (xs : list float) : Blob :=
  TensorBlob (mkTensor [rows; cols] (FloatData xs)).

(** The end-to-end example of the spec: g = [1,2,3], m = [0,0,0],
    LR = 0.1, param = [1,1,1]. *)
Definition ws0 : Workspace :=
  <["grad" := vec [c1; c2; c3]]>
  (<["mom" := vec [F32.zero; F32.zero; F32.zero]]>
  (<["lr" := vec [c0_1]]>
  (<["param" := vec [c1; c1; c1]]> ∅))).

(** The same with a parameter output of its own, holding [5,5,5]. *)
Definition ws_out : Workspace := <["param_out" := vec [c5; c5; c5]]> ws0.

(** The same with a parameter output of two elements, and of four. *)
Definition ws_short : Workspace := <["param_out" := vec [c5; c5]]> ws0.
Definition ws_long : Workspace := <["param_out" := vec [c5; c5; c5; c5]]> ws0.

(** A momentum buffer one element short of the gradient. *)
Definition ws_bad : Workspace := <["mom" := vec [F32.zero; F32.zero]]> ws0.

(** Operators with momentum 0.9: in place, and with outputs of their own. *)
Definition op_inplace (nesterov : bool) : Operator :=
  mkOperator ["grad"; "mom"; "lr"; "param"] ["grad"; "mom"; "param"] c0_9 nesterov.
Definition op_out (nesterov : bool) : Operator :=
  mkOperator ["grad"; "mom"; "lr"; "param"] ["grad_out"; "mom_out"; "param_out"]
    c0_9 nesterov.

(** Buffers for kernel calls with outputs of their own. *)
Definition ws_kernel : Workspace :=
  <["ng" := vec [F32.zero; F32.zero; F32.zero]]>
  (<["nm" := vec [F32.zero; F32.zero; F32.zero]]> ws0).

(** The kernel buffers with an infinite momentum value. *)
Definition ws_inf : Workspace :=
  <["mom" := vec [S754_infinity false; F32.zero; F32.zero]]> ws_kernel.

(** The gradient-only operator, in place. *)
Definition op_grad (nesterov : bool) : Operator :=
  mkOperator ["grad"; "mom"; "lr"] ["grad"; "mom"] c0_9 nesterov.

(** A sparse update: two gradient rows of two elements, both for row 5 of a
    parameter of six rows. *)
Definition ws_sparse (indices : Storage) : Workspace :=
  <["grad" := mat 2 2 [c1; c2; c3; c5]]>
  (<["mom" := mat 6 2 (replicate 12 c1)]>
  (<["lr" := vec [c0_1]]>
  (<["param" := mat 6 2 (replicate 12 c1)]>
  (<["indices" := TensorBlob (mkTensor [2%nat] indices)]> ∅)))).

Definition op_sparse (nesterov : bool) : Operator :=
  mkOperator ["grad"; "mom"; "lr"; "param"; "indices"] ["grad"; "mom"; "param"]
    c0_9 nesterov.

(** The gradient-only operator with outputs of its own. *)
Definition op_grad_out (nesterov : bool) : Operator :=
  mkOperator ["grad"; "mom"; "lr"] ["grad_out"; "mom_out"] c0_9 nesterov.

(** The momentum blob holds something that is not a tensor. *)
Definition ws_other : Workspace := <["mom" := OtherBlob]> ws0.
End Example.

(** * Properties *)

(** ** Reading and writing through pointers *)

Lemma ptr_add_inj p i j : p +p i = p +p j -> i = j.
Proof. unfold ptr_add. intros [=]. lia. Qed.

Lemma ptr_add_blob p i : blob (p +p i) = blob p.
Proof. reflexivity. Qed.

Lemma ptr_add_add p i j : p +p i +p j = p +p (i + j).
Proof. unfold ptr_add. simpl. f_equal. lia. Qed.

Lemma float_data_set ws name xs b :
  is_Some (float_data ws name) ->
  float_data (set_float_data ws name xs) b =
    if decide (name = b) then Some xs else float_data ws b.
Proof.
  unfold float_data, set_float_data. intros [ys Hys].
  destruct (ws !! name) as [[t|]|] eqn:E; try discriminate.
  case_decide as Hb.
  - subst b. rewrite lookup_insert_eq. reflexivity.
  - rewrite lookup_insert_ne by done. reflexivity.
Qed.

Lemma set_float_data_lookup_ne ws name xs b :
  name <> b -> set_float_data ws name xs !! b = ws !! b.
Proof.
  intros Hb. unfold set_float_data.
  destruct (ws !! name) as [[t|]|]; try reflexivity.
  by rewrite lookup_insert_ne.
Qed.

Lemma upd_lookup_ne ws p v b : blob p <> b -> upd ws p v !! b = ws !! b.
Proof.
  intros Hb. unfold upd.
  destruct (float_data ws (blob p)); [|reflexivity].
  destruct (0 <=? off p); [|reflexivity].
  by apply set_float_data_lookup_ne.
Qed.

Lemma read_Some ws p v :
  read ws p = Some v <->
  exists xs, float_data ws (blob p) = Some xs /\ (0 <= off p) /\
             (xs !! Z.to_nat (off p) = Some v).
Proof.
  unfold read. split.
  - destruct (float_data ws (blob p)) as [xs|]; [|discriminate].
    destruct (Z.leb_spec 0 (off p)); [|discriminate]. eauto.
  - intros (xs & -> & Hoff & Hx).
    destruct (Z.leb_spec 0 (off p)); [done|lia].
Qed.

Lemma read_upd_eq ws p v :
  is_Some (read ws p) -> read (upd ws p v) p = Some v.
Proof.
  intros [u Hu]. apply read_Some in Hu as (xs & Hxs & Hoff & Hx).
  apply read_Some. unfold upd. rewrite Hxs.
  destruct (Z.leb_spec 0 (off p)); [|lia].
  exists (<[Z.to_nat (off p) := v]> xs). split_and!; [|done|].
  - rewrite float_data_set by eauto. by rewrite decide_True.
  - apply list_lookup_insert_eq. by eapply lookup_lt_Some.
Qed.

Lemma read_upd_ne ws p q v :
  p <> q -> read (upd ws p v) q = read ws q.
Proof.
  intros Hpq. unfold upd.
  destruct (float_data ws (blob p)) as [xs|] eqn:Hxs; [|reflexivity].
  destruct (Z.leb_spec 0 (off p)) as [Hp|]; [|reflexivity].
  unfold read. rewrite float_data_set by eauto.
  case_decide as Hb; [|reflexivity].
  rewrite <- Hb, Hxs.
  destruct (Z.leb_spec 0 (off q)) as [Hq|]; [|reflexivity].
  apply list_lookup_insert_ne.
  intros Hoff. apply Hpq. destruct p, q; simpl in *. f_equal; [done|lia].
Qed.

Lemma read_upd_is_Some ws p q v :
  is_Some (read (upd ws p v) q) <-> is_Some (read ws q).
Proof.
  destruct (decide (p = q)) as [->|Hpq].
  - split; intros H.
    + unfold upd in H.
      destruct (float_data ws (blob q)) as [xs|] eqn:Hxs; [|done].
      destruct (Z.leb_spec 0 (off q)) as [Hq|]; [|done].
      destruct H as [u Hu]. apply read_Some in Hu as (ys & Hys & _ & Hy).
      rewrite float_data_set in Hys by eauto. rewrite decide_True in Hys by done.
      injection Hys as <-. apply lookup_lt_Some in Hy. rewrite length_insert in Hy.
      apply lookup_lt_is_Some_2 in Hy as [u' Hu'].
      exists u'. apply read_Some. eauto.
    + rewrite read_upd_eq by done. eauto.
  - by rewrite read_upd_ne.
Qed.

Lemma load_Some ws p v : read ws p = Some v -> load p ws = (Done v, ws).
Proof. unfold load. by intros ->. Qed.

Lemma store_Some ws p v :
  is_Some (read ws p) -> store p v ws = (Done tt, upd ws p v).
Proof. unfold store. by intros [u ->]. Qed.

Lemma load_None ws p : read ws p = None -> load p ws = (Fail (OutOfBounds p), ws).
Proof. unfold load. by intros ->. Qed.

Lemma store_None ws p v :
  read ws p = None -> store p v ws = (Fail (OutOfBounds p), ws).
Proof. unfold store. by intros ->. Qed.

Lemma bind_Done {A B} (c : M A) (k : A -> M B) ws a ws' :
  c ws = (Done a, ws') -> bind c k ws = k a ws'.
Proof. unfold bind. by intros ->. Qed.

Lemma bind_Fail {A B} (c : M A) (k : A -> M B) ws e ws' :
  c ws = (Fail e, ws') -> bind c k ws = (Fail e, ws').
Proof. unfold bind. by intros ->. Qed.

(** ** binary32 facts *)

Lemma same_value_refl x : same_value x x.
Proof. by left. Qed.

Lemma same_value_sym x y : same_value x y -> same_value y x.
Proof. intros [->|[? ?]]; [by left|by right]. Qed.

Lemma same_value_trans x y z : same_value x y -> same_value y z -> same_value x z.
Proof.
  intros [->|[Hx Hy]] [->|[Hy' Hz]]; (by left) || (by right).
Qed.

(** Numbers that are the same compare equal in C++, unless they are NaN. *)
Lemma same_value_eqb x y : same_value x y -> x <> S754_nan -> F32.eqb x y = true.
Proof.
  intros [<-|[Hx Hy]] Hnan.
  - unfold F32.eqb, SFeqb, SFcompare.
    destruct x as [s|s| |s m e]; try done; try by destruct s.
    destruct s; rewrite Z.compare_refl, Pos.compare_cont_refl; done.
  - by destruct x, y.
Qed.

Lemma mul_zero_finite z x :
  F32.is_zero z = true -> F32.is_finite x = true ->
  F32.is_zero (z * x)%f32 = true.
Proof. by destruct z, x. Qed.

Lemma add_zero_r x z : F32.is_zero z = true -> same_value (x + z)%f32 x.
Proof.
  destruct z as [sz| | |]; try done. intros _.
  destruct x as [sx|sx| |sx m e]; try by left.
  right. by destruct sx, sz.
Qed.

Lemma add_zero_comm x z : F32.is_zero z = true -> (x + z = z + x)%f32.
Proof.
  destruct z as [sz| | |]; try done. intros _.
  destruct x as [sx|sx| |sx m e]; try done. by destruct sx, sz.
Qed.

Lemma sub_zero_r x z : F32.is_zero z = true -> same_value (x - z)%f32 x.
Proof.
  destruct z as [sz| | |]; try done. intros _.
  destruct x as [sx|sx| |sx m e]; try by left.
  right. by destruct sx, sz.
Qed.

Lemma one_add_zero z : F32.is_zero z = true -> (F32.one + z)%f32 = F32.one.
Proof. by destruct z. Qed.

Lemma mul_one_finite s m e :
  F32.valid (S754_finite s m e) = true ->
  (F32.one * S754_finite s m e)%f32 = S754_finite s m e.
Proof.
  intros Hv. unfold F32.valid, valid_binary, bounded, canonical_mantissa in Hv.
  apply andb_true_iff in Hv as [Hc Hb]. apply Z.eqb_eq in Hc.
  unfold F32.mul, F32.one, SFmul. cbn [xorb].
  unfold binary_round_aux.
  change (8388608 * m)%positive
    with (m~0~0~0~0~0~0~0~0~0~0~0~0~0~0~0~0~0~0~0~0~0~0~0)%positive.
  unfold shr_fexp at 1. cbn [Zdigits2 digits2_pos shr_record_of_loc].
  match goal with
  | |- context [fexp F32.prec F32.emax ?a - ?b] =>
      replace (fexp F32.prec F32.emax a - b) with 23
  end.
  2:{ match goal with
      | |- context [fexp F32.prec F32.emax ?a] =>
          replace a with (Z.pos (digits2_pos m) + e) by lia
      end. rewrite Hc. lia. }
  cbn [shr SpecFloat.iter_pos shr_1 orb].
  cbn [shr_m loc_of_shr_record round_nearest_even].
  replace (-23 + e + 23) with e by lia.
  unfold shr_fexp. cbn [Zdigits2 shr_record_of_loc]. rewrite Hc, Z.sub_diag.
  cbn [shr shr_m]. rewrite Hb. reflexivity.
Qed.

Lemma mul_one x : F32.valid x = true -> (F32.one * x)%f32 = x.
Proof.
  destruct x as [s|s| |s m e]; try done. apply mul_one_finite.
Qed.

Lemma mul_one_same_value x y :
  F32.valid y = true -> same_value x y -> same_value (F32.one * x)%f32 y.
Proof.
  intros Hv [->|[Hx Hy]].
  - rewrite mul_one by done. by left.
  - right. split; [|done]. by destruct x.
Qed.

(** At momentum 0 and for a finite momentum value, both branches store the
    same [nm], and every value they store is the number [LR * g]. *)
Lemma zero_momentum_elements LR momentum gi mi :
  F32.is_zero momentum = true ->
  F32.is_finite mi = true ->
  F32.valid (LR * gi)%f32 = true ->
  nm_of LR momentum false gi mi = nm_of LR momentum true gi mi /\
  ng_of LR momentum false gi mi = nm_of LR momentum false gi mi /\
  same_value (nm_of LR momentum false gi mi) (LR * gi)%f32 /\
  same_value (ng_of LR momentum true gi mi) (LR * gi)%f32.
Proof.
  intros Hmom Hmi Hv. unfold nm_of, ng_of.
  pose proof (mul_zero_finite momentum mi Hmom Hmi) as Hz.
  set (x := (LR * gi)%f32) in *. set (z := (momentum * mi)%f32) in *.
  split_and!.
  - by apply add_zero_comm.
  - done.
  - by apply add_zero_r.
  - rewrite one_add_zero by done.
    eapply same_value_trans; [by apply sub_zero_r|].
    apply mul_one_same_value; [done|].
    rewrite <- add_zero_comm by done. by apply add_zero_r.
Qed.

(** ** The kernel, element by element *)

Lemma valid_range_read ws p N i :
  valid_range ws p N = true -> 0 <= i < N -> is_Some (read ws (p +p i)).
Proof.
  unfold valid_range. intros H Hi.
  destruct (float_data ws (blob p)) as [xs|] eqn:Hxs; [|discriminate].
  apply andb_true_iff in H as [H0 H1].
  apply Z.leb_le in H0, H1.
  destruct (lookup_lt_is_Some_2 xs (Z.to_nat (off p + i))) as [v Hv]; [lia|].
  exists v. apply read_Some. exists xs. simpl. split_and!; [done|lia|done].
Qed.

Lemma valid_range_upd ws p N q v :
  valid_range (upd ws q v) p N = valid_range ws p N.
Proof.
  unfold valid_range, upd.
  destruct (float_data ws (blob q)) as [xs|] eqn:Hxs; [|reflexivity].
  destruct (0 <=? off q); [|reflexivity].
  rewrite float_data_set by eauto. case_decide as Hb; [|reflexivity].
  rewrite <- Hb, Hxs, length_insert. reflexivity.
Qed.

Ltac ptr_neq :=
  let H := fresh in
  intros H; unfold ptr_add in H; simpl in H;
  first [ congruence
        | injection H; intros; first [congruence | lia]
        | subst; simpl in *; injection H; intros; first [congruence | lia] ].

Section KernelLoop.
Variables (LR momentum : float) (nesterov : bool).
Variables (g m ng nm : ptr) (param : option ptr).
Hypothesis Hlay : layout g m ng nm param.

Local Abbreviation body :=
  (momentum_sgd_update_body LR g m ng nm momentum nesterov param).
Local Abbreviation after := (after_body LR momentum nesterov ng nm param).
Local Abbreviation nmv := (nm_of LR momentum nesterov).
Local Abbreviation ngv := (ng_of LR momentum nesterov).

Lemma body_Done ws i gi mi :
  read ws (g +p i) = Some gi ->
  read ws (m +p i) = Some mi ->
  is_Some (read ws (ng +p i)) ->
  is_Some (read ws (nm +p i)) ->
  (forall p, param = Some p -> is_Some (read ws (p +p i))) ->
  body i ws = (Done tt, after ws i gi mi).
Proof using Hlay.
  intros Hg Hm Hng Hnm Hp. destruct Hlay as [_ _ _ _ Hnmng Hpar].
  unfold momentum_sgd_update_body, after_body.
  set (ws1 := upd ws (nm +p i) (nmv gi mi)).
  assert (Hng1 : is_Some (read ws1 (ng +p i))) by by apply read_upd_is_Some.
  assert (E1 : (do store (nm +p i) (nmv gi mi) then store (ng +p i) (ngv gi mi)) ws
               = (Done tt, upd ws1 (ng +p i) (ngv gi mi))).
  { erewrite bind_Done by (by apply store_Some). by apply store_Some. }
  rewrite (bind_Done _ _ ws tt (upd ws1 (ng +p i) (ngv gi mi))); cycle 1.
  { unfold nm_of, ng_of in E1.
    destruct nesterov; cbn [negb];
      erewrite bind_Done by (by apply load_Some);
      erewrite bind_Done by (by apply load_Some); apply E1. }
  destruct param as [p|]; [|reflexivity].
  destruct (Hpar p eq_refl) as (Hpg & Hpm & Hpng & Hpnm).
  destruct (Hp p eq_refl) as [pi Hpi]. rewrite Hpi.
  set (ws2 := upd ws1 _ _).
  assert (Hpi2 : read ws2 (p +p i) = Some pi).
  { unfold ws2, ws1. rewrite !read_upd_ne by ptr_neq. done. }
  erewrite bind_Done by (by apply load_Some).
  erewrite bind_Done by (apply load_Some, read_upd_eq, Hng1).
  apply store_Some. eauto.
Qed.

Lemma after_body_other ws i gi mi q :
  q <> nm +p i -> q <> ng +p i ->
  (forall p, param = Some p -> q <> p +p i) ->
  read (after ws i gi mi) q = read ws q.
Proof.
  intros Hnm Hng Hp. unfold after_body.
  destruct param as [p|].
  - destruct (read ws (p +p i)).
    + rewrite !read_upd_ne; [done|done|done|]. intros E. by eapply Hp.
    + by rewrite !read_upd_ne.
  - by rewrite !read_upd_ne.
Qed.

Lemma after_body_is_Some ws i gi mi q :
  is_Some (read (after ws i gi mi) q) <-> is_Some (read ws q).
Proof.
  unfold after_body.
  destruct param as [p|]; [destruct (read ws (p +p i))|];
    rewrite !read_upd_is_Some; done.
Qed.

Lemma after_body_nm ws i gi mi :
  is_Some (read ws (nm +p i)) ->
  read (after ws i gi mi) (nm +p i) = Some (nmv gi mi).
Proof using Hlay.
  intros H. destruct Hlay as [_ _ _ _ Hnmng Hpar]. unfold after_body.
  destruct param as [p|].
  - destruct (Hpar p eq_refl) as (_ & _ & _ & Hpnm).
    destruct (read ws (p +p i)).
    + rewrite !read_upd_ne by ptr_neq. by apply read_upd_eq.
    + rewrite !read_upd_ne by ptr_neq. by apply read_upd_eq.
  - rewrite !read_upd_ne by ptr_neq. by apply read_upd_eq.
Qed.

Lemma after_body_ng ws i gi mi :
  is_Some (read ws (ng +p i)) ->
  read (after ws i gi mi) (ng +p i) = Some (ngv gi mi).
Proof using Hlay.
  intros H. destruct Hlay as [_ _ _ _ Hnmng Hpar]. unfold after_body.
  assert (forall v w, read (upd (upd ws (nm +p i) v) (ng +p i) w) (ng +p i) = Some w) as E.
  { intros. by apply read_upd_eq, read_upd_is_Some. }
  destruct param as [p|]; [|apply E].
  destruct (Hpar p eq_refl) as (_ & _ & Hpng & _).
  destruct (read ws (p +p i)); [|apply E].
  rewrite read_upd_ne by ptr_neq. apply E.
Qed.

Lemma after_body_param ws i gi mi p pi :
  param = Some p -> read ws (p +p i) = Some pi ->
  read (after ws i gi mi) (p +p i) = Some (pi - ngv gi mi)%f32.
Proof.
  intros Hp Hpi. unfold after_body. rewrite Hp, Hpi.
  apply read_upd_eq. rewrite !read_upd_is_Some. eauto.
Qed.

Lemma for_loop_spec k : forall i0 ws,
  in_bounds g m ng nm param ws i0 k ->
  exists ws', for_loop k i0 body ws = (Done tt, ws') /\
              loop_post LR momentum nesterov g m ng nm param ws ws' i0 k.
Proof using Hlay.
  induction k as [|k IH]; intros i0 ws Hb.
  { exists ws. split; [reflexivity|]. split_and!; [intros; lia|done|done]. }
  destruct (Hb i0 ltac:(lia)) as ([gi0 Hg0] & [mi0 Hm0] & Hng0 & Hnm0 & Hp0).
  pose proof (body_Done ws i0 gi0 mi0 Hg0 Hm0 Hng0 Hnm0 Hp0) as Hbody.
  set (ws1 := after ws i0 gi0 mi0) in *.
  assert (Hb1 : in_bounds g m ng nm param ws1 (i0 + 1) k).
  { intros i Hi. destruct (Hb i ltac:(lia)) as (? & ? & ? & ? & ?).
    unfold ws1. rewrite !after_body_is_Some. split_and!; try done.
    intros p Hp. rewrite after_body_is_Some. eauto. }
  destruct (IH (i0 + 1) ws1 Hb1) as (ws' & Hrun & Hval & Hframe & Hsome).
  exists ws'. split.
  { cbn [for_loop]. erewrite bind_Done by exact Hbody. exact Hrun. }
  destruct Hlay as [Hngg Hnmm Hnmg Hngm Hnmng Hpar].
  assert (Hkeep : forall i q, i0 < i ->
            (q = g +p i \/ q = m +p i \/ exists p, param = Some p /\ q = p +p i) ->
            read ws1 q = read ws q).
  { intros i q Hi Hq. apply after_body_other.
    - destruct Hq as [->|[->|(p & Hp & ->)]].
      + ptr_neq.
      + destruct Hnmm as [->|?]; ptr_neq.
      + destruct (Hpar p Hp) as (_ & _ & _ & ?). ptr_neq.
    - destruct Hq as [->|[->|(p & Hp & ->)]].
      + destruct Hngg as [->|?]; ptr_neq.
      + ptr_neq.
      + destruct (Hpar p Hp) as (_ & _ & ? & _). ptr_neq.
    - intros p' Hp'. destruct (Hpar p' Hp') as (? & ? & _ & _).
      destruct Hq as [->|[->|(p & Hp & ->)]].
      + ptr_neq.
      + ptr_neq.
      + assert (p' = p) as -> by congruence. ptr_neq. }
  split_and!.
  - intros i gi mi Hi Hg Hm.
    destruct (decide (i = i0)) as [->|Hne].
    + assert (gi = gi0) as -> by congruence.
      assert (mi = mi0) as -> by congruence.
      rewrite !Hframe.
      * split_and!; [by apply after_body_nm|by apply after_body_ng|].
        intros p pi Hp Hpi. rewrite Hframe; [by apply after_body_param|].
        intros i Hi'. destruct (Hpar p Hp) as (_ & _ & ? & ?).
        split_and!; [ptr_neq|ptr_neq|].
        intros p' Hp'. assert (p' = p) as -> by congruence. ptr_neq.
      * intros i Hi'. split_and!; [ptr_neq|ptr_neq|].
        intros p Hp. destruct (Hpar p Hp) as (_ & _ & ? & ?). ptr_neq.
      * intros i Hi'. split_and!; [ptr_neq|ptr_neq|].
        intros p Hp. destruct (Hpar p Hp) as (_ & _ & ? & ?). ptr_neq.
    + destruct (Hval i gi mi ltac:(lia)) as (Hnm & Hng & Hpp).
      * rewrite (Hkeep i) by (eauto; lia). done.
      * rewrite (Hkeep i) by (eauto; lia). done.
      * split_and!; [done|done|].
        intros p pi Hp Hpi. apply Hpp; [done|].
        rewrite (Hkeep i); [done|lia|eauto].
  - intros q Hq. rewrite Hframe.
    + destruct (Hq i0 ltac:(lia)) as (? & ? & ?). by apply after_body_other.
    + intros i Hi. apply Hq. lia.
  - intros q. rewrite Hsome. apply after_body_is_Some.
Qed.

End KernelLoop.

Lemma in_bounds_of_ranges ws N g m ng nm param :
  valid_range ws g N = true -> valid_range ws m N = true ->
  valid_range ws ng N = true -> valid_range ws nm N = true ->
  valid_range_opt ws param N = true ->
  in_bounds g m ng nm param ws 0 (Z.to_nat N).
Proof.
  intros Hg Hm Hng Hnm Hp i Hi.
  assert (0 <= i < N) by lia.
  split_and!; try by eapply valid_range_read.
  intros p ->. by eapply valid_range_read.
Qed.

(** The whole kernel: in bounds and with a sound layout it runs to the end,
    and every element holds the value of the recurrence. *)
Lemma momentum_sgd_update_spec ws N g m ng nm lr momentum nesterov param LR :
  layout g m ng nm param ->
  read ws (lr +p 0) = Some LR ->
  in_bounds g m ng nm param ws 0 (Z.to_nat N) ->
  exists ws',
    momentum_sgd_update N g m ng nm lr momentum nesterov param ws = (Done tt, ws') /\
    loop_post LR momentum nesterov g m ng nm param ws ws' 0 (Z.to_nat N).
Proof.
  intros Hlay Hlr Hb.
  destruct (for_loop_spec LR momentum nesterov g m ng nm param Hlay
              (Z.to_nat N) 0 ws Hb) as (ws' & Hrun & Hpost).
  exists ws'. split; [|done].
  unfold momentum_sgd_update. erewrite bind_Done by (by apply load_Some).
  exact Hrun.
Qed.

(** C1. With [nesterov = false], and buffers that are in bounds and either
    identical to their inputs or in separate blobs, the kernel runs to the
    end; for every [i] in [[0, N)] it leaves
    [nm[i] = ng[i] = LR * g[i] + momentum * m[i]], where [LR = lr[0]] and
    [g[i]], [m[i]] are the values on entry; and with a parameter row,
    [param[i]] ends as its value on entry minus [ng[i]]. *)
Theorem classic_update ws N g m ng nm lr momentum param LR :
  layout g m ng nm param ->
  read ws (lr +p 0) = Some LR ->
  valid_range ws g N = true -> valid_range ws m N = true ->
  valid_range ws ng N = true -> valid_range ws nm N = true ->
  valid_range_opt ws param N = true ->
  exists ws',
    momentum_sgd_update N g m ng nm lr momentum false param ws = (Done tt, ws') /\
    forall i gi mi, 0 <= i < N ->
      read ws (g +p i) = Some gi -> read ws (m +p i) = Some mi ->
      read ws' (nm +p i) = Some (LR * gi + momentum * mi)%f32 /\
      read ws' (ng +p i) = Some (LR * gi + momentum * mi)%f32 /\
      forall p pi, param = Some p -> read ws (p +p i) = Some pi ->
        read ws' (p +p i) = Some (pi - (LR * gi + momentum * mi))%f32.
Proof.
  intros Hlay Hlr Hg Hm Hng Hnm Hp.
  destruct (momentum_sgd_update_spec ws N g m ng nm lr momentum false param LR
              Hlay Hlr) as (ws' & Hrun & Hval & _).
  { by apply in_bounds_of_ranges. }
  exists ws'. split; [done|].
  intros i gi mi Hi Hgi Hmi. apply (Hval i gi mi); [lia|done|done].
Qed.

(** C2. With [nesterov = true], under the same conditions, the kernel leaves
    [nm[i] = momentum * m[i] + LR * g[i]] and
    [ng[i] = (1 + momentum) * nm[i] - momentum * m[i]] for every [i] in
    [[0, N)], where [m[i]] is the momentum value on entry; and with a
    parameter row, [param[i]] is decremented by [ng[i]]. *)
Theorem nesterov_update ws N g m ng nm lr momentum param LR :
  layout g m ng nm param ->
  read ws (lr +p 0) = Some LR ->
  valid_range ws g N = true -> valid_range ws m N = true ->
  valid_range ws ng N = true -> valid_range ws nm N = true ->
  valid_range_opt ws param N = true ->
  exists ws',
    momentum_sgd_update N g m ng nm lr momentum true param ws = (Done tt, ws') /\
    forall i gi mi, 0 <= i < N ->
      read ws (g +p i) = Some gi -> read ws (m +p i) = Some mi ->
      exists nmi ngi,
        read ws' (nm +p i) = Some nmi /\ read ws' (ng +p i) = Some ngi /\
        nmi = (momentum * mi + LR * gi)%f32 /\
        ngi = ((F32.one + momentum) * nmi - momentum * mi)%f32 /\
        forall p pi, param = Some p -> read ws (p +p i) = Some pi ->
          read ws' (p +p i) = Some (pi - ngi)%f32.
Proof.
  intros Hlay Hlr Hg Hm Hng Hnm Hp.
  destruct (momentum_sgd_update_spec ws N g m ng nm lr momentum true param LR
              Hlay Hlr) as (ws' & Hrun & Hval & _).
  { by apply in_bounds_of_ranges. }
  exists ws'. split; [done|].
  intros i gi mi Hi Hgi Hmi.
  destruct (Hval i gi mi ltac:(lia) Hgi Hmi) as (Hnmi & Hngi & Hpi).
  eexists _, _. split_and!; [exact Hnmi|exact Hngi|reflexivity|reflexivity|exact Hpi].
Qed.

(** C8. Running the kernel in place ([ng] is [g], [nm] is [m]) and running it
    with outputs in blobs of their own give the same values, element for
    element, in the gradient output, the momentum output and the parameter
    row, for either branch and with or without a parameter row. *)
Theorem aliasing_invariance ws N g m ng nm lr momentum nesterov param LR :
  layout g m g m param ->
  layout g m ng nm param ->
  read ws (lr +p 0) = Some LR ->
  valid_range ws g N = true -> valid_range ws m N = true ->
  valid_range ws ng N = true -> valid_range ws nm N = true ->
  valid_range_opt ws param N = true ->
  exists ws_inplace ws_distinct,
    momentum_sgd_update N g m g m lr momentum nesterov param ws
      = (Done tt, ws_inplace) /\
    momentum_sgd_update N g m ng nm lr momentum nesterov param ws
      = (Done tt, ws_distinct) /\
    forall i, 0 <= i < N ->
      is_Some (read ws_inplace (g +p i)) /\
      read ws_inplace (g +p i) = read ws_distinct (ng +p i) /\
      read ws_inplace (m +p i) = read ws_distinct (nm +p i) /\
      forall p, param = Some p ->
        read ws_inplace (p +p i) = read ws_distinct (p +p i).
Proof.
  intros Hlay1 Hlay2 Hlr Hg Hm Hng Hnm Hp.
  destruct (momentum_sgd_update_spec ws N g m g m lr momentum nesterov param LR
              Hlay1 Hlr) as (ws1 & Hrun1 & Hval1 & _).
  { by apply in_bounds_of_ranges. }
  destruct (momentum_sgd_update_spec ws N g m ng nm lr momentum nesterov param LR
              Hlay2 Hlr) as (ws2 & Hrun2 & Hval2 & _).
  { by apply in_bounds_of_ranges. }
  exists ws1, ws2. split_and!; [done|done|].
  intros i Hi.
  destruct (valid_range_read ws g N i Hg Hi) as [gi Hgi].
  destruct (valid_range_read ws m N i Hm Hi) as [mi Hmi].
  destruct (Hval1 i gi mi ltac:(lia) Hgi Hmi) as (Hnm1 & Hng1 & Hp1).
  destruct (Hval2 i gi mi ltac:(lia) Hgi Hmi) as (Hnm2 & Hng2 & Hp2).
  split_and!; [by rewrite Hng1|congruence|congruence|].
  intros p ->.
  destruct (valid_range_read ws p N i Hp Hi) as [pi Hpi].
  rewrite (Hp1 p pi), (Hp2 p pi); done.
Qed.

Ltac solve_layout :=
  constructor; cbn [blob];
  first [ discriminate | by left | right; discriminate
        | intros ? [= <-]; cbn [blob]; repeat split; discriminate
        | discriminate ].

Lemma classic_update_witness :
  exists ws',
    momentum_sgd_update 3 (Ptr "grad" 0) (Ptr "mom" 0) (Ptr "ng" 0) (Ptr "nm" 0)
      (Ptr "lr" 0) Example.c0_9 false (Some (Ptr "param" 0)) Example.ws_kernel
      = (Done tt, ws') /\
    forall i gi mi, 0 <= i < 3 ->
      read Example.ws_kernel (Ptr "grad" 0 +p i) = Some gi ->
      read Example.ws_kernel (Ptr "mom" 0 +p i) = Some mi ->
      read ws' (Ptr "nm" 0 +p i) = Some (Example.c0_1 * gi + Example.c0_9 * mi)%f32 /\
      read ws' (Ptr "ng" 0 +p i) = Some (Example.c0_1 * gi + Example.c0_9 * mi)%f32 /\
      forall p pi, Some (Ptr "param" 0) = Some p ->
        read Example.ws_kernel (p +p i) = Some pi ->
        read ws' (p +p i) = Some (pi - (Example.c0_1 * gi + Example.c0_9 * mi))%f32.
Proof.
  apply (classic_update Example.ws_kernel 3 (Ptr "grad" 0) (Ptr "mom" 0)
           (Ptr "ng" 0) (Ptr "nm" 0) (Ptr "lr" 0) Example.c0_9
           (Some (Ptr "param" 0)) Example.c0_1).
  - solve_layout.
  - reflexivity.
  - reflexivity.
  - reflexivity.
  - reflexivity.
  - reflexivity.
  - reflexivity.
Defined.

Lemma nesterov_update_witness :
  exists ws',
    momentum_sgd_update 3 (Ptr "grad" 0) (Ptr "mom" 0) (Ptr "grad" 0) (Ptr "mom" 0)
      (Ptr "lr" 0) Example.c0_9 true (Some (Ptr "param" 0)) Example.ws0
      = (Done tt, ws') /\
    forall i gi mi, 0 <= i < 3 ->
      read Example.ws0 (Ptr "grad" 0 +p i) = Some gi ->
      read Example.ws0 (Ptr "mom" 0 +p i) = Some mi ->
      exists nmi ngi,
        read ws' (Ptr "mom" 0 +p i) = Some nmi /\
        read ws' (Ptr "grad" 0 +p i) = Some ngi /\
        nmi = (Example.c0_9 * mi + Example.c0_1 * gi)%f32 /\
        ngi = ((F32.one + Example.c0_9) * nmi - Example.c0_9 * mi)%f32 /\
        forall p pi, Some (Ptr "param" 0) = Some p ->
          read Example.ws0 (p +p i) = Some pi ->
          read ws' (p +p i) = Some (pi - ngi)%f32.
Proof.
  apply (nesterov_update Example.ws0 3 (Ptr "grad" 0) (Ptr "mom" 0)
           (Ptr "grad" 0) (Ptr "mom" 0) (Ptr "lr" 0) Example.c0_9
           (Some (Ptr "param" 0)) Example.c0_1).
  - solve_layout.
  - reflexivity.
  - reflexivity.
  - reflexivity.
  - reflexivity.
  - reflexivity.
  - reflexivity.
Defined.

Lemma aliasing_invariance_witness :
  exists ws_inplace ws_distinct,
    momentum_sgd_update 3 (Ptr "grad" 0) (Ptr "mom" 0) (Ptr "grad" 0) (Ptr "mom" 0)
      (Ptr "lr" 0) Example.c0_9 true (Some (Ptr "param" 0)) Example.ws_kernel
      = (Done tt, ws_inplace) /\
    momentum_sgd_update 3 (Ptr "grad" 0) (Ptr "mom" 0) (Ptr "ng" 0) (Ptr "nm" 0)
      (Ptr "lr" 0) Example.c0_9 true (Some (Ptr "param" 0)) Example.ws_kernel
      = (Done tt, ws_distinct) /\
    forall i, 0 <= i < 3 ->
      is_Some (read ws_inplace (Ptr "grad" 0 +p i)) /\
      read ws_inplace (Ptr "grad" 0 +p i) = read ws_distinct (Ptr "ng" 0 +p i) /\
      read ws_inplace (Ptr "mom" 0 +p i) = read ws_distinct (Ptr "nm" 0 +p i) /\
      forall p, Some (Ptr "param" 0) = Some p ->
        read ws_inplace (p +p i) = read ws_distinct (p +p i).
Proof.
  apply (aliasing_invariance Example.ws_kernel 3 (Ptr "grad" 0) (Ptr "mom" 0)
           (Ptr "ng" 0) (Ptr "nm" 0) (Ptr "lr" 0) Example.c0_9 true
           (Some (Ptr "param" 0)) Example.c0_1).
  - solve_layout.
  - solve_layout.
  - reflexivity.
  - reflexivity.
  - reflexivity.
  - reflexivity.
  - reflexivity.
  - reflexivity.
Defined.

(** C7, as stated, fails: with momentum 0 and an infinite [m[0]], the classic
    branch stores [0.1 * 1 + 0 * inf], a NaN, in [ng[0]] and not
    [LR * g[0] = 0.1]. *)
Lemma plain_sgd_at_zero_momentum_fails :
  ~ plain_sgd_at_zero_momentum Example.ws_inf 3
      (Ptr "grad" 0) (Ptr "mom" 0) (Ptr "ng" 0) (Ptr "nm" 0) (Ptr "lr" 0) None.
Proof.
  intros H.
  set (r := momentum_sgd_update 3 (Ptr "grad" 0) (Ptr "mom" 0) (Ptr "ng" 0)
              (Ptr "nm" 0) (Ptr "lr" 0) F32.zero false None Example.ws_inf).
  assert (Hr : r = (Done tt, r.2)) by (vm_compute; reflexivity).
  destruct (H false r.2 Example.c0_1 Hr ltac:(reflexivity) 0 Example.c1
              ltac:(lia) ltac:(reflexivity))
    as (ngi & nmi & Hng & _ & Hsame & _).
  vm_compute in Hng. injection Hng as <-.
  vm_compute in Hsame. destruct Hsame as [?|[? _]]; discriminate.
Qed.

(** C7, amended. With momentum 0 and a finite [m[i]] (neither an infinity
    nor a NaN), the classic and the Nesterov branch store the same [nm[i]],
    and [ng[i]] and [nm[i]] of either branch are the number [LR * g[i]]:
    identical to it, or a zero where it is a zero of the other sign. *)
Theorem zero_momentum_is_plain_sgd ws N g m ng nm lr momentum param LR :
  layout g m ng nm param ->
  read ws (lr +p 0) = Some LR ->
  valid_range ws g N = true -> valid_range ws m N = true ->
  valid_range ws ng N = true -> valid_range ws nm N = true ->
  valid_range_opt ws param N = true ->
  F32.is_zero momentum = true ->
  exists ws_classic ws_nesterov,
    momentum_sgd_update N g m ng nm lr momentum false param ws
      = (Done tt, ws_classic) /\
    momentum_sgd_update N g m ng nm lr momentum true param ws
      = (Done tt, ws_nesterov) /\
    forall i gi mi, 0 <= i < N ->
      read ws (g +p i) = Some gi -> read ws (m +p i) = Some mi ->
      F32.is_finite mi = true -> F32.valid (LR * gi)%f32 = true ->
      exists nm_c ng_c nm_n ng_n,
        read ws_classic (nm +p i) = Some nm_c /\
        read ws_classic (ng +p i) = Some ng_c /\
        read ws_nesterov (nm +p i) = Some nm_n /\
        read ws_nesterov (ng +p i) = Some ng_n /\
        nm_c = nm_n /\ ng_c = nm_c /\
        same_value nm_c (LR * gi)%f32 /\ same_value ng_n (LR * gi)%f32.
Proof.
  intros Hlay Hlr Hg Hm Hng Hnm Hp Hmom.
  destruct (momentum_sgd_update_spec ws N g m ng nm lr momentum false param LR
              Hlay Hlr) as (ws1 & Hrun1 & Hval1 & _).
  { by apply in_bounds_of_ranges. }
  destruct (momentum_sgd_update_spec ws N g m ng nm lr momentum true param LR
              Hlay Hlr) as (ws2 & Hrun2 & Hval2 & _).
  { by apply in_bounds_of_ranges. }
  exists ws1, ws2. split_and!; [done|done|].
  intros i gi mi Hi Hgi Hmi Hfin Hvalid.
  destruct (Hval1 i gi mi ltac:(lia) Hgi Hmi) as (Hnm1 & Hng1 & _).
  destruct (Hval2 i gi mi ltac:(lia) Hgi Hmi) as (Hnm2 & Hng2 & _).
  destruct (zero_momentum_elements LR momentum gi mi Hmom Hfin Hvalid)
    as (E1 & E2 & S1 & S2).
  eexists _, _, _, _. split_and!; eauto.
Qed.

Lemma zero_momentum_is_plain_sgd_witness :
  exists ws_classic ws_nesterov,
    momentum_sgd_update 3 (Ptr "grad" 0) (Ptr "mom" 0) (Ptr "ng" 0) (Ptr "nm" 0)
      (Ptr "lr" 0) F32.zero false None Example.ws_kernel = (Done tt, ws_classic) /\
    momentum_sgd_update 3 (Ptr "grad" 0) (Ptr "mom" 0) (Ptr "ng" 0) (Ptr "nm" 0)
      (Ptr "lr" 0) F32.zero true None Example.ws_kernel = (Done tt, ws_nesterov) /\
    forall i gi mi, 0 <= i < 3 ->
      read Example.ws_kernel (Ptr "grad" 0 +p i) = Some gi ->
      read Example.ws_kernel (Ptr "mom" 0 +p i) = Some mi ->
      F32.is_finite mi = true -> F32.valid (Example.c0_1 * gi)%f32 = true ->
      exists nm_c ng_c nm_n ng_n,
        read ws_classic (Ptr "nm" 0 +p i) = Some nm_c /\
        read ws_classic (Ptr "ng" 0 +p i) = Some ng_c /\
        read ws_nesterov (Ptr "nm" 0 +p i) = Some nm_n /\
        read ws_nesterov (Ptr "ng" 0 +p i) = Some ng_n /\
        nm_c = nm_n /\ ng_c = nm_c /\
        same_value nm_c (Example.c0_1 * gi)%f32 /\
        same_value ng_n (Example.c0_1 * gi)%f32.
Proof.
  apply (zero_momentum_is_plain_sgd Example.ws_kernel 3 (Ptr "grad" 0)
           (Ptr "mom" 0) (Ptr "ng" 0) (Ptr "nm" 0) (Ptr "lr" 0) F32.zero None
           Example.c0_1).
  - solve_layout.
  - reflexivity.
  - reflexivity.
  - reflexivity.
  - reflexivity.
  - reflexivity.
  - reflexivity.
  - reflexivity.
Defined.

(** ** Steps of operator code *)

Lemma CAFFE_ENFORCE_true e ws : CAFFE_ENFORCE true e ws = (Done tt, ws).
Proof. reflexivity. Qed.

Lemma CAFFE_ENFORCE_false e ws : CAFFE_ENFORCE false e ws = (Fail e, ws).
Proof. reflexivity. Qed.

Lemma InputIsType_holds op i name t ws :
  inputs op !! i = Some name -> holds ws name t ->
  InputIsType op i ws = (Done true, ws).
Proof. unfold InputIsType, holds. by intros -> ->. Qed.

Lemma Input_holds op i name t ws :
  inputs op !! i = Some name -> holds ws name t ->
  Input op i ws = (Done name, ws).
Proof. unfold Input, holds. by intros -> ->. Qed.

Lemma tensor_holds name t ws : holds ws name t -> tensor name ws = (Done t, ws).
Proof. unfold tensor, holds. by intros ->. Qed.

Lemma size_of_holds name t ws :
  holds ws name t -> size_of name ws = (Done (size t), ws).
Proof. intros H. unfold size_of. by erewrite bind_Done by by apply tensor_holds. Qed.

Lemma dim_holds name t i d ws :
  holds ws name t -> dims t !! i = Some d -> dim name i ws = (Done (Z.of_nat d), ws).
Proof.
  intros H Hd. unfold dim. erewrite bind_Done by by apply tensor_holds.
  by rewrite Hd.
Qed.

Lemma data_holds name d xs ws :
  holds ws name (mkTensor d (FloatData xs)) -> data name ws = (Done (Ptr name 0), ws).
Proof. intros H. unfold data. by erewrite bind_Done by by apply tensor_holds. Qed.

Lemma float_tensor_data ws name d xs :
  float_tensor ws name d xs -> float_data ws name = Some xs.
Proof. intros [H _]. unfold float_data. by rewrite H. Qed.

Lemma float_tensor_shaped ws name d xs : float_tensor ws name d xs -> shaped ws name d.
Proof. intros [H Hl]. exists (FloatData xs). split; [done|]. by intros ? [= <-]. Qed.

Lemma mutable_data_float junk name d xs ws :
  holds ws name (mkTensor d (FloatData xs)) ->
  mutable_data junk name ws = (Done (Ptr name 0), ws).
Proof.
  intros H. unfold mutable_data. by erewrite bind_Done by by apply tensor_holds.
Qed.

(** [Output] keeps every tensor of the workspace. *)
Lemma Output_step op i out ws :
  outputs op !! i = Some out ->
  exists ws',
    Output op i ws = (Done out, ws') /\
    (exists t, holds ws' out t) /\
    (forall b, b <> out -> ws' !! b = ws !! b) /\
    (forall X t, holds ws X t -> holds ws' X t).
Proof.
  intros Hout. unfold Output, holds. rewrite Hout.
  destruct (ws !! out) as [[t|]|] eqn:E.
  - exists ws. split_and!; eauto.
  - eexists. split_and!; [done| |by intros; apply lookup_insert_ne|].
    + eexists. apply lookup_insert_eq.
    + intros X t HX. rewrite lookup_insert_ne; [done|congruence].
  - eexists. split_and!; [done| |by intros; apply lookup_insert_ne|].
    + eexists. apply lookup_insert_eq.
    + intros X t HX. rewrite lookup_insert_ne; [done|congruence].
Qed.

(** [ResizeLike] reshapes its target and keeps every other tensor; a float
    tensor, resized to a shape it has already, stays as it is. *)
Lemma ResizeLike_step junk out src s o ws :
  holds ws src s -> holds ws out o ->
  exists ws',
    ResizeLike junk out src ws = (Done tt, ws') /\
    shaped ws' out (dims s) /\
    (forall b, b <> out -> ws' !! b = ws !! b) /\
    (forall X t, holds ws X t -> X <> out -> holds ws' X t) /\
    (forall d xs, float_tensor ws src d xs -> out = src ->
                  holds ws' src (mkTensor d (FloatData xs))) /\
    (forall xs, float_tensor ws out (dims s) xs ->
                holds ws' out (mkTensor (dims s) (FloatData xs))).
Proof.
  intros Hs Ho. unfold ResizeLike.
  erewrite bind_Done by by apply tensor_holds.
  erewrite bind_Done by by apply tensor_holds.
  assert (Hsame : forall xs, float_tensor ws out (dims s) xs ->
    holds (<[out := TensorBlob (mkTensor (dims s)
                                  (resize_storage junk (size s) (storage o)))]> ws)
      out (mkTensor (dims s) (FloatData xs))).
  { intros xs [Hx Hl]. unfold holds in *.
    rewrite Ho in Hx. injection Hx as ->.
    rewrite lookup_insert_eq. do 2 f_equal. cbn [storage dims].
    unfold resize_storage, size. rewrite Nat2Z.id, <- Hl.
    by rewrite resize_all. }
  eexists. split_and!; [done| |by intros; apply lookup_insert_ne| | |done].
  - eexists. split; [apply lookup_insert_eq|].
    unfold resize_storage. intros xs Hxs.
    destruct (storage o); try discriminate. injection Hxs as <-.
    rewrite length_resize. unfold size. by rewrite Nat2Z.id.
  - intros X t HX Hne. unfold holds. by rewrite lookup_insert_ne.
  - intros d xs [Hx Hl] ->. unfold holds in Hx, Hs.
    rewrite Hs in Hx. injection Hx as ->. cbn [dims] in Hsame.
    apply Hsame. split; [exact Hs|done].
Qed.

Lemma index_ptr_holds w name d idxs ws :
  holds ws name (mkTensor d (match w with
                             | int32_t => Int32Data idxs
                             | int64_t => Int64Data idxs
                             end)) ->
  index_ptr w name ws = (Done (Ptr name 0), ws).
Proof.
  intros H. unfold index_ptr, index_data. unfold holds in H. rewrite H.
  by destruct w.
Qed.

Lemma divide_nonzero a b ws : b <> 0 -> divide a b ws = (Done (a ÷ b), ws).
Proof. intros Hb. unfold divide. apply Z.eqb_neq in Hb. by rewrite Hb. Qed.

(** [mutable_data] leaves a float tensor of the shape's size behind, and
    keeps every float tensor and every other tensor. *)
Lemma mutable_data_step junk out d ws :
  shaped ws out d ->
  exists ws' ys,
    mutable_data junk out ws = (Done (Ptr out 0), ws') /\
    float_tensor ws' out d ys /\
    (forall b, b <> out -> ws' !! b = ws !! b) /\
    (forall X t, holds ws X t -> X <> out -> holds ws' X t) /\
    (forall X d' xs, holds ws X (mkTensor d' (FloatData xs)) ->
                     holds ws' X (mkTensor d' (FloatData xs))).
Proof.
  intros (s & Hs & Hl). unfold mutable_data.
  erewrite bind_Done by by apply tensor_holds.
  cbn [storage dims].
  assert (Hnew : forall s', s <> s' ->
    let ws' := <[out := TensorBlob (mkTensor d s')]> ws in
    (forall X t, holds ws X t -> X <> out -> holds ws' X t) /\
    (forall X d' xs, (forall zs, s <> FloatData zs) ->
       holds ws X (mkTensor d' (FloatData xs)) ->
       holds ws' X (mkTensor d' (FloatData xs)))).
  { intros s' Hne. split.
    - intros X t HX HXo. unfold holds. by rewrite lookup_insert_ne.
    - intros X d' xs Hnf HX. unfold holds in *.
      rewrite lookup_insert_ne; [done|]. intros <-. rewrite Hs in HX.
      injection HX as _ Hs'. by eapply Hnf. }
  destruct s as [xs|xs|xs|].
  - exists ws, xs. split_and!; [done|split; eauto|done|done|done].
  - eexists _, _. split_and!; [done| |by intros; apply lookup_insert_ne| |].
    + split; [apply lookup_insert_eq|]. unfold size. simpl.
      by rewrite length_replicate, Nat2Z.id.
    + by apply Hnew.
    + intros X d' zs. by apply Hnew.
  - eexists _, _. split_and!; [done| |by intros; apply lookup_insert_ne| |].
    + split; [apply lookup_insert_eq|]. unfold size. simpl.
      by rewrite length_replicate, Nat2Z.id.
    + by apply Hnew.
    + intros X d' zs. by apply Hnew.
  - eexists _, _. split_and!; [done| |by intros; apply lookup_insert_ne| |].
    + split; [apply lookup_insert_eq|]. unfold size. simpl.
      by rewrite length_replicate, Nat2Z.id.
    + by apply Hnew.
    + intros X d' zs. by apply Hnew.
Qed.

(** ** The dense parameter update up to its kernel call *)

Ltac pure_step :=
  first
    [ eassumption
    | eapply InputIsType_holds; eassumption
    | eapply Input_holds; eassumption
    | eapply size_of_holds; eassumption
    | eapply data_holds; eassumption
    | eapply mutable_data_float; eassumption
    | apply CAFFE_ENFORCE_true ].

Ltac run_steps := repeat (erewrite bind_Done by pure_step).

Lemma dense_update_prepare junk op ws G Mo L Go Mo' Po dg gs dm ms dl LRv dp ps :
  dense_wiring op G Mo L Go Mo' Po ->
  float_tensor ws G dg gs ->
  float_tensor ws Mo dm ms ->
  float_tensor ws L dl [LRv] ->
  holds ws Po (mkTensor dp (FloatData ps)) ->
  numel dg = numel dm ->
  exists ws1 gs' ms',
    MomentumSGDUpdateOp.RunOnDevice junk op ws
      = dense_update_kernel op (Z.of_nat (numel dg)) G Mo L Go Mo' Po ws1 /\
    float_tensor ws1 G dg gs /\ float_tensor ws1 Mo dm ms /\
    float_tensor ws1 L dl [LRv] /\ holds ws1 Po (mkTensor dp (FloatData ps)) /\
    float_tensor ws1 Go dg gs' /\ float_tensor ws1 Mo' dm ms' /\
    (forall b, b <> Go -> b <> Mo' -> ws1 !! b = ws !! b).
Proof.
  intros [WG WMo WL WGo WMo' WPo AG AMo GMo GoMo' PoG PoMo]
         [HG LG] [HMo LMo] [HL LL] HPo Hsz.
  assert (PoGo : Po <> Go) by (destruct AG as [->|(_&_&_&?)]; congruence).
  assert (PoMo' : Po <> Mo') by (destruct AMo as [->|(_&_&_&?)]; congruence).
  (* Output(OUTPUT_GRAD)->ResizeLike(Input(GRAD)) *)
  destruct (Output_step op _ Go ws WGo) as (wa & Ea & [oa Hoa] & Fa & Ka).
  pose proof (Ka _ _ HG) as HGa. pose proof (Ka _ _ HMo) as HMoa.
  pose proof (Ka _ _ HL) as HLa. pose proof (Ka _ _ HPo) as HPoa.
  destruct (ResizeLike_step junk Go G _ oa wa HGa Hoa)
    as (wb & Eb & Sb & Fb & Kb & Ib & _).
  assert (HGb : holds wb G (mkTensor dg (FloatData gs))).
  { destruct AG as [->|(?&_)]; [by apply Ib|by apply Kb]. }
  assert (HMob : holds wb Mo (mkTensor dm (FloatData ms))).
  { apply Kb; [done|]. destruct AG as [->|(_&?&_)]; congruence. }
  assert (HLb : holds wb L (mkTensor dl (FloatData [LRv]))).
  { destruct (decide (L = Go)) as [->|?]; [|by apply Kb].
    destruct AG as [->|(_&_&?&_)]; [|done].
    unfold holds in *. rewrite HGa in HLa. injection HLa as <- <-. done. }
  assert (HPob : holds wb Po (mkTensor dp (FloatData ps))) by by apply Kb.
  (* Output(OUTPUT_MOMENTUM)->ResizeLike(Input(MOMENTUM)) *)
  destruct (Output_step op _ Mo' wb WMo') as (wc & Ec & [oc Hoc] & Fc & Kc).
  pose proof (Kc _ _ HGb) as HGc. pose proof (Kc _ _ HMob) as HMoc.
  pose proof (Kc _ _ HLb) as HLc. pose proof (Kc _ _ HPob) as HPoc.
  destruct Sb as (sb & Hsb & Lsb). pose proof (Kc _ _ Hsb) as Hsc.
  destruct (ResizeLike_step junk Mo' Mo _ oc wc HMoc Hoc)
    as (wd & Ed & Sd & Fd & Kd & Id & _).
  assert (HMod : holds wd Mo (mkTensor dm (FloatData ms))).
  { destruct AMo as [->|(_&?&_)]; [by apply Id|by apply Kd]. }
  assert (HGd : holds wd G (mkTensor dg (FloatData gs))).
  { apply Kd; [done|]. destruct AMo as [->|(?&_)]; congruence. }
  assert (HLd : holds wd L (mkTensor dl (FloatData [LRv]))).
  { destruct (decide (L = Mo')) as [->|?]; [|by apply Kd].
    destruct AMo as [->|(_&_&?&_)]; [|done].
    unfold holds in *. rewrite HMoc in HLc. injection HLc as <- <-. done. }
  assert (HPod : holds wd Po (mkTensor dp (FloatData ps))) by by apply Kd.
  assert (Hsd : holds wd Go (mkTensor dg sb)) by by apply Kd.
  (* Output(OUTPUT_GRAD)->mutable_data<T>() *)
  destruct (Output_step op _ Go wd WGo) as (we & Ee & _ & Fe & Ke).
  pose proof (Ke _ _ HGd) as HGe. pose proof (Ke _ _ HMod) as HMoe.
  pose proof (Ke _ _ HLd) as HLe. pose proof (Ke _ _ HPod) as HPoe.
  pose proof (Ke _ _ Hsd) as Hse.
  destruct Sd as (sd & Hsd' & Lsd). pose proof (Ke _ _ Hsd') as Hse'.
  destruct (mutable_data_step junk Go dg we) as (wf & gs' & Ef & Tf & Ff & Kf & Jf).
  { by exists sb. }
  pose proof (Jf _ _ _ HGe) as HGf. pose proof (Jf _ _ _ HMoe) as HMof.
  pose proof (Jf _ _ _ HLe) as HLf. pose proof (Jf _ _ _ HPoe) as HPof.
  assert (Hsf' : holds wf Mo' (mkTensor dm sd)) by (apply Kf; [done|congruence]).
  (* Output(OUTPUT_MOMENTUM)->mutable_data<T>() *)
  destruct (Output_step op _ Mo' wf WMo') as (wg & Eg & _ & Fg & Kg).
  pose proof (Kg _ _ HGf) as HGg. pose proof (Kg _ _ HMof) as HMog.
  pose proof (Kg _ _ HLf) as HLg. pose proof (Kg _ _ HPof) as HPog.
  pose proof (Kg _ _ Hsf') as Hsg'. destruct Tf as [Tf Lf].
  pose proof (Kg _ _ Tf) as Tg.
  destruct (mutable_data_step junk Mo' dm wg) as (wh & ms' & Eh & Th & Fh & Kh & Jh).
  { by exists sd. }
  pose proof (Jh _ _ _ HGg) as HGh. pose proof (Jh _ _ _ HMog) as HMoh.
  pose proof (Jh _ _ _ HLg) as HLh. pose proof (Jh _ _ _ HPog) as HPoh.
  pose proof (Jh _ _ _ Tg) as Th'.
  (* Output(OUTPUT_PARAM)->mutable_data<T>() *)
  destruct (Output_step op _ Po wh WPo) as (wi & Ei & _ & Fi & Ki).
  assert (wi = wh) as ->.
  { apply map_eq. intros b. destruct (decide (b = Po)) as [->|?]; [|by apply Fi].
    unfold holds in *. rewrite HPoh. by apply Ki. }
  exists wh, gs', ms'. split_and!; try done.
  - unfold MomentumSGDUpdateOp.RunOnDevice, dense_update_kernel,
      MomentumSGDUpdateOp.GRAD, MomentumSGDUpdateOp.MOMENTUM,
      MomentumSGDUpdateOp.LR, MomentumSGDUpdateOp.OUTPUT_GRAD,
      MomentumSGDUpdateOp.OUTPUT_MOMENTUM, MomentumSGDUpdateOp.OUTPUT_PARAM.
    run_steps.
    replace (size _ =? 1) with true
      by (unfold size; cbn [dims]; rewrite <- LL; reflexivity).
    run_steps.
    replace (size _ =? size _) with true
      by (unfold size; cbn [dims]; rewrite Hsz; symmetry; apply Z.eqb_refl).
    run_steps. reflexivity.
  - intros b HbGo HbMo'.
    rewrite Fh, Fg, Ff, Fe, Fd, Fc, Fb, Fa by done. done.
Qed.

(** ** Blobs a computation leaves alone *)

Lemma preserves_ret {A} b (a : A) : preserves b (ret a).
Proof. by intros ws. Qed.

Lemma preserves_throw {A} b e : preserves b (throw e : M A).
Proof. by intros ws. Qed.

Lemma preserves_bind {A B} b (c : M A) (k : A -> M B) :
  preserves b c ->
  (forall ws a ws', c ws = (Done a, ws') -> preserves b (k a)) ->
  preserves b (bind c k).
Proof.
  intros Hc Hk ws. unfold bind. specialize (Hc ws).
  destruct (c ws) as [[a|e] ws'] eqn:E; [|done].
  simpl in Hc. rewrite <- Hc. by eapply Hk.
Qed.

Lemma preserves_pure {A} b (c : M A) :
  (forall ws, (c ws).2 = ws) -> preserves b c.
Proof. intros H ws. by rewrite H. Qed.

Lemma preserves_load b p : preserves b (load p).
Proof. apply preserves_pure. intros ws. unfold load. by destruct (read ws p). Qed.

Lemma preserves_store b p v : blob p <> b -> preserves b (store p v).
Proof.
  intros Hb ws. unfold store. destruct (read ws p); [|done].
  by apply upd_lookup_ne.
Qed.

Lemma preserves_for_loop b body k :
  (forall i, preserves b (body i)) -> forall i0, preserves b (for_loop k i0 body).
Proof.
  intros Hbody. induction k as [|k IH]; intros i0; [apply preserves_ret|].
  apply preserves_bind; [apply Hbody|]. intros. apply IH.
Qed.

Lemma preserves_CAFFE_ENFORCE b c e : preserves b (CAFFE_ENFORCE c e).
Proof. destruct c; [apply preserves_ret|apply preserves_throw]. Qed.

Lemma preserves_InputIsType b op i : preserves b (InputIsType op i).
Proof.
  apply preserves_pure. intros ws. unfold InputIsType.
  destruct (inputs op !! i); [|done]. by destruct (ws !! _) as [[]|].
Qed.

Lemma preserves_Input b op i : preserves b (Input op i).
Proof.
  apply preserves_pure. intros ws. unfold Input.
  destruct (inputs op !! i); [|done]. by destruct (ws !! _) as [[]|].
Qed.

Lemma preserves_tensor b name : preserves b (tensor name).
Proof.
  apply preserves_pure. intros ws. unfold tensor.
  by destruct (ws !! _) as [[]|].
Qed.

Lemma preserves_size_of b name : preserves b (size_of name).
Proof.
  apply preserves_bind; [apply preserves_tensor|]. intros. apply preserves_ret.
Qed.

Lemma preserves_dim b name i : preserves b (dim name i).
Proof.
  apply preserves_bind; [apply preserves_tensor|]. intros ws t ws' _.
  destruct (dims t !! i); [apply preserves_ret|apply preserves_throw].
Qed.

Lemma preserves_data b name : preserves b (data name).
Proof.
  apply preserves_bind; [apply preserves_tensor|]. intros ws t ws' _.
  destruct (storage t); first [apply preserves_ret|apply preserves_throw].
Qed.

Lemma preserves_Output b op i : outputs op !! i <> Some b -> preserves b (Output op i).
Proof.
  intros Hb ws. unfold Output. destruct (outputs op !! i) as [name|]; [|done].
  destruct (ws !! name) as [[]|]; [done| |];
    (simpl; apply lookup_insert_ne; congruence).
Qed.

Lemma preserves_ResizeLike junk b out src : out <> b -> preserves b (ResizeLike junk out src).
Proof.
  intros Hb. unfold ResizeLike.
  apply preserves_bind; [apply preserves_tensor|]. intros _ s _ _.
  apply preserves_bind; [apply preserves_tensor|]. intros _ o _ _.
  intros ws. simpl. by apply lookup_insert_ne.
Qed.

Lemma preserves_mutable_data junk b name : name <> b -> preserves b (mutable_data junk name).
Proof.
  intros Hb. unfold mutable_data.
  apply preserves_bind; [apply preserves_tensor|]. intros _ t _ _.
  destruct (storage t); try apply preserves_ret;
    intros ws; simpl; by apply lookup_insert_ne.
Qed.

Lemma Output_returns op i ws a ws' :
  Output op i ws = (Done a, ws') -> outputs op !! i = Some a.
Proof.
  unfold Output. destruct (outputs op !! i) as [name|]; [|done].
  destruct (ws !! name) as [[]|]; congruence.
Qed.

Lemma mutable_data_returns junk name ws p ws' :
  mutable_data junk name ws = (Done p, ws') -> blob p = name.
Proof.
  unfold mutable_data, bind, tensor.
  destruct (ws !! name) as [[t|]|]; try done.
  destruct (storage t); unfold ret; intros [= <- _]; done.
Qed.

(** The kernel touches no blob but those of its two outputs and of its
    parameter row, whether it runs to the end or not. *)
Lemma preserves_momentum_sgd_update b N g m ng nm lr momentum nesterov param :
  blob ng <> b -> blob nm <> b ->
  (forall p, param = Some p -> blob p <> b) ->
  preserves b (momentum_sgd_update N g m ng nm lr momentum nesterov param).
Proof.
  intros Hng Hnm Hp. unfold momentum_sgd_update.
  apply preserves_bind; [apply preserves_load|]. intros _ LR _ _.
  apply preserves_for_loop. intros i. unfold momentum_sgd_update_body.
  apply preserves_bind.
  - destruct nesterov; cbn [negb];
      repeat (apply preserves_bind; [apply preserves_load|]; intros);
      (apply preserves_bind; [by apply preserves_store|]; intros);
      by apply preserves_store.
  - intros. destruct param as [p|]; [|apply preserves_ret].
    repeat (apply preserves_bind; [apply preserves_load|]; intros).
    apply preserves_store. rewrite ptr_add_blob. by apply Hp.
Qed.

Ltac preserves_step :=
  first
    [ apply preserves_ret
    | apply preserves_CAFFE_ENFORCE
    | apply preserves_InputIsType
    | apply preserves_Input
    | apply preserves_size_of
    | apply preserves_dim
    | apply preserves_data ].

Lemma preserves_MomentumSGDOp junk op b :
  outputs op !! MomentumSGDOp.OUTPUT_GRAD <> Some b ->
  outputs op !! MomentumSGDOp.OUTPUT_MOMENTUM <> Some b ->
  preserves b (MomentumSGDOp.RunOnDevice junk op).
Proof.
  intros HG HM. unfold MomentumSGDOp.RunOnDevice.
  repeat (apply preserves_bind; [preserves_step|]; intros).
  apply preserves_bind; [by apply preserves_Output|]. intros ? out_g ? E1.
  apply Output_returns in E1.
  repeat (apply preserves_bind; [preserves_step|]; intros).
  apply preserves_bind; [apply preserves_ResizeLike; congruence|]. intros.
  apply preserves_bind; [by apply preserves_Output|]. intros ? out_m ? E2.
  apply Output_returns in E2.
  repeat (apply preserves_bind; [preserves_step|]; intros).
  apply preserves_bind; [apply preserves_ResizeLike; congruence|]. intros.
  repeat (apply preserves_bind; [preserves_step|]; intros).
  apply preserves_bind; [by apply preserves_Output|]. intros ? out_g' ? E3.
  apply Output_returns in E3.
  apply preserves_bind; [apply preserves_mutable_data; congruence|].
  intros ? ng ? E4. apply mutable_data_returns in E4.
  apply preserves_bind; [by apply preserves_Output|]. intros ? out_m' ? E5.
  apply Output_returns in E5.
  apply preserves_bind; [apply preserves_mutable_data; congruence|].
  intros ? nm ? E6. apply mutable_data_returns in E6.
  repeat (apply preserves_bind; [preserves_step|]; intros).
  apply preserves_bind; [|intros; apply preserves_ret].
  apply preserves_momentum_sgd_update; [congruence|congruence|done].
Qed.

(** C9. A call of the gradient-only operator, successful or not, changes no
    blob other than its gradient output and its momentum output: every other
    blob of the workspace, any parameter buffer among them, is after the
    call what it was before. *)
Theorem dense_gradient_frame junk op ws ws' b :
  MomentumSGDOp.RunOnDevice junk op ws = (Done true, ws') ->
  outputs op !! MomentumSGDOp.OUTPUT_GRAD <> Some b ->
  outputs op !! MomentumSGDOp.OUTPUT_MOMENTUM <> Some b ->
  ws' !! b = ws !! b.
Proof.
  intros Hrun HG HM.
  pose proof (preserves_MomentumSGDOp junk op b HG HM ws) as H.
  by rewrite Hrun in H.
Qed.

Lemma dense_gradient_frame_witness :
  (MomentumSGDOp.RunOnDevice F32.zero (Example.op_grad false) Example.ws0).2
    !! "param" = Example.ws0 !! "param".
Proof.
  apply (dense_gradient_frame F32.zero (Example.op_grad false) Example.ws0).
  - vm_compute; reflexivity.
  - discriminate.
  - discriminate.
Defined.

(** ** Shape validation *)

Lemma dense_gradient_rejects junk op ws G Mo L tg tm tl :
  inputs op !! 0%nat = Some G -> inputs op !! 1%nat = Some Mo ->
  inputs op !! 2%nat = Some L ->
  holds ws G tg -> holds ws Mo tm -> holds ws L tl ->
  size tl <> 1 \/ size tg <> size tm ->
  MomentumSGDOp.RunOnDevice junk op ws = (Fail ShapeMismatch, ws).
Proof.
  intros WG WMo WL HG HMo HL Hbad.
  unfold MomentumSGDOp.RunOnDevice, MomentumSGDOp.GRAD, MomentumSGDOp.MOMENTUM,
    MomentumSGDOp.LR.
  run_steps.
  destruct (Z.eqb_spec (size tl) 1) as [E1|E1].
  - run_steps. destruct Hbad as [?|Hbad]; [done|].
    apply Z.eqb_neq in Hbad. rewrite Hbad. by erewrite bind_Fail.
  - by erewrite bind_Fail.
Qed.

Lemma dense_parameter_rejects junk op ws G Mo L tg tm tl :
  inputs op !! 0%nat = Some G -> inputs op !! 1%nat = Some Mo ->
  inputs op !! 2%nat = Some L ->
  holds ws G tg -> holds ws Mo tm -> holds ws L tl ->
  size tl <> 1 \/ size tg <> size tm ->
  MomentumSGDUpdateOp.RunOnDevice junk op ws = (Fail ShapeMismatch, ws).
Proof.
  intros WG WMo WL HG HMo HL Hbad.
  unfold MomentumSGDUpdateOp.RunOnDevice, MomentumSGDUpdateOp.GRAD,
    MomentumSGDUpdateOp.MOMENTUM, MomentumSGDUpdateOp.LR.
  run_steps.
  destruct (Z.eqb_spec (size tl) 1) as [E1|E1].
  - run_steps. destruct Hbad as [?|Hbad]; [done|].
    apply Z.eqb_neq in Hbad. rewrite Hbad. by erewrite bind_Fail.
  - by erewrite bind_Fail.
Qed.

Lemma sparse_rejects junk op ws G Mo L P I tg tm tl tp ti :
  inputs op !! 0%nat = Some G -> inputs op !! 1%nat = Some Mo ->
  inputs op !! 2%nat = Some L -> inputs op !! 3%nat = Some P ->
  inputs op !! 4%nat = Some I ->
  holds ws G tg -> holds ws Mo tm -> holds ws L tl -> holds ws P tp ->
  holds ws I ti -> index_tensor ti ->
  (size tl <> 1 \/ size tp <> size tm \/
   exists n, dims tg !! 0%nat = Some n /\ size ti <> Z.of_nat n) ->
  SparseMomentumSGDUpdateOp.RunOnDevice junk op ws = (Fail ShapeMismatch, ws).
Proof.
  intros WG WMo WL WP WI HG HMo HL HP HI Hidx Hbad.
  assert (forall w, SparseMomentumSGDUpdateOp.DoRunWithType w junk op ws
                    = (Fail ShapeMismatch, ws)) as Hrun.
  { intros w.
    unfold SparseMomentumSGDUpdateOp.DoRunWithType,
      SparseMomentumSGDUpdateOp.GRAD, SparseMomentumSGDUpdateOp.MOMENTUM,
      SparseMomentumSGDUpdateOp.LR, SparseMomentumSGDUpdateOp.PARAM,
      SparseMomentumSGDUpdateOp.INDICES.
    run_steps.
    destruct (Z.eqb_spec (size tl) 1) as [E1|E1]; [|by erewrite bind_Fail].
    run_steps.
    destruct (Z.eqb_spec (size tp) (size tm)) as [E2|E2]; [|by erewrite bind_Fail].
    run_steps.
    destruct Hbad as [?|[?|(n & Hn & Hne)]]; [done|done|].
    erewrite bind_Done by (by eapply dim_holds).
    apply Z.eqb_neq in Hne. rewrite Hne. by erewrite bind_Fail. }
  unfold SparseMomentumSGDUpdateOp.RunOnDevice, SparseMomentumSGDUpdateOp.INDICES.
  erewrite bind_Done by (by eapply Input_holds).
  erewrite bind_Done by (by eapply tensor_holds).
  unfold index_tensor in Hidx. destruct (storage ti); done.
Qed.

(** C6. A call of any of the three variants whose inputs break one of the
    length relations the variant states (learning-rate buffer not of length
    1; dense: gradient and momentum lengths differ; sparse: parameter and
    momentum lengths differ, or the index list is not as long as the gradient
    has rows) fails with [ShapeMismatch], and the workspace after the failed
    call is the workspace before it: nothing was resized, allocated or
    written. *)
Theorem shape_validation v junk op ws :
  shape_violation v op ws ->
  run v junk op ws = (Fail ShapeMismatch, ws).
Proof.
  intros (G & Mo & L & tg & tm & tl & WG & WMo & WL & HG & HMo & HL & Hbad).
  destruct v; simpl.
  - by eapply dense_gradient_rejects.
  - by eapply dense_parameter_rejects.
  - destruct Hbad as (P & I & tp & ti & WP & WI & HP & HI & Hidx & Hbad).
    by eapply sparse_rejects.
Qed.

Lemma shape_validation_witness :
  run DenseGradientUpdate F32.zero (Example.op_grad false) Example.ws_bad
    = (Fail ShapeMismatch, Example.ws_bad).
Proof.
  apply (shape_validation DenseGradientUpdate F32.zero (Example.op_grad false)
           Example.ws_bad).
  exists "grad", "mom", "lr".
  eexists _, _, _. split_and!; try reflexivity.
  right. vm_compute. discriminate.
Defined.

(** ** The dense parameter update, end to end *)

Lemma to_int_small z : 0 <= z < 2 ^ 31 -> to_int z = z.
Proof.
  intros Hz. unfold to_int.
  rewrite Z.mod_small by lia. lia.
Qed.

Lemma read_float_data ws name xs i :
  float_data ws name = Some xs -> read ws (Ptr name (Z.of_nat i)) = xs !! i.
Proof.
  intros H. unfold read. cbn [blob off]. rewrite H.
  destruct (Z.leb_spec 0 (Z.of_nat i)); [|lia]. by rewrite Nat2Z.id.
Qed.

Lemma holds_float_data ws name d xs :
  holds ws name (mkTensor d (FloatData xs)) -> float_data ws name = Some xs.
Proof. intros H. unfold float_data. by rewrite H. Qed.

Lemma read_holds ws name d xs i :
  holds ws name (mkTensor d (FloatData xs)) ->
  read ws (Ptr name 0 +p Z.of_nat i) = xs !! i.
Proof. intros H. eapply read_float_data, holds_float_data, H. Qed.

Lemma read_ptr_is_Some ws name d xs i :
  holds ws name (mkTensor d (FloatData xs)) ->
  0 <= i < Z.of_nat (length xs) ->
  is_Some (read ws (Ptr name 0 +p i)).
Proof.
  intros H Hi. replace i with (Z.of_nat (Z.to_nat i)) by lia.
  erewrite read_holds by done. apply lookup_lt_is_Some_2. lia.
Qed.

Lemma read_ptr_None ws name d xs i :
  holds ws name (mkTensor d (FloatData xs)) ->
  Z.of_nat (length xs) <= i ->
  read ws (Ptr name 0 +p i) = None.
Proof.
  intros H Hi. replace i with (Z.of_nat (Z.to_nat i)) by lia.
  erewrite read_holds by done. apply lookup_ge_None_2. lia.
Qed.

Lemma dense_layout op G Mo L Go Mo' Po :
  dense_wiring op G Mo L Go Mo' Po ->
  layout (Ptr G 0) (Ptr Mo 0) (Ptr Go 0) (Ptr Mo' 0) (Some (Ptr Po 0)).
Proof.
  intros [_ _ _ _ _ _ AG AMo GMo GoMo' PoG PoMo].
  constructor; cbn [blob].
  - destruct AG as [->|(?&_)]; [by left|by right].
  - destruct AMo as [->|(_&?&_)]; [by left|by right].
  - destruct AMo as [->|(?&_)]; congruence.
  - destruct AG as [->|(_&?&_)]; congruence.
  - congruence.
  - intros p [= <-]. cbn [blob]. split_and!; [done|done| |].
    + destruct AG as [->|(_&_&_&?)]; congruence.
    + destruct AMo as [->|(_&_&_&?)]; congruence.
Qed.

Lemma for_loop_app a b i0 body ws :
  for_loop (a + b) i0 body ws =
  (do for_loop a i0 body then for_loop b (i0 + Z.of_nat a) body) ws.
Proof.
  revert i0 ws. induction a as [|a IH]; intros i0 ws.
  - cbn [for_loop Nat.add]. unfold bind, ret. f_equal. lia.
  - cbn [for_loop Nat.add]. unfold bind at 1 2 3.
    destruct (body i0 ws) as [[[]|e] ws1]; [|done].
    rewrite IH. unfold bind. replace (i0 + 1 + Z.of_nat a) with (i0 + Z.of_nat (S a)) by lia.
    done.
Qed.

(** An iteration whose parameter element lies outside the storage stops at
    that access, after the momentum and gradient outputs were written. *)
Lemma body_Fail_param LR g m ng nm momentum nesterov p i ws gi mi :
  layout g m ng nm (Some p) ->
  read ws (g +p i) = Some gi ->
  read ws (m +p i) = Some mi ->
  is_Some (read ws (ng +p i)) ->
  is_Some (read ws (nm +p i)) ->
  read ws (p +p i) = None ->
  momentum_sgd_update_body LR g m ng nm momentum nesterov (Some p) i ws =
    (Fail (OutOfBounds (p +p i)),
     upd (upd ws (nm +p i) (nm_of LR momentum nesterov gi mi))
         (ng +p i) (ng_of LR momentum nesterov gi mi)).
Proof.
  intros Hlay Hg Hm Hng Hnm Hp.
  pose proof (body_Done LR momentum nesterov g m ng nm None) as Hnone.
  unfold momentum_sgd_update_body in *.
  destruct Hlay as [Hngg Hnmm Hnmg Hngm Hnmng Hpar].
  destruct (Hpar p eq_refl) as (Hpg & Hpm & Hpng & Hpnm).
  specialize (Hnone ltac:(by constructor) ws i gi mi Hg Hm Hng Hnm ltac:(done)).
  unfold after_body in Hnone.
  set (ws2 := upd (upd ws _ _) _ _) in *.
  unfold bind in Hnone |- *.
  destruct (if negb nesterov then _ else _) as [[[]|e] ws'] eqn:E.
  - unfold ret in Hnone. injection Hnone as ->.
    unfold load. replace (read ws2 (p +p i)) with (@None float); [done|].
    unfold ws2. rewrite !read_upd_ne by ptr_neq. done.
  - discriminate.
Qed.

Section DenseUpdate.
Variables (junk : float) (op : Operator) (ws : Workspace).
Variables (G Mo L Go Mo' Po : string).
Variables (dg dm dl dp : list nat) (gs ms ps : list float) (LRv : float).
Hypothesis Hwire : dense_wiring op G Mo L Go Mo' Po.
Hypothesis HG : float_tensor ws G dg gs.
Hypothesis HMo : float_tensor ws Mo dm ms.
Hypothesis HL : float_tensor ws L dl [LRv].
Hypothesis HPo : holds ws Po (mkTensor dp (FloatData ps)).
Hypothesis Hsize : numel dg = numel dm.
Hypothesis Hint : Z.of_nat (numel dg) < 2 ^ 31.

Local Abbreviation nmv := (nm_of LRv (momentum_ op) (nesterov_ op)).
Local Abbreviation ngv := (ng_of LRv (momentum_ op) (nesterov_ op)).

(** With a parameter output of at least [N] elements the call succeeds. *)
Lemma dense_update_run :
  (numel dg <= length ps)%nat ->
  exists ws',
    MomentumSGDUpdateOp.RunOnDevice junk op ws = (Done true, ws') /\
    (forall i gi mi, gs !! i = Some gi -> ms !! i = Some mi ->
       read ws' (Ptr Mo' (Z.of_nat i)) = Some (nmv gi mi) /\
       read ws' (Ptr Go (Z.of_nat i)) = Some (ngv gi mi) /\
       forall pi, ps !! i = Some pi ->
         read ws' (Ptr Po (Z.of_nat i)) = Some (pi - ngv gi mi)%f32) /\
    (forall i, (numel dg <= i)%nat -> read ws' (Ptr Po (Z.of_nat i)) = ps !! i) /\
    (forall b, b <> Go -> b <> Mo' -> b <> Po -> ws' !! b = ws !! b).
Proof using All.
  intros Hlen.
  destruct (dense_update_prepare junk op ws G Mo L Go Mo' Po dg gs dm ms dl LRv dp ps
              Hwire HG HMo HL HPo Hsize)
    as (ws1 & gs' & ms' & Hrun & [HG1 LG] & [HMo1 LMo] & [HL1 LL] & HPo1
        & [HGo1 LGo] & [HMo'1 LMo'] & Hframe1).
  pose proof (dense_layout _ _ _ _ _ _ _ Hwire) as Hlay.
  set (N := Z.of_nat (numel dg)) in *.
  destruct (momentum_sgd_update_spec ws1 (to_int N) (Ptr G 0) (Ptr Mo 0) (Ptr Go 0)
              (Ptr Mo' 0) (Ptr L 0) (momentum_ op) (nesterov_ op)
              (Some (Ptr Po 0)) LRv Hlay)
    as (ws' & Hk & Hval & Hfr & _).
  { exact (read_holds ws1 L dl [LRv] 0 HL1). }
  { rewrite to_int_small by lia. intros i Hi.
    split_and!; try (eapply read_ptr_is_Some; [eassumption|lia]).
    intros p [= <-]. eapply read_ptr_is_Some; [eassumption|lia]. }
  rewrite to_int_small in Hk, Hval, Hfr by lia.
  exists ws'. split_and!.
  - rewrite Hrun. unfold dense_update_kernel.
    rewrite to_int_small by lia. by erewrite bind_Done by exact Hk.
  - intros i gi mi Hgi Hmi.
    assert (i < numel dg)%nat by (rewrite <- LG; by eapply lookup_lt_Some).
    destruct (Hval (Z.of_nat i) gi mi) as (Hnm & Hng & Hp); [lia| | |].
    { by erewrite read_holds by done. }
    { by erewrite read_holds by done. }
    split_and!; [done|done|].
    intros pi Hpi. apply (Hp (Ptr Po 0)); [done|]. by erewrite read_holds by done.
  - intros i Hi. rewrite <- (read_holds ws1 Po dp ps i HPo1).
    apply Hfr. intros j Hj. destruct Hlay as [_ _ _ _ _ Hpar].
    destruct (Hpar _ eq_refl) as (_ & _ & ? & ?).
    split_and!; [ptr_neq|ptr_neq|]. intros p [= <-]. ptr_neq.
  - intros b HbGo HbMo' HbPo.
    rewrite <- Hframe1 by done.
    pose proof (preserves_momentum_sgd_update b N (Ptr G 0) (Ptr Mo 0) (Ptr Go 0)
                  (Ptr Mo' 0) (Ptr L 0) (momentum_ op) (nesterov_ op)
                  (Some (Ptr Po 0))) as Hpres.
    specialize (Hpres ltac:(cbn; congruence) ltac:(cbn; congruence)).
    specialize (Hpres ltac:(intros p [= <-]; cbn; congruence) ws1).
    by rewrite Hk in Hpres.
Qed.

(** With a shorter parameter output the kernel runs off its end: the call
    stops at the first element past the storage, after the elements before
    it were updated. *)
Lemma dense_update_overrun :
  (length ps < numel dg)%nat ->
  exists ws',
    MomentumSGDUpdateOp.RunOnDevice junk op ws
      = (Fail (OutOfBounds (Ptr Po (Z.of_nat (length ps)))), ws') /\
    (forall i gi mi pi, gs !! i = Some gi -> ms !! i = Some mi -> ps !! i = Some pi ->
       read ws' (Ptr Po (Z.of_nat i)) = Some (pi - ngv gi mi)%f32).
Proof using All.
  intros Hlen.
  destruct (dense_update_prepare junk op ws G Mo L Go Mo' Po dg gs dm ms dl LRv dp ps
              Hwire HG HMo HL HPo Hsize)
    as (ws1 & gs' & ms' & Hrun & [HG1 LG] & [HMo1 LMo] & [HL1 LL] & HPo1
        & [HGo1 LGo] & [HMo'1 LMo'] & Hframe1).
  pose proof (dense_layout _ _ _ _ _ _ _ Hwire) as Hlay.
  set (N := Z.of_nat (numel dg)) in *.
  set (k := length ps) in *.
  set (body := momentum_sgd_update_body LRv (Ptr G 0) (Ptr Mo 0) (Ptr Go 0)
                 (Ptr Mo' 0) (momentum_ op) (nesterov_ op) (Some (Ptr Po 0))).
  (* the first [k] iterations stay inside the parameter storage *)
  destruct (for_loop_spec LRv (momentum_ op) (nesterov_ op) (Ptr G 0) (Ptr Mo 0)
              (Ptr Go 0) (Ptr Mo' 0) (Some (Ptr Po 0)) Hlay k 0 ws1)
    as (ws2 & Hk & Hval & Hfr & Hsome).
  { intros i Hi.
    split_and!; try (eapply read_ptr_is_Some; [eassumption|lia]).
    intros p [= <-]. eapply read_ptr_is_Some; [eassumption|]. fold k. lia. }
  (* iteration [k] does not *)
  assert (Hin : forall name d xs, holds ws1 name (mkTensor d (FloatData xs)) ->
            (k < length xs)%nat ->
            exists v, xs !! k = Some v /\ read ws1 (Ptr name 0 +p Z.of_nat k) = Some v).
  { intros name d xs Hh Hl. destruct (lookup_lt_is_Some_2 xs k Hl) as [v Hv].
    exists v. split; [done|]. by erewrite read_holds by done. }
  destruct (Hin G dg gs HG1 ltac:(lia)) as (gk & Hgk & Rgk).
  destruct (Hin Mo dm ms HMo1 ltac:(lia)) as (mk & Hmk & Rmk).
  destruct Hlay as [Hngg Hnmm Hnmg Hngm Hnmng Hpar].
  destruct (Hpar _ eq_refl) as (Hpg & Hpm & Hpng & Hpnm). cbn [blob] in *.
  assert (Hlay : layout (Ptr G 0) (Ptr Mo 0) (Ptr Go 0) (Ptr Mo' 0) (Some (Ptr Po 0)))
    by by constructor.
  assert (Rg2 : read ws2 (Ptr G 0 +p Z.of_nat k) = Some gk).
  { rewrite Hfr; [done|]. intros j Hj. split_and!.
    - ptr_neq.
    - destruct Hngg as [E|?]; [injection E as ->|]; ptr_neq.
    - intros p [= <-]. ptr_neq. }
  assert (Rm2 : read ws2 (Ptr Mo 0 +p Z.of_nat k) = Some mk).
  { rewrite Hfr; [done|]. intros j Hj. split_and!.
    - destruct Hnmm as [E|?]; [injection E as ->|]; ptr_neq.
    - ptr_neq.
    - intros p [= <-]. ptr_neq. }
  pose proof (body_Fail_param LRv (Ptr G 0) (Ptr Mo 0) (Ptr Go 0) (Ptr Mo' 0)
                (momentum_ op) (nesterov_ op) (Ptr Po 0) (Z.of_nat k) ws2 gk mk
                Hlay Rg2 Rm2) as Hfail.
  assert (H1 : is_Some (read ws2 (Ptr Go 0 +p Z.of_nat k))).
  { apply Hsome. eapply read_ptr_is_Some; [eassumption|lia]. }
  assert (H2 : is_Some (read ws2 (Ptr Mo' 0 +p Z.of_nat k))).
  { apply Hsome. eapply read_ptr_is_Some; [eassumption|lia]. }
  assert (H3 : read ws2 (Ptr Po 0 +p Z.of_nat k) = None).
  { destruct (read ws2 (Ptr Po 0 +p Z.of_nat k)) eqn:E; [|done].
    assert (is_Some (read ws1 (Ptr Po 0 +p Z.of_nat k))) as [v Hv]
      by (apply Hsome; eauto).
    erewrite read_ptr_None in Hv; [done|eassumption|]. fold k. lia. }
  specialize (Hfail H1 H2 H3).
  eexists. split.
  - rewrite Hrun. unfold dense_update_kernel.
    rewrite to_int_small by lia.
    unfold momentum_sgd_update.
    erewrite bind_Fail; [reflexivity|].
    erewrite bind_Done
      by (apply load_Some; exact (read_holds ws1 L dl [LRv] 0 HL1)).
    unfold for_range. replace (Z.to_nat N) with (k + S (numel dg - k - 1))%nat by lia.
    rewrite for_loop_app. erewrite bind_Done by exact Hk.
    cbn [for_loop]. erewrite bind_Fail; [reflexivity|].
    rewrite Z.add_0_l. exact Hfail.
  - intros i gi mi pi Hgi Hmi Hpi.
    assert (i < k)%nat by by eapply lookup_lt_Some.
    rewrite !read_upd_ne by ptr_neq.
    destruct (Hval (Z.of_nat i) gi mi) as (_ & _ & Hp); [lia| | |].
    { by erewrite read_holds by done. }
    { by erewrite read_holds by done. }
    apply (Hp (Ptr Po 0)); [done|]. by erewrite read_holds by done.
Qed.

End DenseUpdate.

Ltac solve_wiring :=
  constructor;
  first [ reflexivity | discriminate | by left
        | right; repeat split; discriminate ].

(** C4, as stated, fails: with the parameter input [1,1,1] and a separate
    parameter output holding [5,5,5], the successful call leaves [5 - ng] in
    the output, not [1 - ng]. *)
Lemma output_is_input_minus_step_fails :
  "param" <> "param_out" /\
  ~ output_is_input_minus_step F32.zero (Example.op_out false) Example.ws_out
      "param" "grad_out" "param_out" 3.
Proof.
  split; [discriminate|]. intros H.
  set (r := MomentumSGDUpdateOp.RunOnDevice F32.zero (Example.op_out false)
              Example.ws_out).
  assert (Hr : r = (Done true, r.2)) by (vm_compute; reflexivity).
  assert (H0 : 0 <= 0 < 3) by lia.
  assert (H1 : read Example.ws_out (Ptr "param" 0) = Some Example.c1)
    by (vm_compute; reflexivity).
  assert (H2 : read r.2 (Ptr "grad_out" 0) = Some Example.c0_1)
    by (vm_compute; reflexivity).
  pose proof (H r.2 Hr 0 Example.c1 Example.c0_1 H0 H1 H2) as H3.
  vm_compute in H3. discriminate.
Qed.

(** C4, amended. After a successful call of the dense parameter update, the
    output parameter buffer holds, for each of the [N] elements, its own
    value before the call minus the computed step [ng]; the parameter input
    is not read, and every blob other than the three outputs, the parameter
    input among them when it is a blob of its own, is left as it was. *)
Theorem dense_parameter_output junk op ws G Mo L Go Mo' Po dg dm dl dp gs ms ps LRv :
  dense_wiring op G Mo L Go Mo' Po ->
  float_tensor ws G dg gs ->
  float_tensor ws Mo dm ms ->
  float_tensor ws L dl [LRv] ->
  holds ws Po (mkTensor dp (FloatData ps)) ->
  numel dg = numel dm ->
  Z.of_nat (numel dg) < 2 ^ 31 ->
  (numel dg <= length ps)%nat ->
  exists ws',
    MomentumSGDUpdateOp.RunOnDevice junk op ws = (Done true, ws') /\
    (forall i, (i < numel dg)%nat ->
       exists pi ngi,
         ps !! i = Some pi /\
         read ws' (Ptr Go (Z.of_nat i)) = Some ngi /\
         read ws' (Ptr Po (Z.of_nat i)) = Some (pi - ngi)%f32) /\
    (forall b, b <> Go -> b <> Mo' -> b <> Po -> ws' !! b = ws !! b).
Proof.
  intros Hwire HG HMo HL HPo Hsize Hint Hlen.
  destruct (dense_update_run junk op ws G Mo L Go Mo' Po dg dm dl dp gs ms ps LRv
              Hwire HG HMo HL HPo Hsize Hint Hlen)
    as (ws' & Hrun & Hval & _ & Hframe).
  exists ws'. split_and!; [done| |done].
  intros i Hi. destruct HG as [_ LG], HMo as [_ LMo].
  destruct (lookup_lt_is_Some_2 gs i ltac:(lia)) as [gi Hgi].
  destruct (lookup_lt_is_Some_2 ms i ltac:(lia)) as [mi Hmi].
  destruct (lookup_lt_is_Some_2 ps i ltac:(lia)) as [pi Hpi].
  destruct (Hval i gi mi Hgi Hmi) as (_ & Hng & Hp).
  exists pi, (ng_of LRv (momentum_ op) (nesterov_ op) gi mi). eauto.
Qed.

Lemma dense_parameter_output_witness :
  exists ws',
    MomentumSGDUpdateOp.RunOnDevice F32.zero (Example.op_out false) Example.ws_out
      = (Done true, ws') /\
    (forall i, (i < 3)%nat ->
       exists pi ngi,
         [Example.c5; Example.c5; Example.c5] !! i = Some pi /\
         read ws' (Ptr "grad_out" (Z.of_nat i)) = Some ngi /\
         read ws' (Ptr "param_out" (Z.of_nat i)) = Some (pi - ngi)%f32) /\
    (forall b, b <> "grad_out" -> b <> "mom_out" -> b <> "param_out" ->
               ws' !! b = Example.ws_out !! b).
Proof.
  apply (dense_parameter_output F32.zero (Example.op_out false) Example.ws_out
           "grad" "mom" "lr" "grad_out" "mom_out" "param_out"
           [3%nat] [3%nat] [1%nat] [3%nat]
           [Example.c1; Example.c2; Example.c3]
           [F32.zero; F32.zero; F32.zero]
           [Example.c5; Example.c5; Example.c5] Example.c0_1).
  - solve_wiring.
  - split; reflexivity.
  - split; reflexivity.
  - split; reflexivity.
  - reflexivity.
  - reflexivity.
  - reflexivity.
  - simpl; lia.
Defined.

(** C10. The dense parameter update never checks the length of the parameter
    buffer.  With inputs that pass its two checks and a parameter output
    whose length differs from [N], the call does not fail with
    [ShapeMismatch]: the kernel is run over [N] elements of the parameter
    buffer all the same.  Over a longer buffer it writes exactly the first
    [N] elements and the call succeeds; over a shorter one it updates every
    element the buffer has and then accesses the element past its end. *)
Theorem dense_update_param_length_unchecked
    junk op ws G Mo L Go Mo' Po dg dm dl dp gs ms ps LRv :
  dense_wiring op G Mo L Go Mo' Po ->
  float_tensor ws G dg gs ->
  float_tensor ws Mo dm ms ->
  float_tensor ws L dl [LRv] ->
  holds ws Po (mkTensor dp (FloatData ps)) ->
  numel dg = numel dm ->
  Z.of_nat (numel dg) < 2 ^ 31 ->
  length ps <> numel dg ->
  let r := MomentumSGDUpdateOp.RunOnDevice junk op ws in
  r.1 <> Fail ShapeMismatch /\
  (forall i gi mi pi, (i < numel dg)%nat ->
     gs !! i = Some gi -> ms !! i = Some mi -> ps !! i = Some pi ->
     read r.2 (Ptr Po (Z.of_nat i))
       = Some (pi - ng_of LRv (momentum_ op) (nesterov_ op) gi mi)%f32) /\
  ((numel dg < length ps)%nat ->
     r.1 = Done true /\
     forall i, (numel dg <= i)%nat -> read r.2 (Ptr Po (Z.of_nat i)) = ps !! i) /\
  ((length ps < numel dg)%nat ->
     r.1 = Fail (OutOfBounds (Ptr Po (Z.of_nat (length ps))))).
Proof.
  intros Hwire HG HMo HL HPo Hsize Hint Hlen r.
  destruct (Nat.lt_ge_cases (length ps) (numel dg)) as [Hlt|Hge].
  - destruct (dense_update_overrun junk op ws G Mo L Go Mo' Po dg dm dl dp gs ms ps
                LRv Hwire HG HMo HL HPo Hsize Hint Hlt) as (ws' & Hrun & Hval).
    subst r. rewrite Hrun. cbn [fst snd]. split_and!; [done| |lia|done].
    intros i gi mi pi _. apply Hval.
  - destruct (dense_update_run junk op ws G Mo L Go Mo' Po dg dm dl dp gs ms ps
                LRv Hwire HG HMo HL HPo Hsize Hint Hge)
      as (ws' & Hrun & Hval & Hrest & _).
    subst r. rewrite Hrun. cbn [fst snd]. split_and!; [done| |done|lia].
    intros i gi mi pi _ Hgi Hmi Hpi. by apply Hval.
Qed.

Lemma dense_update_param_length_unchecked_witness :
  let r := MomentumSGDUpdateOp.RunOnDevice F32.zero (Example.op_out false)
             Example.ws_short in
  r.1 <> Fail ShapeMismatch /\
  (forall i gi mi pi, (i < 3)%nat ->
     [Example.c1; Example.c2; Example.c3] !! i = Some gi ->
     [F32.zero; F32.zero; F32.zero] !! i = Some mi ->
     [Example.c5; Example.c5] !! i = Some pi ->
     read r.2 (Ptr "param_out" (Z.of_nat i))
       = Some (pi - ng_of Example.c0_1 Example.c0_9 false gi mi)%f32) /\
  ((3 < 2)%nat ->
     r.1 = Done true /\
     forall i, (3 <= i)%nat ->
       read r.2 (Ptr "param_out" (Z.of_nat i)) = [Example.c5; Example.c5] !! i) /\
  ((2 < 3)%nat -> r.1 = Fail (OutOfBounds (Ptr "param_out" 2))).
Proof.
  apply (dense_update_param_length_unchecked F32.zero (Example.op_out false)
           Example.ws_short
           "grad" "mom" "lr" "grad_out" "mom_out" "param_out"
           [3%nat] [3%nat] [1%nat] [2%nat]
           [Example.c1; Example.c2; Example.c3]
           [F32.zero; F32.zero; F32.zero]
           [Example.c5; Example.c5] Example.c0_1).
  - solve_wiring.
  - split; reflexivity.
  - split; reflexivity.
  - split; reflexivity.
  - reflexivity.
  - reflexivity.
  - reflexivity.
  - simpl; lia.
Defined.

(** ** The sparse update up to its row loop *)

Lemma quot_rows n bs : n <> 0%nat -> Z.of_nat (n * bs) ÷ Z.of_nat n = Z.of_nat bs.
Proof.
  intros Hn. rewrite Nat2Z.inj_mul, Z.mul_comm. apply Z.quot_mul. lia.
Qed.

Section SparsePrepare.
Variables (junk : float) (op : Operator) (w : SIndex) (ws : Workspace).
Variables (G Mo L P I Go Mo' Po : string).
Variables (n : nat) (dr dm dl dp di : list nat).
Variables (gs ms ps : list float) (LRv : float) (idxs : list Z).
Hypothesis Hwire : sparse_wiring op G Mo L P I Go Mo' Po.
Hypothesis HG : float_tensor ws G (n :: dr) gs.
Hypothesis HMo : float_tensor ws Mo dm ms.
Hypothesis HL : float_tensor ws L dl [LRv].
Hypothesis HP : float_tensor ws P dp ps.
Hypothesis HI : holds ws I (mkTensor di (index_storage w idxs)).
Hypothesis Hpm : numel dp = numel dm.
Hypothesis Hin : numel di = n.
Hypothesis Hn : n <> 0%nat.

(** The input tensors, as the steps of the operator find them. *)
Local Definition inputs_intact (ws' : Workspace) : Prop :=
  holds ws' G (mkTensor (n :: dr) (FloatData gs)) /\
  holds ws' Mo (mkTensor dm (FloatData ms)) /\
  holds ws' L (mkTensor dl (FloatData [LRv])) /\
  holds ws' P (mkTensor dp (FloatData ps)) /\
  holds ws' I (mkTensor di (index_storage w idxs)).

Lemma sparse_prepare :
  exists ws1 gs' ms' ps',
    SparseMomentumSGDUpdateOp.RunOnDevice junk op ws
      = sparse_rows w op (Z.of_nat n) (Z.of_nat (numel dr)) G Mo L I Go Mo' Po ws1 /\
    inputs_intact ws1 /\
    float_tensor ws1 Go (n :: dr) gs' /\
    float_tensor ws1 Mo' dm ms' /\
    float_tensor ws1 Po dp ps' /\
    (forall xs, float_tensor ws Po dp xs -> ps' = xs) /\
    (forall b, b <> Go -> b <> Mo' -> b <> Po -> ws1 !! b = ws !! b).
Proof using All.
  destruct Hwire as [WG WMo WL WP WI WGo WMo' WPo AG AMo AP
                       (GMo & GP & MoP & LG & LMo & LP & IG & IMo & IP)
                       (GoMo' & GoPo & Mo'Po)].
  destruct HG as [HG0 LenG], HMo as [HMo0 LenMo], HL as [HL0 LenL],
           HP as [HP0 LenP].
  assert (F0 : inputs_intact ws) by done.
  assert (Q0 : forall xs, float_tensor ws Po dp xs ->
                 holds ws Po (mkTensor dp (FloatData xs))) by by intros ? [].
  (* every output is apart from every input it is not *)
  assert (NGo : Go <> Mo /\ Go <> L /\ Go <> P /\ Go <> I)
    by (destruct AG as [->|(?&?&?&?&?)]; split_and!; congruence).
  assert (NMo' : Mo' <> G /\ Mo' <> L /\ Mo' <> P /\ Mo' <> I)
    by (destruct AMo as [->|(?&?&?&?&?)]; split_and!; congruence).
  assert (NPo : Po <> G /\ Po <> Mo /\ Po <> L /\ Po <> I)
    by (destruct AP as [->|(?&?&?&?&?)]; split_and!; congruence).
  destruct NGo as (GoMo & GoL & GoP & GoI), NMo' as (Mo'G & Mo'L & Mo'P & Mo'I),
           NPo as (PoG & PoMo & PoL & PoI).
  (* Output(OUTPUT_GRAD)->ResizeLike(Input(GRAD)) *)
  destruct (Output_step op _ Go ws WGo) as (wa & Ea & [oa Hoa] & Fa & Ka).
  assert (F1 : inputs_intact wa) by (destruct F0 as (?&?&?&?&?); split_and!; by apply Ka).
  assert (Q1 : forall xs, float_tensor ws Po dp xs ->
                 holds wa Po (mkTensor dp (FloatData xs))) by (intros; by apply Ka, Q0).
  destruct F1 as (G1 & Mo1 & L1 & P1 & I1).
  destruct (ResizeLike_step junk Go G _ oa wa G1 Hoa)
    as (wb & Eb & (sb & Sb & Lb) & Fb & Kb & Ib & _).
  assert (G2 : holds wb G (mkTensor (n :: dr) (FloatData gs))).
  { destruct AG as [->|(?&_)]; [by apply Ib|by apply Kb]. }
  assert (F2 : inputs_intact wb) by (split_and!; first [done|by apply Kb]).
  assert (Q2 : forall xs, float_tensor ws Po dp xs ->
                 holds wb Po (mkTensor dp (FloatData xs)))
    by (intros; apply Kb; [by apply Q1|congruence]).
  clear G2.
  (* Output(OUTPUT_MOMENTUM)->ResizeLike(Input(MOMENTUM)) *)
  destruct (Output_step op _ Mo' wb WMo') as (wc & Ec & [oc Hoc] & Fc & Kc).
  assert (F3 : inputs_intact wc) by (destruct F2 as (?&?&?&?&?); split_and!; by apply Kc).
  assert (Q3 : forall xs, float_tensor ws Po dp xs ->
                 holds wc Po (mkTensor dp (FloatData xs))) by (intros; by apply Kc, Q2).
  pose proof (Kc _ _ Sb) as Sc.
  destruct F3 as (G3 & Mo3 & L3 & P3 & I3).
  destruct (ResizeLike_step junk Mo' Mo _ oc wc Mo3 Hoc)
    as (wd & Ed & (sd & Sd & Ld) & Fd & Kd & Id & _).
  assert (Mo4 : holds wd Mo (mkTensor dm (FloatData ms))).
  { destruct AMo as [->|(_&?&_)]; [by apply Id|by apply Kd]. }
  assert (F4 : inputs_intact wd) by (split_and!; first [done|by apply Kd]).
  assert (Q4 : forall xs, float_tensor ws Po dp xs ->
                 holds wd Po (mkTensor dp (FloatData xs)))
    by (intros; apply Kd; [by apply Q3|congruence]).
  assert (Sd1 : holds wd Go (mkTensor (n :: dr) sb)) by by apply Kd.
  clear Mo4.
  (* Output(OUTPUT_PARAM)->ResizeLike(Input(PARAM)) *)
  destruct (Output_step op _ Po wd WPo) as (we & Ee & [oe Hoe] & Fe & Ke).
  assert (F5 : inputs_intact we) by (destruct F4 as (?&?&?&?&?); split_and!; by apply Ke).
  assert (Q5 : forall xs, float_tensor ws Po dp xs ->
                 holds we Po (mkTensor dp (FloatData xs))) by (intros; by apply Ke, Q4).
  pose proof (Ke _ _ Sd1) as Se1. pose proof (Ke _ _ Sd) as Se2.
  destruct F5 as (G5 & Mo5 & L5 & P5 & I5).
  destruct (ResizeLike_step junk Po P _ oe we P5 Hoe)
    as (wf & Ef & (sf & Sf & Lf) & Ff & Kf & If & Jf).
  assert (P6 : holds wf P (mkTensor dp (FloatData ps))).
  { destruct AP as [->|(_&_&_&?&_)]; [by apply If|by apply Kf]. }
  assert (F6 : inputs_intact wf) by (split_and!; first [done|by apply Kf]).
  assert (Q6 : forall xs, float_tensor ws Po dp xs ->
                 holds wf Po (mkTensor dp (FloatData xs))).
  { intros xs Hxs. apply Jf. split; [by apply Q5|by destruct Hxs]. }
  assert (Sf1 : holds wf Go (mkTensor (n :: dr) sb)) by by apply Kf.
  assert (Sf2 : holds wf Mo' (mkTensor dm sd)) by by apply Kf.
  clear P6.
  (* Output(OUTPUT_GRAD)->mutable_data<T>() *)
  destruct (Output_step op _ Go wf WGo) as (wg & Eg & _ & Fg & Kg).
  assert (F7 : inputs_intact wg) by (destruct F6 as (?&?&?&?&?); split_and!; by apply Kg).
  assert (Q7 : forall xs, float_tensor ws Po dp xs ->
                 holds wg Po (mkTensor dp (FloatData xs))) by (intros; by apply Kg, Q6).
  pose proof (Kg _ _ Sf1) as Sg1. pose proof (Kg _ _ Sf2) as Sg2.
  pose proof (Kg _ _ Sf) as Sg3.
  destruct (mutable_data_step junk Go (n :: dr) wg)
    as (wh & gs' & Eh & [Th LTh] & Fh & Kh & Jh); [by exists sb|].
  assert (F8 : inputs_intact wh).
  { destruct F7 as (?&?&?&?&?). split_and!; first [by apply Jh|by apply Kh]. }
  assert (Q8 : forall xs, float_tensor ws Po dp xs ->
                 holds wh Po (mkTensor dp (FloatData xs))) by (intros; by apply Jh, Q7).
  assert (Sh2 : holds wh Mo' (mkTensor dm sd)) by (apply Kh; [done|congruence]).
  assert (Sh3 : holds wh Po (mkTensor dp sf)) by (apply Kh; [done|congruence]).
  (* Output(OUTPUT_MOMENTUM)->mutable_data<T>() *)
  destruct (Output_step op _ Mo' wh WMo') as (wi & Ei & _ & Fi & Ki).
  assert (F9 : inputs_intact wi) by (destruct F8 as (?&?&?&?&?); split_and!; by apply Ki).
  assert (Q9 : forall xs, float_tensor ws Po dp xs ->
                 holds wi Po (mkTensor dp (FloatData xs))) by (intros; by apply Ki, Q8).
  pose proof (Ki _ _ Th) as Ti. pose proof (Ki _ _ Sh2) as Si2.
  pose proof (Ki _ _ Sh3) as Si3.
  destruct (mutable_data_step junk Mo' dm wi)
    as (wj & ms' & Ej & [Tj LTj] & Fj & Kj & Jj); [by exists sd|].
  assert (F10 : inputs_intact wj).
  { destruct F9 as (?&?&?&?&?). split_and!; first [by apply Jj|by apply Kj]. }
  assert (Q10 : forall xs, float_tensor ws Po dp xs ->
                  holds wj Po (mkTensor dp (FloatData xs))) by (intros; by apply Jj, Q9).
  pose proof (Jj _ _ _ Ti) as Tj1.
  assert (Sj3 : holds wj Po (mkTensor dp sf)) by (apply Kj; [done|congruence]).
  (* Output(OUTPUT_PARAM)->mutable_data<T>() *)
  destruct (Output_step op _ Po wj WPo) as (wk & Ek & _ & Fk & Kk).
  assert (F11 : inputs_intact wk) by (destruct F10 as (?&?&?&?&?); split_and!; by apply Kk).
  assert (Q11 : forall xs, float_tensor ws Po dp xs ->
                  holds wk Po (mkTensor dp (FloatData xs))) by (intros; by apply Kk, Q10).
  pose proof (Kk _ _ Tj1) as Tk1. pose proof (Kk _ _ Tj) as Tk2.
  pose proof (Kk _ _ Sj3) as Sk3.
  destruct (mutable_data_step junk Po dp wk)
    as (wl & ps' & El & [Tl LTl] & Fl & Kl & Jl); [by exists sf|].
  assert (F12 : inputs_intact wl).
  { destruct F11 as (?&?&?&?&?). split_and!; first [by apply Jl|by apply Kl]. }
  assert (Q12 : forall xs, float_tensor ws Po dp xs ->
                  holds wl Po (mkTensor dp (FloatData xs))) by (intros; by apply Jl, Q11).
  pose proof (Jl _ _ _ Tk1) as Tl1. pose proof (Jl _ _ _ Tk2) as Tl2.
  exists wl, gs', ms', ps'. split_and!; try done.
  - (* the run *)
    destruct F0 as (? & ? & ? & ? & ?), F2 as (? & ? & ? & ? & ?),
      F4 as (? & ? & ? & ? & ?), F6 as (? & ? & ? & ? & ?),
      F7 as (? & ? & ? & ? & ?), F8 as (? & ? & ? & ? & ?),
      F9 as (? & ? & ? & ? & ?), F10 as (? & ? & ? & ? & ?),
      F11 as (? & ? & ? & ? & ?).
    assert (Hrun : SparseMomentumSGDUpdateOp.DoRunWithType w junk op ws
      = sparse_rows w op (Z.of_nat n) (Z.of_nat (numel dr)) G Mo L I Go Mo' Po wl).
    { unfold SparseMomentumSGDUpdateOp.DoRunWithType, sparse_rows,
        SparseMomentumSGDUpdateOp.GRAD, SparseMomentumSGDUpdateOp.MOMENTUM,
        SparseMomentumSGDUpdateOp.LR, SparseMomentumSGDUpdateOp.PARAM,
        SparseMomentumSGDUpdateOp.INDICES, SparseMomentumSGDUpdateOp.OUTPUT_GRAD,
        SparseMomentumSGDUpdateOp.OUTPUT_MOMENTUM,
        SparseMomentumSGDUpdateOp.OUTPUT_PARAM.
      run_steps.
      replace (size _ =? 1) with true
        by (unfold size; cbn [dims]; rewrite <- LenL; reflexivity).
      run_steps.
      replace (size _ =? size _) with true
        by (unfold size; cbn [dims]; rewrite Hpm; symmetry; apply Z.eqb_refl).
      run_steps.
      erewrite bind_Done by (eapply dim_holds; [eassumption|reflexivity]).
      replace (size _ =? Z.of_nat n) with true
        by (unfold size; cbn [dims]; rewrite Hin; symmetry; apply Z.eqb_refl).
      run_steps.
      erewrite bind_Done by (eapply dim_holds; [eassumption|reflexivity]).
      run_steps.
      erewrite bind_Done by (apply divide_nonzero; lia).
      unfold size. cbn [dims numel fold_right]. fold (numel dr).
      rewrite (quot_rows n (numel dr) Hn).
      run_steps.
      erewrite bind_Done by (eapply index_ptr_holds; destruct w; eassumption).
      run_steps. reflexivity. }
    unfold SparseMomentumSGDUpdateOp.RunOnDevice, SparseMomentumSGDUpdateOp.INDICES.
    run_steps.
    erewrite bind_Done by (by eapply tensor_holds).
    cbn [storage]. by destruct w.
  - intros xs Hxs. specialize (Q12 xs Hxs). unfold holds in *. congruence.
  - intros b HbGo HbMo' HbPo.
    rewrite Fl, Fk, Fj, Fi, Fh, Fg, Ff, Fe, Fd, Fc, Fb, Fa by done. done.
Qed.

End SparsePrepare.

(** ** The rows of the sparse update *)

Lemma momentum_sgd_update_full ws N g m ng nm lr momentum nesterov param LR :
  layout g m ng nm param ->
  read ws (lr +p 0) = Some LR ->
  in_bounds g m ng nm param ws 0 (Z.to_nat N) ->
  exists ws',
    momentum_sgd_update N g m ng nm lr momentum nesterov param ws = (Done tt, ws') /\
    loop_post LR momentum nesterov g m ng nm param ws ws' 0 (Z.to_nat N) /\
    (forall b, b <> blob ng -> b <> blob nm ->
       (forall p, param = Some p -> b <> blob p) -> ws' !! b = ws !! b).
Proof.
  intros Hlay Hlr Hb.
  destruct (momentum_sgd_update_spec ws N g m ng nm lr momentum nesterov param LR
              Hlay Hlr Hb) as (ws' & Hrun & Hpost).
  exists ws'. split_and!; [done|done|].
  intros b Hng Hnm Hp.
  pose proof (preserves_momentum_sgd_update b N g m ng nm lr momentum nesterov param
                ltac:(congruence) ltac:(congruence)) as Hpres.
  specialize (Hpres ltac:(intros p Hpp; specialize (Hp p Hpp); congruence) ws).
  by rewrite Hrun in Hpres.
Qed.

Lemma sparse_layout op G Mo L P I Go Mo' Po a b :
  sparse_wiring op G Mo L P I Go Mo' Po ->
  layout (Ptr G 0 +p a) (Ptr Mo 0 +p b) (Ptr Go 0 +p a) (Ptr Mo' 0 +p b)
         (Some (Ptr Po 0 +p b)).
Proof.
  intros [_ _ _ _ _ _ _ _ AG AMo AP
            (GMo & GP & MoP & LG & LMo & LP & IG & IMo & IP)
            (GoMo' & GoPo & Mo'Po)].
  constructor; cbn [blob ptr_add].
  - destruct AG as [->|(?&_)]; [by left|by right].
  - destruct AMo as [->|(_&?&_)]; [by left|by right].
  - destruct AMo as [->|(?&_)]; congruence.
  - destruct AG as [->|(_&?&_)]; congruence.
  - congruence.
  - intros p [= <-]. cbn [blob ptr_add]. split_and!.
    + destruct AP as [->|(?&_)]; congruence.
    + destruct AP as [->|(_&?&_)]; congruence.
    + congruence.
    + congruence.
Qed.

Lemma load_index_Some w ws name idxs i idx :
  index_data w ws name = Some idxs -> idxs !! i = Some idx ->
  load_index w (Ptr name 0 +p Z.of_nat i) ws = (Done idx, ws).
Proof.
  intros Hd Hi. unfold load_index. cbn [blob off ptr_add]. rewrite Hd.
  destruct (Z.leb_spec 0 (0 + Z.of_nat i)); [|lia].
  replace (Z.to_nat (0 + Z.of_nat i)) with i by lia. by rewrite Hi.
Qed.

Lemma index_data_holds w ws name d idxs :
  holds ws name (mkTensor d (index_storage w idxs)) ->
  index_data w ws name = Some idxs.
Proof. intros H. unfold index_data. rewrite H. by destruct w. Qed.

Lemma index_data_same w ws ws' name :
  ws' !! name = ws !! name -> index_data w ws' name = index_data w ws name.
Proof. intros H. unfold index_data. by rewrite H. Qed.

Lemma read_same_blob ws ws' p :
  ws' !! blob p = ws !! blob p -> read ws' p = read ws p.
Proof. intros H. unfold read, float_data. by rewrite H. Qed.

(** One row of the sparse update: gradient row [i] applied to row [idx] of
    the momentum and parameter buffers. *)
Lemma row_update_spec w op G Mo L P I Go Mo' Po ws bs i idx idxs LRv :
  sparse_wiring op G Mo L P I Go Mo' Po ->
  0 <= bs < 2 ^ 31 ->
  index_data w ws I = Some idxs -> idxs !! i = Some idx ->
  read ws (Ptr L 0 +p 0) = Some LRv ->
  in_bounds (Ptr G 0 +p Z.of_nat i * bs) (Ptr Mo 0 +p idx * bs)
            (Ptr Go 0 +p Z.of_nat i * bs) (Ptr Mo' 0 +p idx * bs)
            (Some (Ptr Po 0 +p idx * bs)) ws 0 (Z.to_nat bs) ->
  exists ws',
    SparseMomentumSGDUpdateOp.row_update w op bs
      (Ptr G 0) (Ptr Mo 0) (Ptr L 0) (Ptr I 0) (Ptr Go 0) (Ptr Mo' 0) (Ptr Po 0)
      (Z.of_nat i) ws = (Done tt, ws') /\
    loop_post LRv (momentum_ op) (nesterov_ op)
      (Ptr G 0 +p Z.of_nat i * bs) (Ptr Mo 0 +p idx * bs)
      (Ptr Go 0 +p Z.of_nat i * bs) (Ptr Mo' 0 +p idx * bs)
      (Some (Ptr Po 0 +p idx * bs)) ws ws' 0 (Z.to_nat bs) /\
    (forall b, b <> Go -> b <> Mo' -> b <> Po -> ws' !! b = ws !! b).
Proof.
  intros Hwire Hbs Hidx Hi Hlr Hb.
  destruct (momentum_sgd_update_full ws bs
              (Ptr G 0 +p Z.of_nat i * bs) (Ptr Mo 0 +p idx * bs)
              (Ptr Go 0 +p Z.of_nat i * bs) (Ptr Mo' 0 +p idx * bs)
              (Ptr L 0) (momentum_ op) (nesterov_ op)
              (Some (Ptr Po 0 +p idx * bs)) LRv)
    as (ws' & Hrun & Hpost & Hframe); [by eapply sparse_layout|done|done|].
  exists ws'. split_and!; [|done|].
  - unfold SparseMomentumSGDUpdateOp.row_update.
    erewrite bind_Done by (by eapply load_index_Some).
    rewrite to_int_small by lia. exact Hrun.
  - intros b ? ? ?. apply Hframe; cbn [blob ptr_add]; [done|done|].
    intros p [= <-]. done.
Qed.

Ltac ptr_apart :=
  let H := fresh in
  intros H; unfold ptr_add in H; cbn [blob off] in H;
  injection H; intros; first [congruence | lia | nia].

Lemma in_bounds_row ws G Mo Go Mo' Po dg dm dgo dmo dpo gs ms gs' ms' ps' a b bs :
  holds ws G (mkTensor dg (FloatData gs)) ->
  holds ws Mo (mkTensor dm (FloatData ms)) ->
  holds ws Go (mkTensor dgo (FloatData gs')) ->
  holds ws Mo' (mkTensor dmo (FloatData ms')) ->
  holds ws Po (mkTensor dpo (FloatData ps')) ->
  0 <= a -> 0 <= b -> 0 <= bs ->
  a + bs <= Z.of_nat (length gs) -> a + bs <= Z.of_nat (length gs') ->
  b + bs <= Z.of_nat (length ms) -> b + bs <= Z.of_nat (length ms') ->
  b + bs <= Z.of_nat (length ps') ->
  in_bounds (Ptr G 0 +p a) (Ptr Mo 0 +p b) (Ptr Go 0 +p a) (Ptr Mo' 0 +p b)
            (Some (Ptr Po 0 +p b)) ws 0 (Z.to_nat bs).
Proof.
  intros HG HMo HGo HMo' HPo Ha Hb Hbs L1 L2 L3 L4 L5 j Hj.
  rewrite !ptr_add_add.
  split_and!; try (eapply read_ptr_is_Some; [eassumption|lia]).
  intros p [= <-]. rewrite ptr_add_add.
  eapply read_ptr_is_Some; [eassumption|lia].
Qed.

Lemma in_bounds_same g m ng nm param ws ws' i0 k :
  (forall q, is_Some (read ws' q) <-> is_Some (read ws q)) ->
  in_bounds g m ng nm param ws i0 k -> in_bounds g m ng nm param ws' i0 k.
Proof.
  intros Hsome Hb i Hi. destruct (Hb i Hi) as (? & ? & ? & ? & Hp).
  rewrite !Hsome. split_and!; try done. intros p Hpp. rewrite Hsome. eauto.
Qed.

Ltac solve_sparse_wiring :=
  constructor;
  first [ reflexivity | by left | repeat split; discriminate ].

(** ** The sparse update over the index list 0, 1, ..., n-1 *)

Lemma ptr_row X a j : Ptr X 0 +p a +p j = Ptr X (a + j).
Proof. unfold ptr_add. cbn [blob off]. f_equal. Qed.

Section SparseIdentity.
Variables (w : SIndex) (op : Operator).
Variables (G Mo L P I Go Mo' Po : string).
Variables (n : nat) (bs : Z) (idxs : list Z) (LRv : float).
Hypothesis Hwire : sparse_wiring op G Mo L P I Go Mo' Po.
Hypothesis Hbs : 0 <= bs < 2 ^ 31.
Hypothesis Hidx : forall r, (r < n)%nat -> idxs !! r = Some (Z.of_nat r).

Local Abbreviation row :=
  (SparseMomentumSGDUpdateOp.row_update w op bs
     (Ptr G 0) (Ptr Mo 0) (Ptr L 0) (Ptr I 0) (Ptr Go 0) (Ptr Mo' 0) (Ptr Po 0)).
Local Abbreviation nmv := (nm_of LRv (momentum_ op) (nesterov_ op)).
Local Abbreviation ngv := (ng_of LRv (momentum_ op) (nesterov_ op)).

Lemma rows_identity k : forall r0 wsk,
  (r0 + k = n)%nat ->
  index_data w wsk I = Some idxs ->
  read wsk (Ptr L 0 +p 0) = Some LRv ->
  (forall X o, X = G \/ X = Mo \/ X = Go \/ X = Mo' \/ X = Po ->
     0 <= o < Z.of_nat n * bs -> is_Some (read wsk (Ptr X o))) ->
  exists ws',
    for_loop k (Z.of_nat r0) row wsk = (Done tt, ws') /\
    (forall o gi mi pi, Z.of_nat r0 * bs <= o < Z.of_nat n * bs ->
       read wsk (Ptr G o) = Some gi -> read wsk (Ptr Mo o) = Some mi ->
       read wsk (Ptr Po o) = Some pi ->
       read ws' (Ptr Mo' o) = Some (nmv gi mi) /\
       read ws' (Ptr Go o) = Some (ngv gi mi) /\
       read ws' (Ptr Po o) = Some (pi - ngv gi mi)%f32) /\
    (forall X o, o < Z.of_nat r0 * bs \/ Z.of_nat n * bs <= o ->
       read ws' (Ptr X o) = read wsk (Ptr X o)) /\
    (forall q, is_Some (read ws' q) <-> is_Some (read wsk q)).
Proof using Hwire Hbs Hidx.
  pose proof Hwire as [_ _ _ _ _ _ _ _ AG AMo AP
                         (GMo & GP & MoP & LG & LMo & LP & IG & IMo & IP)
                         (GoMo' & GoPo & Mo'Po)].
  assert (NX : L <> Go /\ L <> Mo' /\ L <> Po /\ I <> Go /\ I <> Mo' /\ I <> Po /\
               Go <> Mo /\ Mo' <> G /\ Po <> G /\ Po <> Mo).
  { destruct AG as [->|(?&?&?&?&?)], AMo as [->|(?&?&?&?&?)],
      AP as [->|(?&?&?&?&?)]; split_and!; congruence. }
  destruct NX as (LGo & LMo' & LPo & IGo & IMo' & IPo & GoMo & Mo'G & PoG & PoMo).
  induction k as [|k IH]; intros r0 wsk Hr HI HL Hb.
  { exists wsk. split; [reflexivity|]. split_and!; [|done|done].
    intros o ? ? ? Ho. assert (r0 = n) by lia. subst r0. lia. }
  assert (Hr0 : (r0 < n)%nat) by lia.
  set (R := Z.of_nat r0 * bs).
  assert (HR : 0 <= R) by (unfold R; nia).
  assert (HRn : R + bs <= Z.of_nat n * bs) by (unfold R; nia).
  assert (HRS : Z.of_nat (S r0) * bs = R + bs) by (unfold R; lia).
  destruct (row_update_spec w op G Mo L P I Go Mo' Po wsk bs r0 (Z.of_nat r0)
              idxs LRv Hwire Hbs HI (Hidx r0 Hr0) HL)
    as (ws1 & Hrow & (Hval & Hfr & Hsome) & Hblob).
  { intros j Hj. fold R. rewrite !ptr_row.
    split_and!; try (apply Hb; [tauto|lia]).
    intros p [= <-]. rewrite ptr_row. apply Hb; [tauto|lia]. }
  fold R in Hval, Hfr.
  (* what row [r0] writes, and what it leaves alone *)
  assert (Hrow_val : forall o gi mi pi, R <= o < R + bs ->
            read wsk (Ptr G o) = Some gi -> read wsk (Ptr Mo o) = Some mi ->
            read wsk (Ptr Po o) = Some pi ->
            read ws1 (Ptr Mo' o) = Some (nmv gi mi) /\
            read ws1 (Ptr Go o) = Some (ngv gi mi) /\
            read ws1 (Ptr Po o) = Some (pi - ngv gi mi)%f32).
  { intros o gi mi pi Ho Hg Hm Hp.
    destruct (Hval (o - R) gi mi) as (Hnm1 & Hng1 & Hp1); [lia| | |].
    { rewrite ptr_row. by replace (R + (o - R)) with o by lia. }
    { rewrite ptr_row. by replace (R + (o - R)) with o by lia. }
    specialize (Hp1 _ pi eq_refl).
    rewrite !ptr_row in Hnm1, Hng1, Hp1.
    replace (R + (o - R)) with o in Hnm1, Hng1, Hp1 by lia.
    split_and!; [done|done|by apply Hp1]. }
  assert (Hrow_fr : forall X o, o < R \/ R + bs <= o ->
            read ws1 (Ptr X o) = read wsk (Ptr X o)).
  { intros X o Ho. apply Hfr. intros j Hj. rewrite !ptr_row.
    split_and!; [ptr_apart|ptr_apart|]. intros p [= <-]. rewrite ptr_row. ptr_apart. }
  destruct (IH (S r0) ws1) as (ws' & Hloop & HV & HF & HS).
  { lia. }
  { rewrite (index_data_same w wsk ws1 I) by by apply Hblob. done. }
  { rewrite (read_same_blob wsk ws1) by (by apply Hblob). done. }
  { intros X o HX Ho. apply Hsome. by apply Hb. }
  rewrite HRS in HV, HF.
  exists ws'. split.
  { cbn [for_loop]. erewrite bind_Done by exact Hrow.
    replace (Z.of_nat r0 + 1) with (Z.of_nat (S r0)) by lia. exact Hloop. }
  split_and!.
  - intros o gi mi pi Ho Hg Hm Hp.
    destruct (Z.lt_ge_cases o (R + bs)) as [Hlt|Hge].
    + rewrite !HF by lia. apply Hrow_val; [lia|done|done|done].
    + apply HV; [lia| | |]; by rewrite Hrow_fr by lia.
  - intros X o Ho. rewrite HF by lia. apply Hrow_fr. lia.
  - intros q. rewrite HS. apply Hsome.
Qed.

End SparseIdentity.

Section SparseIdentityRun.
Variables (junk : float) (op : Operator) (w : SIndex) (ws : Workspace).
Variables (G Mo L P I Go Mo' Po : string).
Variables (n : nat) (dr dm dl dp di : list nat).
Variables (gs ms ps pos : list float) (LRv : float).
Hypothesis Hwire : sparse_wiring op G Mo L P I Go Mo' Po.
Hypothesis HG : float_tensor ws G (n :: dr) gs.
Hypothesis HMo : float_tensor ws Mo dm ms.
Hypothesis HL : float_tensor ws L dl [LRv].
Hypothesis HP : float_tensor ws P dp ps.
Hypothesis HPo : float_tensor ws Po dp pos.
Hypothesis HI : holds ws I (mkTensor di (index_storage w (seqZ 0 (Z.of_nat n)))).
Hypothesis Hpm : numel dp = numel dm.
Hypothesis Hin : numel di = n.
Hypothesis Hn : n <> 0%nat.
Hypothesis Hint : Z.of_nat (numel dr) < 2 ^ 31.
Hypothesis Hrows : (n * numel dr <= numel dm)%nat.

(** Every element of the first [n] rows is updated as the dense update
    would update it. *)
Lemma sparse_identity_run :
  exists ws',
    SparseMomentumSGDUpdateOp.RunOnDevice junk op ws = (Done true, ws') /\
    forall k gi mi pi, (k < n * numel dr)%nat ->
      gs !! k = Some gi -> ms !! k = Some mi -> pos !! k = Some pi ->
      read ws' (Ptr Mo' (Z.of_nat k))
        = Some (nm_of LRv (momentum_ op) (nesterov_ op) gi mi) /\
      read ws' (Ptr Go (Z.of_nat k))
        = Some (ng_of LRv (momentum_ op) (nesterov_ op) gi mi) /\
      read ws' (Ptr Po (Z.of_nat k))
        = Some (pi - ng_of LRv (momentum_ op) (nesterov_ op) gi mi)%f32.
Proof using All.
  destruct (sparse_prepare junk op w ws G Mo L P I Go Mo' Po n dr dm dl dp di
              gs ms ps LRv (seqZ 0 (Z.of_nat n)) Hwire HG HMo HL HP HI Hpm Hin Hn)
    as (ws1 & gs' & ms' & ps' & Hrun & (G1 & Mo1 & L1 & P1 & I1)
        & [Go1 LGo] & [Mo'1 LMo'] & [Po1 LPo] & Hsame & _).
  rewrite (Hsame pos HPo) in *. clear Hsame.
  destruct HG as [_ LG], HMo as [_ LMo], HPo as [_ LPos].
  set (bs := Z.of_nat (numel dr)).
  assert (Hgs : Z.of_nat (length gs) = Z.of_nat n * bs).
  { rewrite LG. unfold bs. cbn [numel fold_right]. fold (numel dr). lia. }
  assert (Hgs' : Z.of_nat (length gs') = Z.of_nat n * bs).
  { rewrite LGo. unfold bs. cbn [numel fold_right]. fold (numel dr). lia. }
  assert (Hnb : Z.of_nat n * bs <= Z.of_nat (numel dm)) by (unfold bs; lia).
  destruct (rows_identity w op G Mo L P I Go Mo' Po n bs (seqZ 0 (Z.of_nat n)) LRv
              Hwire ltac:(unfold bs; lia)) with (k := n) (r0 := 0%nat) (wsk := ws1)
    as (ws' & Hloop & HV & _ & _).
  { intros r Hr. by rewrite lookup_seqZ_lt by lia. }
  { lia. }
  { by eapply index_data_holds. }
  { exact (read_holds ws1 L dl [LRv] 0 L1). }
  { intros X o HX Ho. change (Ptr X o) with (Ptr X 0 +p o).
    destruct HX as [-> | [-> | [-> | [-> | -> ] ] ] ];
      (eapply read_ptr_is_Some; [eassumption|lia]). }
  exists ws'. split.
  - rewrite Hrun. unfold sparse_rows, for_range. rewrite Nat2Z.id.
    change 0 with (Z.of_nat 0). by erewrite bind_Done by exact Hloop.
  - intros k gi mi pi Hk Hg Hm Hp.
    apply HV.
    + unfold bs. lia.
    + change (Ptr G (Z.of_nat k)) with (Ptr G 0 +p Z.of_nat k).
      by erewrite read_holds by done.
    + change (Ptr Mo (Z.of_nat k)) with (Ptr Mo 0 +p Z.of_nat k).
      by erewrite read_holds by done.
    + change (Ptr Po (Z.of_nat k)) with (Ptr Po 0 +p Z.of_nat k).
      by erewrite read_holds by done.
Qed.

End SparseIdentityRun.

Lemma block_lookup bs r xs j :
  (j < bs)%nat -> block bs r xs !! j = xs !! (r * bs + j)%nat.
Proof. intros Hj. unfold block. by rewrite lookup_take_lt, lookup_drop by done. Qed.

Lemma block_length bs r n xs :
  (r < n)%nat -> (n * bs <= length xs)%nat -> length (block bs r xs) = bs.
Proof.
  intros Hr Hn. unfold block. rewrite length_take_le; [done|].
  rewrite length_drop. nia.
Qed.

(** C5. For [n > 0] rows of [block_size] elements, the sparse update called
    with the index list [0, 1, ..., n-1] succeeds, and for every block [r]
    its gradient, momentum and parameter outputs are, element for element,
    those of a dense parameter update (with the same momentum, flag and
    learning rate) called on block [r] alone: on tensors that hold block [r]
    of the gradient, of the momentum and of the parameter buffer. *)
Theorem sparse_identity_is_blockwise_dense
    junk op w ws G Mo L P I Go Mo' Po n dr dm dl dp di gs ms ps pos LRv :
  sparse_wiring op G Mo L P I Go Mo' Po ->
  float_tensor ws G (n :: dr) gs ->
  float_tensor ws Mo dm ms ->
  float_tensor ws L dl [LRv] ->
  float_tensor ws P dp ps ->
  float_tensor ws Po dp pos ->
  holds ws I (mkTensor di (index_storage w (seqZ 0 (Z.of_nat n)))) ->
  numel dp = numel dm ->
  numel di = n ->
  n <> 0%nat ->
  Z.of_nat (numel dr) < 2 ^ 31 ->
  (n * numel dr <= numel dm)%nat ->
  let bs := numel dr in
  exists ws_sparse,
    SparseMomentumSGDUpdateOp.RunOnDevice junk op ws = (Done true, ws_sparse) /\
    forall r, (r < n)%nat ->
    forall junk' op_r ws_r Gr Mor Lr Gor Mor' Por dgr dmr dlr dpr,
      dense_wiring op_r Gr Mor Lr Gor Mor' Por ->
      momentum_ op_r = momentum_ op ->
      nesterov_ op_r = nesterov_ op ->
      float_tensor ws_r Gr dgr (block bs r gs) ->
      float_tensor ws_r Mor dmr (block bs r ms) ->
      float_tensor ws_r Lr dlr [LRv] ->
      float_tensor ws_r Por dpr (block bs r pos) ->
      exists ws_dense,
        MomentumSGDUpdateOp.RunOnDevice junk' op_r ws_r = (Done true, ws_dense) /\
        forall j, (j < bs)%nat ->
          is_Some (read ws_dense (Ptr Gor (Z.of_nat j))) /\
          read ws_sparse (Ptr Go (Z.of_nat (r * bs + j)))
            = read ws_dense (Ptr Gor (Z.of_nat j)) /\
          read ws_sparse (Ptr Mo' (Z.of_nat (r * bs + j)))
            = read ws_dense (Ptr Mor' (Z.of_nat j)) /\
          read ws_sparse (Ptr Po (Z.of_nat (r * bs + j)))
            = read ws_dense (Ptr Por (Z.of_nat j)).
Proof.
  intros Hwire HG HMo HL HP HPo HI Hpm Hin Hn Hint Hrows bs.
  destruct (sparse_identity_run junk op w ws G Mo L P I Go Mo' Po n dr dm dl dp di
              gs ms ps pos LRv Hwire HG HMo HL HP HPo HI Hpm Hin Hn Hint Hrows)
    as (ws_s & Hrun & Hval).
  exists ws_s. split; [done|].
  intros r Hr junk' op_r ws_r Gr Mor Lr Gor Mor' Por dgr dmr dlr dpr
         Hwr Hmom Hnes HGr HMor HLr HPor.
  assert (LG : length gs = (n * bs)%nat).
  { destruct HG as [_ ->]. reflexivity. }
  assert (LMo : (n * bs <= length ms)%nat) by (destruct HMo as [_ ->]; done).
  assert (LPo : (n * bs <= length pos)%nat).
  { destruct HPo as [_ ->]. by rewrite Hpm. }
  assert (Bg : length (block bs r gs) = bs) by (eapply block_length; [done|lia]).
  assert (Bm : length (block bs r ms) = bs) by by eapply block_length.
  assert (Bp : length (block bs r pos) = bs) by by eapply block_length.
  destruct (dense_update_run junk' op_r ws_r Gr Mor Lr Gor Mor' Por dgr dmr dlr dpr
              (block bs r gs) (block bs r ms) (block bs r pos) LRv
              Hwr HGr HMor HLr (proj1 HPor))
    as (ws_d & Hrund & Hvald & _ & _).
  { destruct HGr as [_ <-], HMor as [_ <-]. congruence. }
  { destruct HGr as [_ <-]. rewrite Bg. done. }
  { destruct HGr as [_ <-]. rewrite Bg, Bp. done. }
  exists ws_d. split; [done|].
  intros j Hj.
  destruct (lookup_lt_is_Some_2 gs (r * bs + j)) as [gi Hgi]; [nia|].
  destruct (lookup_lt_is_Some_2 ms (r * bs + j)) as [mi Hmi]; [nia|].
  destruct (lookup_lt_is_Some_2 pos (r * bs + j)) as [pi Hpi]; [nia|].
  destruct (Hval (r * bs + j)%nat gi mi pi ltac:(nia) Hgi Hmi Hpi)
    as (Snm & Sng & Sp).
  destruct (Hvald j gi mi) as (Dnm & Dng & Dp).
  { by rewrite block_lookup. }
  { by rewrite block_lookup. }
  specialize (Dp pi ltac:(by rewrite block_lookup)).
  rewrite Hmom, Hnes in Dnm, Dng, Dp.
  rewrite Snm, Sng, Sp, Dnm, Dng, Dp. split_and!; eauto.
Qed.

Lemma sparse_identity_is_blockwise_dense_witness :
  let op := Example.op_sparse true in
  let ws := Example.ws_sparse (Int64Data (seqZ 0 2)) in
  let gs := [Example.c1; Example.c2; Example.c3; Example.c5] in
  let ms := replicate 12 Example.c1 in
  exists ws_sparse,
    SparseMomentumSGDUpdateOp.RunOnDevice F32.zero op ws = (Done true, ws_sparse) /\
    forall r, (r < 2)%nat ->
    forall junk' op_r ws_r Gr Mor Lr Gor Mor' Por dgr dmr dlr dpr,
      dense_wiring op_r Gr Mor Lr Gor Mor' Por ->
      momentum_ op_r = momentum_ op ->
      nesterov_ op_r = nesterov_ op ->
      float_tensor ws_r Gr dgr (block 2 r gs) ->
      float_tensor ws_r Mor dmr (block 2 r ms) ->
      float_tensor ws_r Lr dlr [Example.c0_1] ->
      float_tensor ws_r Por dpr (block 2 r ms) ->
      exists ws_dense,
        MomentumSGDUpdateOp.RunOnDevice junk' op_r ws_r = (Done true, ws_dense) /\
        forall j, (j < 2)%nat ->
          is_Some (read ws_dense (Ptr Gor (Z.of_nat j))) /\
          read ws_sparse (Ptr "grad" (Z.of_nat (r * 2 + j)))
            = read ws_dense (Ptr Gor (Z.of_nat j)) /\
          read ws_sparse (Ptr "mom" (Z.of_nat (r * 2 + j)))
            = read ws_dense (Ptr Mor' (Z.of_nat j)) /\
          read ws_sparse (Ptr "param" (Z.of_nat (r * 2 + j)))
            = read ws_dense (Ptr Por (Z.of_nat j)).
Proof.
  apply (sparse_identity_is_blockwise_dense F32.zero (Example.op_sparse true)
           int64_t (Example.ws_sparse (Int64Data (seqZ 0 2)))
           "grad" "mom" "lr" "param" "indices" "grad" "mom" "param"
           2%nat [2%nat] [6%nat; 2%nat] [1%nat] [6%nat; 2%nat] [2%nat]
           [Example.c1; Example.c2; Example.c3; Example.c5]
           (replicate 12 Example.c1) (replicate 12 Example.c1)
           (replicate 12 Example.c1) Example.c0_1).
  - solve_sparse_wiring.
  - split; reflexivity.
  - split; reflexivity.
  - split; reflexivity.
  - split; reflexivity.
  - split; reflexivity.
  - reflexivity.
  - reflexivity.
  - reflexivity.
  - discriminate.
  - reflexivity.
  - simpl; lia.
Defined.

(** ** The row loop over any index list *)

Lemma preserves_load_index b w p : preserves b (load_index w p).
Proof.
  apply preserves_pure. intros ws. unfold load_index.
  destruct (index_data w ws (blob p)) as [xs|]; [|done].
  destruct (0 <=? off p); [|done]. by destruct (xs !! _).
Qed.

Lemma preserves_rows w op bs G Mo L I Go Mo' Po k i0 b :
  b <> Go -> b <> Mo' -> b <> Po ->
  preserves b
    (for_loop k i0
       (SparseMomentumSGDUpdateOp.row_update w op bs
          (Ptr G 0) (Ptr Mo 0) (Ptr L 0) (Ptr I 0)
          (Ptr Go 0) (Ptr Mo' 0) (Ptr Po 0))).
Proof.
  intros HGo HMo' HPo. apply preserves_for_loop. intros i.
  unfold SparseMomentumSGDUpdateOp.row_update.
  apply preserves_bind; [apply preserves_load_index|]. intros.
  apply preserves_momentum_sgd_update; rewrite ?ptr_add_blob; cbn [blob];
    [congruence|congruence|].
  intros p [= <-]. rewrite ptr_add_blob. cbn [blob]. congruence.
Qed.

Section SparseAny.
Variables (w : SIndex) (op : Operator).
Variables (G Mo L P I Go Mo' Po : string).
Variables (n : nat) (bs msz : Z) (idxs : list Z) (LRv : float).
Hypothesis Hwire : sparse_wiring op G Mo L P I Go Mo' Po.
Hypothesis Hbs : 0 <= bs < 2 ^ 31.
Hypothesis Hidx : forall r, (r < n)%nat ->
  exists idx, idxs !! r = Some idx /\ 0 <= idx /\ (idx + 1) * bs <= msz.

Local Abbreviation row :=
  (SparseMomentumSGDUpdateOp.row_update w op bs
     (Ptr G 0) (Ptr Mo 0) (Ptr L 0) (Ptr I 0) (Ptr Go 0) (Ptr Mo' 0) (Ptr Po 0)).

Lemma rows_any k : forall r0 wsk,
  (r0 + k = n)%nat ->
  index_data w wsk I = Some idxs ->
  read wsk (Ptr L 0 +p 0) = Some LRv ->
  (forall X o, X = G \/ X = Go ->
     0 <= o < Z.of_nat n * bs -> is_Some (read wsk (Ptr X o))) ->
  (forall X o, X = Mo \/ X = Mo' \/ X = Po ->
     0 <= o < msz -> is_Some (read wsk (Ptr X o))) ->
  exists ws',
    for_loop k (Z.of_nat r0) row wsk = (Done tt, ws') /\
    (forall X o,
       (X = Go -> o < Z.of_nat r0 * bs \/ Z.of_nat n * bs <= o) ->
       (X = Mo' \/ X = Po -> forall r idx, (r0 <= r < n)%nat ->
          idxs !! r = Some idx -> o < idx * bs \/ (idx + 1) * bs <= o) ->
       read ws' (Ptr X o) = read wsk (Ptr X o)) /\
    (forall q, is_Some (read ws' q) <-> is_Some (read wsk q)).
Proof using Hwire Hbs Hidx.
  pose proof Hwire as [_ _ _ _ _ _ _ _ AG AMo AP
                         (GMo & GP & MoP & LG & LMo & LP & IG & IMo & IP)
                         (GoMo' & GoPo & Mo'Po)].
  assert (NX : L <> Go /\ L <> Mo' /\ L <> Po /\ I <> Go /\ I <> Mo' /\ I <> Po).
  { destruct AG as [->|(?&?&?&?&?)], AMo as [->|(?&?&?&?&?)],
      AP as [->|(?&?&?&?&?)]; split_and!; congruence. }
  destruct NX as (LGo & LMo' & LPo & IGo & IMo' & IPo).
  induction k as [|k IH]; intros r0 wsk Hr HI HL Hb1 Hb2.
  { exists wsk. split; [reflexivity|]. split; done. }
  assert (Hr0 : (r0 < n)%nat) by lia.
  destruct (Hidx r0 Hr0) as (idx & Hi & Hi0 & Himax).
  set (R := Z.of_nat r0 * bs).
  assert (HR : 0 <= R) by (unfold R; nia).
  assert (HRn : R + bs <= Z.of_nat n * bs) by (unfold R; nia).
  assert (HRS : Z.of_nat (S r0) * bs = R + bs) by (unfold R; lia).
  assert (HX : 0 <= idx * bs /\ idx * bs + bs <= msz) by nia.
  destruct (row_update_spec w op G Mo L P I Go Mo' Po wsk bs r0 idx
              idxs LRv Hwire Hbs HI Hi HL)
    as (ws1 & Hrow & (_ & Hfr & Hsome) & Hblob).
  { intros j Hj. fold R. rewrite !ptr_row.
    split_and!; try (apply Hb1; [tauto|lia]); try (apply Hb2; [tauto|lia]).
    intros p [= <-]. rewrite ptr_row. apply Hb2; [tauto|lia]. }
  fold R in Hfr.
  destruct (IH (S r0) ws1) as (ws' & Hloop & HF & HS).
  { lia. }
  { rewrite (index_data_same w wsk ws1 I) by by apply Hblob. done. }
  { rewrite (read_same_blob wsk ws1) by (by apply Hblob). done. }
  { intros X o HX' Ho. apply Hsome. by apply Hb1. }
  { intros X o HX' Ho. apply Hsome. by apply Hb2. }
  rewrite HRS in HF.
  exists ws'. split.
  { cbn [for_loop]. erewrite bind_Done by exact Hrow.
    replace (Z.of_nat r0 + 1) with (Z.of_nat (S r0)) by lia. exact Hloop. }
  split.
  - intros X o HGo HMP. rewrite HF.
    + apply Hfr. intros j Hj. rewrite !ptr_row. split_and!.
      * intros [= -> ->]. destruct (HMP ltac:(tauto) r0 idx ltac:(lia) Hi); lia.
      * intros [= -> ->]. destruct (HGo eq_refl); lia.
      * intros p [= <-]. rewrite ptr_row. intros [= -> ->].
        destruct (HMP ltac:(tauto) r0 idx ltac:(lia) Hi); lia.
    + intros ->. destruct (HGo eq_refl); lia.
    + intros HX' r idx' Hr' Hidx'. apply (HMP HX' r idx'); [lia|done].
  - intros q. rewrite HS. apply Hsome.
Qed.

End SparseAny.

(** ** A repeated index *)

Section SparseSegments.
Variables (w : SIndex) (op : Operator).
Variables (G Mo L P I Go Mo' Po : string).
Variables (n : nat) (bs msz : Z) (idxs : list Z) (LRv : float).
Hypothesis Hwire : sparse_wiring op G Mo L P I Go Mo' Po.
Hypothesis Hbs : 0 <= bs < 2 ^ 31.
Hypothesis Hidx : forall r, (r < n)%nat ->
  exists idx, idxs !! r = Some idx /\ 0 <= idx /\ (idx + 1) * bs <= msz.

Local Abbreviation row :=
  (SparseMomentumSGDUpdateOp.row_update w op bs
     (Ptr G 0) (Ptr Mo 0) (Ptr L 0) (Ptr I 0) (Ptr Go 0) (Ptr Mo' 0) (Ptr Po 0)).

(* What the row loop relies on in every state it passes through: the index
   list, the learning rate, [n] rows of gradient and [msz] elements of
   momentum and parameter. *)
Local Abbreviation ready ws :=
  (index_data w ws I = Some idxs /\
   read ws (Ptr L 0 +p 0) = Some LRv /\
   (forall X o, X = G \/ X = Go ->
      0 <= o < Z.of_nat n * bs -> is_Some (read ws (Ptr X o))) /\
   (forall X o, X = Mo \/ X = Mo' \/ X = Po ->
      0 <= o < msz -> is_Some (read ws (Ptr X o)))).




End SparseSegments.




(** * Further properties of the kernel *)

(** X1. Whatever the outcome of a kernel call (it may stop at an access out
    of bounds), no blob other than those of [ng], [nm] and the parameter row
    is changed: the gradient and momentum inputs, when they lie in blobs of
    their own, and the learning rate are only read. *)
Theorem kernel_touches_only_outputs
    ws N g m ng nm lr momentum nesterov param r ws' b :
  momentum_sgd_update N g m ng nm lr momentum nesterov param ws = (r, ws') ->
  b <> blob ng -> b <> blob nm ->
  (forall p, param = Some p -> b <> blob p) ->
  ws' !! b = ws !! b.
Proof.
  intros Hrun Hng Hnm Hp.
  pose proof (preserves_momentum_sgd_update b N g m ng nm lr momentum nesterov param
                ltac:(congruence) ltac:(congruence)) as Hpres.
  specialize (Hpres ltac:(intros p Hpp; specialize (Hp p Hpp); congruence) ws).
  by rewrite Hrun in Hpres.
Qed.

Lemma kernel_touches_only_outputs_witness :
  (momentum_sgd_update 5 (Ptr "grad" 0) (Ptr "mom" 0) (Ptr "ng" 0) (Ptr "nm" 0)
     (Ptr "lr" 0) Example.c0_9 true (Some (Ptr "param" 0)) Example.ws_kernel).2
    !! "grad" = Example.ws_kernel !! "grad".
Proof.
  eapply (kernel_touches_only_outputs Example.ws_kernel 5 (Ptr "grad" 0)
            (Ptr "mom" 0) (Ptr "ng" 0) (Ptr "nm" 0) (Ptr "lr" 0) Example.c0_9 true
            (Some (Ptr "param" 0))).
  - apply surjective_pairing.
  - discriminate.
  - discriminate.
  - intros p [= <-]. discriminate.
Defined.

(** X2. A kernel call that stays in bounds changes no element other than
    [ng[0..N)], [nm[0..N)] and [param[0..N)]: every other element of every
    buffer reads as before, elements of the output buffers past [N] among
    them, and no buffer changes its length. *)
Theorem kernel_leaves_other_elements
    ws N g m ng nm lr momentum nesterov param LR :
  layout g m ng nm param ->
  read ws (lr +p 0) = Some LR ->
  valid_range ws g N = true -> valid_range ws m N = true ->
  valid_range ws ng N = true -> valid_range ws nm N = true ->
  valid_range_opt ws param N = true ->
  exists ws',
    momentum_sgd_update N g m ng nm lr momentum nesterov param ws = (Done tt, ws') /\
    (forall q,
       (forall i, 0 <= i < N ->
          q <> nm +p i /\ q <> ng +p i /\ forall p, param = Some p -> q <> p +p i) ->
       read ws' q = read ws q) /\
    (forall q, is_Some (read ws' q) <-> is_Some (read ws q)).
Proof.
  intros Hlay Hlr Hg Hm Hng Hnm Hp.
  destruct (momentum_sgd_update_spec ws N g m ng nm lr momentum nesterov param LR
              Hlay Hlr) as (ws' & Hrun & _ & Hfr & Hsome).
  { by apply in_bounds_of_ranges. }
  exists ws'. split_and!; [done| |done].
  intros q Hq. apply Hfr. intros i Hi. apply Hq. lia.
Qed.

Lemma kernel_leaves_other_elements_witness :
  exists ws',
    momentum_sgd_update 2 (Ptr "grad" 0) (Ptr "mom" 0) (Ptr "ng" 0) (Ptr "nm" 0)
      (Ptr "lr" 0) Example.c0_9 false (Some (Ptr "param" 0)) Example.ws_kernel
      = (Done tt, ws') /\
    (forall q,
       (forall i, 0 <= i < 2 ->
          q <> Ptr "nm" 0 +p i /\ q <> Ptr "ng" 0 +p i /\
          forall p, Some (Ptr "param" 0) = Some p -> q <> p +p i) ->
       read ws' q = read Example.ws_kernel q) /\
    (forall q, is_Some (read ws' q) <-> is_Some (read Example.ws_kernel q)).
Proof.
  apply (kernel_leaves_other_elements Example.ws_kernel 2 (Ptr "grad" 0)
           (Ptr "mom" 0) (Ptr "ng" 0) (Ptr "nm" 0) (Ptr "lr" 0) Example.c0_9 false
           (Some (Ptr "param" 0)) Example.c0_1).
  - solve_layout.
  - reflexivity.
  - reflexivity.
  - reflexivity.
  - reflexivity.
  - reflexivity.
  - reflexivity.
Defined.

(** X3. The learning rate is read before the loop, whatever [N] is: a kernel
    call over an empty range ([N <= 0]) returns with the workspace as it was
    when [lr[0]] can be read, and stops at [lr[0]] when it cannot; and for
    any [N] an unreadable [lr[0]] stops the call before anything is
    written. *)
Theorem kernel_reads_lr_first ws N g m ng nm lr momentum nesterov param :
  (read ws (lr +p 0) = None ->
     momentum_sgd_update N g m ng nm lr momentum nesterov param ws
       = (Fail (OutOfBounds (lr +p 0)), ws)) /\
  (N <= 0 -> is_Some (read ws (lr +p 0)) ->
     momentum_sgd_update N g m ng nm lr momentum nesterov param ws = (Done tt, ws)).
Proof.
  split.
  - intros Hlr. unfold momentum_sgd_update.
    by erewrite bind_Fail by by apply load_None.
  - intros HN [LR Hlr]. unfold momentum_sgd_update, for_range.
    erewrite bind_Done by by apply load_Some.
    by replace (Z.to_nat N) with 0%nat by lia.
Qed.

Lemma kernel_reads_lr_first_witness :
  momentum_sgd_update 0 (Ptr "grad" 0) (Ptr "mom" 0) (Ptr "ng" 0) (Ptr "nm" 0)
    (Ptr "lr" 0) Example.c0_9 false None Example.ws_kernel
    = (Done tt, Example.ws_kernel) /\
  momentum_sgd_update 3 (Ptr "grad" 0) (Ptr "mom" 0) (Ptr "ng" 0) (Ptr "nm" 0)
    (Ptr "lr" 1) Example.c0_9 false None Example.ws_kernel
    = (Fail (OutOfBounds (Ptr "lr" 1 +p 0)), Example.ws_kernel).
Proof.
  split.
  - apply (kernel_reads_lr_first Example.ws_kernel 0 (Ptr "grad" 0) (Ptr "mom" 0)
             (Ptr "ng" 0) (Ptr "nm" 0) (Ptr "lr" 0) Example.c0_9 false None).
    + lia.
    + vm_compute. eauto.
  - apply (kernel_reads_lr_first Example.ws_kernel 3 (Ptr "grad" 0) (Ptr "mom" 0)
             (Ptr "ng" 0) (Ptr "nm" 0) (Ptr "lr" 1) Example.c0_9 false None).
    reflexivity.
Defined.

Lemma body_shift LR g m ng nm momentum nesterov param a i :
  momentum_sgd_update_body LR (g +p a) (m +p a) (ng +p a) (nm +p a) momentum
    nesterov (option_map (fun p => p +p a) param) i
  = momentum_sgd_update_body LR g m ng nm momentum nesterov param (a + i).
Proof.
  unfold momentum_sgd_update_body. rewrite !ptr_add_add.
  destruct param as [p|]; cbn [option_map]; [|reflexivity].
  by rewrite !ptr_add_add.
Qed.

Lemma for_loop_shift k d body body' :
  (forall i, body' i = body (d + i)) ->
  forall j ws, for_loop k j body' ws = for_loop k (d + j) body ws.
Proof.
  intros Hb. induction k as [|k IH]; intros j ws; [reflexivity|].
  cbn [for_loop]. unfold bind. rewrite Hb.
  destruct (body (d + j) ws) as [[[]|e] ws1]; [|reflexivity].
  rewrite IH. f_equal. lia.
Qed.

(** X4. A kernel call over [a + b] elements is a call over the first [a]
    elements followed by a call over the next [b] elements, with every
    pointer advanced by [a], provided the learning rate does not lie in a
    blob the kernel writes.  The two sides agree on every workspace,
    outcome and final state alike, also when an access is out of bounds. *)
Theorem kernel_split ws a b g m ng nm lr momentum nesterov param :
  0 <= a -> 0 <= b ->
  blob lr <> blob ng -> blob lr <> blob nm ->
  (forall p, param = Some p -> blob lr <> blob p) ->
  momentum_sgd_update (a + b) g m ng nm lr momentum nesterov param ws =
  (do momentum_sgd_update a g m ng nm lr momentum nesterov param then
   momentum_sgd_update b (g +p a) (m +p a) (ng +p a) (nm +p a) lr momentum
     nesterov (option_map (fun p => p +p a) param)) ws.
Proof.
  intros Ha Hb Hng Hnm Hp.
  unfold momentum_sgd_update.
  destruct (read ws (lr +p 0)) as [LR|] eqn:Hlr.
  2:{ erewrite bind_Fail by by apply load_None.
      erewrite bind_Fail; [reflexivity|].
      by erewrite bind_Fail by by apply load_None. }
  erewrite bind_Done by by apply load_Some.
  set (body := momentum_sgd_update_body LR g m ng nm momentum nesterov param).
  unfold for_range.
  replace (Z.to_nat (a + b)) with (Z.to_nat a + Z.to_nat b)%nat by lia.
  rewrite for_loop_app. rewrite Z2Nat.id by done.
  pose proof (preserves_for_loop (blob lr) body (Z.to_nat a)) as Hpres.
  specialize (Hpres ltac:(
    intros i; pose proof (preserves_momentum_sgd_update (blob lr) 1 g m ng nm lr
                            momentum nesterov param) as H;
    unfold body, momentum_sgd_update_body;
    apply preserves_bind;
      [ destruct nesterov; cbn [negb];
        repeat (apply preserves_bind; [apply preserves_load|]; intros);
        (apply preserves_bind; [apply preserves_store; cbn; congruence|]; intros);
        apply preserves_store; cbn; congruence
      | intros; destruct param as [p|]; [|apply preserves_ret];
        repeat (apply preserves_bind; [apply preserves_load|]; intros);
        apply preserves_store; cbn; specialize (Hp p eq_refl); congruence ]) 0 ws).
  destruct (for_loop (Z.to_nat a) 0 body ws) as [[[]|e] ws1] eqn:E1.
  2:{ erewrite bind_Fail by exact E1.
      erewrite bind_Fail; [reflexivity|].
      erewrite bind_Done by by apply load_Some. exact E1. }
  cbn [snd] in Hpres.
  assert (Hlr1 : read ws1 (lr +p 0) = Some LR).
  { rewrite <- Hlr. unfold read, float_data. cbn [blob ptr_add]. by rewrite Hpres. }
  erewrite bind_Done by exact E1.
  symmetry.
  erewrite bind_Done
    by (erewrite bind_Done by (by apply load_Some); exact E1).
  erewrite bind_Done by by apply load_Some.
  rewrite (for_loop_shift (Z.to_nat b) a body); [by rewrite Z.add_0_r|].
  intros i. apply body_shift.
Qed.

Lemma kernel_split_witness :
  momentum_sgd_update (1 + 2) (Ptr "grad" 0) (Ptr "mom" 0) (Ptr "ng" 0) (Ptr "nm" 0)
    (Ptr "lr" 0) Example.c0_9 true (Some (Ptr "param" 0)) Example.ws_kernel =
  (do momentum_sgd_update 1 (Ptr "grad" 0) (Ptr "mom" 0) (Ptr "ng" 0) (Ptr "nm" 0)
        (Ptr "lr" 0) Example.c0_9 true (Some (Ptr "param" 0)) then
   momentum_sgd_update 2 (Ptr "grad" 0 +p 1) (Ptr "mom" 0 +p 1) (Ptr "ng" 0 +p 1)
     (Ptr "nm" 0 +p 1) (Ptr "lr" 0) Example.c0_9 true
     (option_map (fun p => p +p 1) (Some (Ptr "param" 0)))) Example.ws_kernel.
Proof.
  apply (kernel_split Example.ws_kernel 1 2 (Ptr "grad" 0) (Ptr "mom" 0)
           (Ptr "ng" 0) (Ptr "nm" 0) (Ptr "lr" 0) Example.c0_9 true
           (Some (Ptr "param" 0))).
  - lia.
  - lia.
  - discriminate.
  - discriminate.
  - intros p [= <-]. discriminate.
Defined.

(** binary32 addition is commutative, special values included. *)
Lemma add_comm x y : (x + y = y + x)%f32.
Proof.
  unfold F32.add, SFadd.
  destruct x as [sx|sx| |sx mx ex], y as [sy|sy| |sy my ey];
    try reflexivity; try (by destruct sx, sy).
  by rewrite (Z.min_comm ey ex), Z.add_comm.
Qed.

(** X5. The classic and the Nesterov branch store the same new momentum:
    for all inputs, special values included, a kernel call with
    [nesterov = false] and one with [nesterov = true] from the same state
    leave bit-identical values in every [nm[i]]; the branches differ in
    [ng] alone. *)
Theorem branches_store_same_momentum ws N g m ng nm lr momentum param LR :
  layout g m ng nm param ->
  read ws (lr +p 0) = Some LR ->
  valid_range ws g N = true -> valid_range ws m N = true ->
  valid_range ws ng N = true -> valid_range ws nm N = true ->
  valid_range_opt ws param N = true ->
  exists ws_classic ws_nesterov,
    momentum_sgd_update N g m ng nm lr momentum false param ws
      = (Done tt, ws_classic) /\
    momentum_sgd_update N g m ng nm lr momentum true param ws
      = (Done tt, ws_nesterov) /\
    forall i, 0 <= i < N ->
      is_Some (read ws_classic (nm +p i)) /\
      read ws_classic (nm +p i) = read ws_nesterov (nm +p i).
Proof.
  intros Hlay Hlr Hg Hm Hng Hnm Hp.
  destruct (momentum_sgd_update_spec ws N g m ng nm lr momentum false param LR
              Hlay Hlr) as (ws1 & Hrun1 & Hval1 & _).
  { by apply in_bounds_of_ranges. }
  destruct (momentum_sgd_update_spec ws N g m ng nm lr momentum true param LR
              Hlay Hlr) as (ws2 & Hrun2 & Hval2 & _).
  { by apply in_bounds_of_ranges. }
  exists ws1, ws2. split_and!; [done|done|].
  intros i Hi.
  destruct (valid_range_read ws g N i Hg Hi) as [gi Hgi].
  destruct (valid_range_read ws m N i Hm Hi) as [mi Hmi].
  destruct (Hval1 i gi mi ltac:(lia) Hgi Hmi) as (Hnm1 & _).
  destruct (Hval2 i gi mi ltac:(lia) Hgi Hmi) as (Hnm2 & _).
  rewrite Hnm1, Hnm2. split; [eauto|].
  unfold nm_of. by rewrite add_comm.
Qed.

Lemma branches_store_same_momentum_witness :
  exists ws_classic ws_nesterov,
    momentum_sgd_update 3 (Ptr "grad" 0) (Ptr "mom" 0) (Ptr "ng" 0) (Ptr "nm" 0)
      (Ptr "lr" 0) Example.c0_9 false None Example.ws_inf = (Done tt, ws_classic) /\
    momentum_sgd_update 3 (Ptr "grad" 0) (Ptr "mom" 0) (Ptr "ng" 0) (Ptr "nm" 0)
      (Ptr "lr" 0) Example.c0_9 true None Example.ws_inf = (Done tt, ws_nesterov) /\
    forall i, 0 <= i < 3 ->
      is_Some (read ws_classic (Ptr "nm" 0 +p i)) /\
      read ws_classic (Ptr "nm" 0 +p i) = read ws_nesterov (Ptr "nm" 0 +p i).
Proof.
  apply (branches_store_same_momentum Example.ws_inf 3 (Ptr "grad" 0)
           (Ptr "mom" 0) (Ptr "ng" 0) (Ptr "nm" 0) (Ptr "lr" 0) Example.c0_9 None
           Example.c0_1).
  - solve_layout.
  - reflexivity.
  - reflexivity.
  - reflexivity.
  - reflexivity.
  - reflexivity.
  - reflexivity.
Defined.

(** * Further properties of the operators *)

Lemma dense_gradient_prepare junk op ws G Mo L Go Mo' dg gs dm ms dl LRv :
  grad_wiring op G Mo L Go Mo' ->
  float_tensor ws G dg gs ->
  float_tensor ws Mo dm ms ->
  float_tensor ws L dl [LRv] ->
  numel dg = numel dm ->
  exists ws1 gs' ms',
    MomentumSGDOp.RunOnDevice junk op ws
      = dense_gradient_kernel op (Z.of_nat (numel dg)) G Mo L Go Mo' ws1 /\
    float_tensor ws1 G dg gs /\ float_tensor ws1 Mo dm ms /\
    float_tensor ws1 L dl [LRv] /\
    float_tensor ws1 Go dg gs' /\ float_tensor ws1 Mo' dm ms' /\
    (forall b, b <> Go -> b <> Mo' -> ws1 !! b = ws !! b).
Proof.
  intros [WG WMo WL WGo WMo' AG AMo GMo GoMo'] [HG LG] [HMo LMo] [HL LL] Hsz.
  (* Output(OUTPUT_GRAD)->ResizeLike(Input(GRAD)) *)
  destruct (Output_step op _ Go ws WGo) as (wa & Ea & [oa Hoa] & Fa & Ka).
  pose proof (Ka _ _ HG) as HGa. pose proof (Ka _ _ HMo) as HMoa.
  pose proof (Ka _ _ HL) as HLa.
  destruct (ResizeLike_step junk Go G _ oa wa HGa Hoa)
    as (wb & Eb & Sb & Fb & Kb & Ib & _).
  assert (HGb : holds wb G (mkTensor dg (FloatData gs))).
  { destruct AG as [->|(?&_)]; [by apply Ib|by apply Kb]. }
  assert (HMob : holds wb Mo (mkTensor dm (FloatData ms))).
  { apply Kb; [done|]. destruct AG as [->|(_&?&_)]; congruence. }
  assert (HLb : holds wb L (mkTensor dl (FloatData [LRv]))).
  { destruct (decide (L = Go)) as [->|?]; [|by apply Kb].
    destruct AG as [->|(_&_&?)]; [|done].
    unfold holds in *. rewrite HGa in HLa. injection HLa as <- <-. done. }
  (* Output(OUTPUT_MOMENTUM)->ResizeLike(Input(MOMENTUM)) *)
  destruct (Output_step op _ Mo' wb WMo') as (wc & Ec & [oc Hoc] & Fc & Kc).
  pose proof (Kc _ _ HGb) as HGc. pose proof (Kc _ _ HMob) as HMoc.
  pose proof (Kc _ _ HLb) as HLc.
  destruct Sb as (sb & Hsb & Lsb). pose proof (Kc _ _ Hsb) as Hsc.
  destruct (ResizeLike_step junk Mo' Mo _ oc wc HMoc Hoc)
    as (wd & Ed & Sd & Fd & Kd & Id & _).
  assert (HMod : holds wd Mo (mkTensor dm (FloatData ms))).
  { destruct AMo as [->|(_&?&_)]; [by apply Id|by apply Kd]. }
  assert (HGd : holds wd G (mkTensor dg (FloatData gs))).
  { apply Kd; [done|]. destruct AMo as [->|(?&_)]; congruence. }
  assert (HLd : holds wd L (mkTensor dl (FloatData [LRv]))).
  { destruct (decide (L = Mo')) as [->|?]; [|by apply Kd].
    destruct AMo as [->|(_&_&?)]; [|done].
    unfold holds in *. rewrite HMoc in HLc. injection HLc as <- <-. done. }
  assert (Hsd : holds wd Go (mkTensor dg sb)) by by apply Kd.
  (* Output(OUTPUT_GRAD)->mutable_data<T>() *)
  destruct (Output_step op _ Go wd WGo) as (we & Ee & _ & Fe & Ke).
  pose proof (Ke _ _ HGd) as HGe. pose proof (Ke _ _ HMod) as HMoe.
  pose proof (Ke _ _ HLd) as HLe. pose proof (Ke _ _ Hsd) as Hse.
  destruct Sd as (sd & Hsd' & Lsd). pose proof (Ke _ _ Hsd') as Hse'.
  destruct (mutable_data_step junk Go dg we) as (wf & gs' & Ef & Tf & Ff & Kf & Jf).
  { by exists sb. }
  pose proof (Jf _ _ _ HGe) as HGf. pose proof (Jf _ _ _ HMoe) as HMof.
  pose proof (Jf _ _ _ HLe) as HLf.
  assert (Hsf' : holds wf Mo' (mkTensor dm sd)) by (apply Kf; [done|congruence]).
  (* Output(OUTPUT_MOMENTUM)->mutable_data<T>() *)
  destruct (Output_step op _ Mo' wf WMo') as (wg & Eg & _ & Fg & Kg).
  pose proof (Kg _ _ HGf) as HGg. pose proof (Kg _ _ HMof) as HMog.
  pose proof (Kg _ _ HLf) as HLg.
  pose proof (Kg _ _ Hsf') as Hsg'. destruct Tf as [Tf Lf].
  pose proof (Kg _ _ Tf) as Tg.
  destruct (mutable_data_step junk Mo' dm wg) as (wh & ms' & Eh & Th & Fh & Kh & Jh).
  { by exists sd. }
  pose proof (Jh _ _ _ HGg) as HGh. pose proof (Jh _ _ _ HMog) as HMoh.
  pose proof (Jh _ _ _ HLg) as HLh. pose proof (Jh _ _ _ Tg) as Th'.
  exists wh, gs', ms'. split_and!; try done.
  - unfold MomentumSGDOp.RunOnDevice, dense_gradient_kernel,
      MomentumSGDOp.GRAD, MomentumSGDOp.MOMENTUM, MomentumSGDOp.LR,
      MomentumSGDOp.OUTPUT_GRAD, MomentumSGDOp.OUTPUT_MOMENTUM.
    run_steps.
    replace (size _ =? 1) with true
      by (unfold size; cbn [dims]; rewrite <- LL; reflexivity).
    run_steps.
    replace (size _ =? size _) with true
      by (unfold size; cbn [dims]; rewrite Hsz; symmetry; apply Z.eqb_refl).
    run_steps. reflexivity.
  - intros b HbGo HbMo'.
    rewrite Fh, Fg, Ff, Fe, Fd, Fc, Fb, Fa by done. done.
Qed.

Lemma grad_layout op G Mo L Go Mo' :
  grad_wiring op G Mo L Go Mo' ->
  layout (Ptr G 0) (Ptr Mo 0) (Ptr Go 0) (Ptr Mo' 0) None.
Proof.
  intros [_ _ _ _ _ AG AMo GMo GoMo'].
  constructor; cbn [blob].
  - destruct AG as [->|(?&_)]; [by left|by right].
  - destruct AMo as [->|(_&?&_)]; [by left|by right].
  - destruct AMo as [->|(?&_)]; congruence.
  - destruct AG as [->|(_&?&_)]; congruence.
  - congruence.
  - intros p [=].
Qed.

(** X6. The gradient-only operator on well-formed inputs (float tensors of
    one length [N] below 2^31, a learning rate of one element, each output
    in place or in a blob of its own) succeeds and leaves, for every element,
    the new momentum and the step of the recurrence in its two outputs; every
    blob other than these two is left as it was. *)
Theorem dense_gradient_update junk op ws G Mo L Go Mo' dg dm dl gs ms LRv :
  grad_wiring op G Mo L Go Mo' ->
  float_tensor ws G dg gs ->
  float_tensor ws Mo dm ms ->
  float_tensor ws L dl [LRv] ->
  numel dg = numel dm ->
  Z.of_nat (numel dg) < 2 ^ 31 ->
  exists ws',
    MomentumSGDOp.RunOnDevice junk op ws = (Done true, ws') /\
    (forall i, (i < numel dg)%nat ->
       exists gi mi,
         gs !! i = Some gi /\ ms !! i = Some mi /\
         read ws' (Ptr Mo' (Z.of_nat i))
           = Some (nm_of LRv (momentum_ op) (nesterov_ op) gi mi) /\
         read ws' (Ptr Go (Z.of_nat i))
           = Some (ng_of LRv (momentum_ op) (nesterov_ op) gi mi)) /\
    (forall b, b <> Go -> b <> Mo' -> ws' !! b = ws !! b).
Proof.
  intros Hwire HG HMo HL Hsize Hint.
  destruct (dense_gradient_prepare junk op ws G Mo L Go Mo' dg gs dm ms dl LRv
              Hwire HG HMo HL Hsize)
    as (ws1 & gs' & ms' & Hrun & [HG1 LG] & [HMo1 LMo] & [HL1 LL]
        & [HGo1 LGo] & [HMo'1 LMo'] & Hframe1).
  pose proof (grad_layout _ _ _ _ _ _ Hwire) as Hlay.
  set (N := Z.of_nat (numel dg)) in *.
  destruct (momentum_sgd_update_full ws1 (to_int N) (Ptr G 0) (Ptr Mo 0) (Ptr Go 0)
              (Ptr Mo' 0) (Ptr L 0) (momentum_ op) (nesterov_ op) None LRv Hlay)
    as (ws' & Hk & (Hval & _ & _) & Hblob).
  { exact (read_holds ws1 L dl [LRv] 0 HL1). }
  { rewrite to_int_small by lia. intros i Hi.
    split_and!; try (eapply read_ptr_is_Some; [eassumption|lia]).
    intros p [=]. }
  rewrite to_int_small in Hk, Hval by lia.
  exists ws'. split_and!.
  - rewrite Hrun. unfold dense_gradient_kernel.
    rewrite to_int_small by lia. by erewrite bind_Done by exact Hk.
  - intros i Hi.
    destruct (lookup_lt_is_Some_2 gs i ltac:(lia)) as [gi Hgi].
    destruct (lookup_lt_is_Some_2 ms i ltac:(lia)) as [mi Hmi].
    destruct (Hval (Z.of_nat i) gi mi) as (Hnm & Hng & _); [lia| | |].
    { by erewrite read_holds by done. }
    { by erewrite read_holds by done. }
    exists gi, mi. split_and!; done.
  - intros b HbGo HbMo'. rewrite <- Hframe1 by done.
    apply Hblob; cbn [blob]; [done|done|]. intros p [=].
Qed.

Ltac solve_grad_wiring :=
  constructor;
  first [ reflexivity | discriminate | by left
        | right; repeat split; discriminate ].

Lemma dense_gradient_update_witness :
  exists ws',
    MomentumSGDOp.RunOnDevice F32.zero (Example.op_grad_out true) Example.ws0
      = (Done true, ws') /\
    (forall i, (i < 3)%nat ->
       exists gi mi,
         [Example.c1; Example.c2; Example.c3] !! i = Some gi /\
         [F32.zero; F32.zero; F32.zero] !! i = Some mi /\
         read ws' (Ptr "mom_out" (Z.of_nat i))
           = Some (nm_of Example.c0_1 Example.c0_9 true gi mi) /\
         read ws' (Ptr "grad_out" (Z.of_nat i))
           = Some (ng_of Example.c0_1 Example.c0_9 true gi mi)) /\
    (forall b, b <> "grad_out" -> b <> "mom_out" -> ws' !! b = Example.ws0 !! b).
Proof.
  apply (dense_gradient_update F32.zero (Example.op_grad_out true) Example.ws0
           "grad" "mom" "lr" "grad_out" "mom_out" [3%nat] [3%nat] [1%nat]
           [Example.c1; Example.c2; Example.c3]
           [F32.zero; F32.zero; F32.zero] Example.c0_1).
  - solve_grad_wiring.
  - split; reflexivity.
  - split; reflexivity.
  - split; reflexivity.
  - reflexivity.
  - reflexivity.
Defined.

(** X7. The parameter-updating operator extends the gradient-only one: run
    on the same workspace with the same wiring of gradient, momentum and
    learning rate and the same momentum and flag, both succeed and leave the
    same values in every element of the gradient output and of the momentum
    output. *)
Theorem update_op_extends_gradient_op
    junk junk' op_g op_u ws G Mo L Go Mo' Po dg dm dl dp gs ms ps LRv :
  grad_wiring op_g G Mo L Go Mo' ->
  dense_wiring op_u G Mo L Go Mo' Po ->
  momentum_ op_g = momentum_ op_u ->
  nesterov_ op_g = nesterov_ op_u ->
  float_tensor ws G dg gs ->
  float_tensor ws Mo dm ms ->
  float_tensor ws L dl [LRv] ->
  holds ws Po (mkTensor dp (FloatData ps)) ->
  numel dg = numel dm ->
  Z.of_nat (numel dg) < 2 ^ 31 ->
  (numel dg <= length ps)%nat ->
  exists ws_g ws_u,
    MomentumSGDOp.RunOnDevice junk op_g ws = (Done true, ws_g) /\
    MomentumSGDUpdateOp.RunOnDevice junk' op_u ws = (Done true, ws_u) /\
    forall i, (i < numel dg)%nat ->
      is_Some (read ws_g (Ptr Go (Z.of_nat i))) /\
      read ws_g (Ptr Go (Z.of_nat i)) = read ws_u (Ptr Go (Z.of_nat i)) /\
      read ws_g (Ptr Mo' (Z.of_nat i)) = read ws_u (Ptr Mo' (Z.of_nat i)).
Proof.
  intros Hwg Hwu Hmom Hnes HG HMo HL HPo Hsize Hint Hlen.
  destruct (dense_gradient_update junk op_g ws G Mo L Go Mo' dg dm dl gs ms LRv
              Hwg HG HMo HL Hsize Hint) as (ws_g & Hrun_g & Hval_g & _).
  destruct (dense_update_run junk' op_u ws G Mo L Go Mo' Po dg dm dl dp gs ms ps LRv
              Hwu HG HMo HL HPo Hsize Hint Hlen) as (ws_u & Hrun_u & Hval_u & _).
  exists ws_g, ws_u. split_and!; [done|done|].
  intros i Hi. destruct (Hval_g i Hi) as (gi & mi & Hgi & Hmi & Hnm & Hng).
  destruct (Hval_u i gi mi Hgi Hmi) as (Hnm' & Hng' & _).
  rewrite Hnm, Hng, Hnm', Hng', Hmom, Hnes. eauto.
Qed.

Lemma update_op_extends_gradient_op_witness :
  exists ws_g ws_u,
    MomentumSGDOp.RunOnDevice F32.zero (Example.op_grad_out false) Example.ws_out
      = (Done true, ws_g) /\
    MomentumSGDUpdateOp.RunOnDevice F32.zero (Example.op_out false) Example.ws_out
      = (Done true, ws_u) /\
    forall i, (i < 3)%nat ->
      is_Some (read ws_g (Ptr "grad_out" (Z.of_nat i))) /\
      read ws_g (Ptr "grad_out" (Z.of_nat i))
        = read ws_u (Ptr "grad_out" (Z.of_nat i)) /\
      read ws_g (Ptr "mom_out" (Z.of_nat i))
        = read ws_u (Ptr "mom_out" (Z.of_nat i)).
Proof.
  apply (update_op_extends_gradient_op F32.zero F32.zero
           (Example.op_grad_out false) (Example.op_out false) Example.ws_out
           "grad" "mom" "lr" "grad_out" "mom_out" "param_out"
           [3%nat] [3%nat] [1%nat] [3%nat]
           [Example.c1; Example.c2; Example.c3]
           [F32.zero; F32.zero; F32.zero]
           [Example.c5; Example.c5; Example.c5] Example.c0_1).
  - solve_grad_wiring.
  - solve_wiring.
  - reflexivity.
  - reflexivity.
  - split; reflexivity.
  - split; reflexivity.
  - split; reflexivity.
  - reflexivity.
  - reflexivity.
  - reflexivity.
  - simpl; lia.
Defined.

Lemma InputIsType_not_tensor op i name ws :
  inputs op !! i = Some name -> not_tensor ws name ->
  InputIsType op i ws = (Done false, ws).
Proof.
  unfold InputIsType, not_tensor. intros -> H.
  destruct (ws !! name) as [[t|]|] eqn:E; [|done|done].
  by destruct (H t).
Qed.

Ltac reject_type WG WMo Hbad :=
  destruct Hbad as [Hnt|(tg & Mo & HG & WMo & Hnt)];
  [ erewrite bind_Done by (by eapply InputIsType_not_tensor);
    by erewrite bind_Fail
  | erewrite bind_Done by (by eapply InputIsType_holds);
    erewrite bind_Done by apply CAFFE_ENFORCE_true;
    erewrite bind_Done by (by eapply InputIsType_not_tensor);
    by erewrite bind_Fail ].

(** X8. A call whose gradient input, or whose momentum input, holds no
    tensor fails with [TypeMismatch] in each of the three operators, and the
    workspace after the failed call is the workspace before it. *)
Theorem non_tensor_input_rejected v junk op ws :
  type_violation v op ws ->
  run v junk op ws = (Fail TypeMismatch, ws).
Proof.
  intros [(G & WG & Hbad) Hv].
  destruct v; cbn [run].
  - unfold MomentumSGDOp.RunOnDevice, MomentumSGDOp.GRAD, MomentumSGDOp.MOMENTUM.
    reject_type WG WMo Hbad.
  - unfold MomentumSGDUpdateOp.RunOnDevice, MomentumSGDUpdateOp.GRAD,
      MomentumSGDUpdateOp.MOMENTUM.
    reject_type WG WMo Hbad.
  - destruct Hv as (I & ti & WI & HI & Hidx).
    assert (forall w, SparseMomentumSGDUpdateOp.DoRunWithType w junk op ws
                      = (Fail TypeMismatch, ws)) as Hrun.
    { intros w. unfold SparseMomentumSGDUpdateOp.DoRunWithType,
        SparseMomentumSGDUpdateOp.GRAD, SparseMomentumSGDUpdateOp.MOMENTUM.
      reject_type WG WMo Hbad. }
    unfold SparseMomentumSGDUpdateOp.RunOnDevice, SparseMomentumSGDUpdateOp.INDICES.
    erewrite bind_Done by (by eapply Input_holds).
    erewrite bind_Done by (by eapply tensor_holds).
    unfold index_tensor in Hidx. destruct (storage ti); done.
Qed.

Lemma non_tensor_input_rejected_witness :
  run DenseParameterUpdate F32.zero (Example.op_inplace false) Example.ws_other
    = (Fail TypeMismatch, Example.ws_other).
Proof.
  apply (non_tensor_input_rejected DenseParameterUpdate F32.zero
           (Example.op_inplace false) Example.ws_other).
  split; [|exact I].
  exists "grad". split; [reflexivity|].
  right. eexists _, "mom". split_and!; [reflexivity|reflexivity|].
  intros t. vm_compute. discriminate.
Defined.

Lemma preserves_divide b x y : preserves b (divide x y).
Proof. unfold divide. destruct (y =? 0); [apply preserves_throw|apply preserves_ret]. Qed.

Lemma preserves_index_ptr b w name : preserves b (index_ptr w name).
Proof.
  apply preserves_pure. intros ws. unfold index_ptr.
  destruct (ws !! name) as [[]|]; [|done|done].
  by destruct (index_data w ws name).
Qed.

Lemma data_returns name ws p ws' :
  data name ws = (Done p, ws') -> blob p = name.
Proof.
  unfold data, bind, tensor.
  destruct (ws !! name) as [[t|]|]; try done.
  destruct (storage t); unfold ret, throw; intros [=]; by subst.
Qed.

Lemma preserves_MomentumSGDUpdateOp junk op b :
  outputs op !! MomentumSGDUpdateOp.OUTPUT_GRAD <> Some b ->
  outputs op !! MomentumSGDUpdateOp.OUTPUT_MOMENTUM <> Some b ->
  outputs op !! MomentumSGDUpdateOp.OUTPUT_PARAM <> Some b ->
  preserves b (MomentumSGDUpdateOp.RunOnDevice junk op).
Proof.
  intros HG HM HP. unfold MomentumSGDUpdateOp.RunOnDevice.
  repeat (apply preserves_bind; [preserves_step|]; intros).
  apply preserves_bind; [by apply preserves_Output|]. intros ? out_g ? E1.
  apply Output_returns in E1.
  repeat (apply preserves_bind; [preserves_step|]; intros).
  apply preserves_bind; [apply preserves_ResizeLike; congruence|]. intros.
  apply preserves_bind; [by apply preserves_Output|]. intros ? out_m ? E2.
  apply Output_returns in E2.
  repeat (apply preserves_bind; [preserves_step|]; intros).
  apply preserves_bind; [apply preserves_ResizeLike; congruence|]. intros.
  repeat (apply preserves_bind; [preserves_step|]; intros).
  apply preserves_bind; [by apply preserves_Output|]. intros ? out_g' ? E3.
  apply Output_returns in E3.
  apply preserves_bind; [apply preserves_mutable_data; congruence|].
  intros ? ng ? E4. apply mutable_data_returns in E4.
  apply preserves_bind; [by apply preserves_Output|]. intros ? out_m' ? E5.
  apply Output_returns in E5.
  apply preserves_bind; [apply preserves_mutable_data; congruence|].
  intros ? nm ? E6. apply mutable_data_returns in E6.
  repeat (apply preserves_bind; [preserves_step|]; intros).
  apply preserves_bind; [by apply preserves_Output|]. intros ? out_p ? E7.
  apply Output_returns in E7.
  apply preserves_bind; [apply preserves_mutable_data; congruence|].
  intros ? pp ? E8. apply mutable_data_returns in E8.
  apply preserves_bind; [|intros; apply preserves_ret].
  apply preserves_momentum_sgd_update; [congruence|congruence|].
  intros p [= <-]. congruence.
Qed.

Lemma preserves_DoRunWithType w junk op b :
  outputs op !! SparseMomentumSGDUpdateOp.OUTPUT_GRAD <> Some b ->
  outputs op !! SparseMomentumSGDUpdateOp.OUTPUT_MOMENTUM <> Some b ->
  outputs op !! SparseMomentumSGDUpdateOp.OUTPUT_PARAM <> Some b ->
  preserves b (SparseMomentumSGDUpdateOp.DoRunWithType w junk op).
Proof.
  intros HG HM HP. unfold SparseMomentumSGDUpdateOp.DoRunWithType.
  repeat (apply preserves_bind; [preserves_step|]; intros).
  apply preserves_bind; [by apply preserves_Output|]. intros ? out_g ? E1.
  apply Output_returns in E1.
  repeat (apply preserves_bind; [preserves_step|]; intros).
  apply preserves_bind; [apply preserves_ResizeLike; congruence|]. intros.
  apply preserves_bind; [by apply preserves_Output|]. intros ? out_m ? E2.
  apply Output_returns in E2.
  repeat (apply preserves_bind; [preserves_step|]; intros).
  apply preserves_bind; [apply preserves_ResizeLike; congruence|]. intros.
  apply preserves_bind; [by apply preserves_Output|]. intros ? out_p ? E3.
  apply Output_returns in E3.
  repeat (apply preserves_bind; [preserves_step|]; intros).
  apply preserves_bind; [apply preserves_ResizeLike; congruence|]. intros.
  repeat (apply preserves_bind; [preserves_step|]; intros).
  apply preserves_bind; [apply preserves_divide|]. intros.
  repeat (apply preserves_bind; [preserves_step|]; intros).
  apply preserves_bind; [apply preserves_index_ptr|]. intros.
  apply preserves_bind; [by apply preserves_Output|]. intros ? out_g' ? E4.
  apply Output_returns in E4.
  apply preserves_bind; [apply preserves_mutable_data; congruence|].
  intros ? ng ? E5. apply mutable_data_returns in E5.
  apply preserves_bind; [by apply preserves_Output|]. intros ? out_m' ? E6.
  apply Output_returns in E6.
  apply preserves_bind; [apply preserves_mutable_data; congruence|].
  intros ? nm ? E7. apply mutable_data_returns in E7.
  apply preserves_bind; [by apply preserves_Output|]. intros ? out_p' ? E8.
  apply Output_returns in E8.
  apply preserves_bind; [apply preserves_mutable_data; congruence|].
  intros ? pp ? E9. apply mutable_data_returns in E9.
  apply preserves_bind; [|intros; apply preserves_ret].
  apply preserves_for_loop. intros i.
  unfold SparseMomentumSGDUpdateOp.row_update.
  apply preserves_bind; [apply preserves_load_index|]. intros.
  apply preserves_momentum_sgd_update; rewrite ?ptr_add_blob; [congruence|congruence|].
  intros p [= <-]. rewrite ptr_add_blob. congruence.
Qed.

Lemma preserves_SparseMomentumSGDUpdateOp junk op b :
  outputs op !! SparseMomentumSGDUpdateOp.OUTPUT_GRAD <> Some b ->
  outputs op !! SparseMomentumSGDUpdateOp.OUTPUT_MOMENTUM <> Some b ->
  outputs op !! SparseMomentumSGDUpdateOp.OUTPUT_PARAM <> Some b ->
  preserves b (SparseMomentumSGDUpdateOp.RunOnDevice junk op).
Proof.
  intros HG HM HP. unfold SparseMomentumSGDUpdateOp.RunOnDevice.
  apply preserves_bind; [apply preserves_Input|]. intros.
  apply preserves_bind; [apply preserves_tensor|]. intros ? t ? _.
  destruct (storage t);
    first [by apply preserves_DoRunWithType | apply preserves_throw].
Qed.

(** X10. Whatever its outcome, a call of any of the three operators changes
    no blob other than those bound to its output slots: the learning rate,
    the index list and every input that is not also an output (the parameter
    input of a call that is not in place among them) are never written. *)
Theorem operators_touch_only_outputs v junk op ws r ws' b :
  run v junk op ws = (r, ws') ->
  outputs op !! 0%nat <> Some b ->
  outputs op !! 1%nat <> Some b ->
  outputs op !! 2%nat <> Some b ->
  ws' !! b = ws !! b.
Proof.
  intros Hrun HG HM HP.
  assert (preserves b (run v junk op)) as Hpres.
  { destruct v; cbn [run].
    - by apply preserves_MomentumSGDOp.
    - by apply preserves_MomentumSGDUpdateOp.
    - by apply preserves_SparseMomentumSGDUpdateOp. }
  specialize (Hpres ws). by rewrite Hrun in Hpres.
Qed.

Lemma operators_touch_only_outputs_witness :
  (run SparseIndexedUpdate F32.zero (Example.op_sparse false)
     (Example.ws_sparse (Int32Data [5; 7]))).2 !! "indices"
  = Example.ws_sparse (Int32Data [5; 7]) !! "indices".
Proof.
  eapply (operators_touch_only_outputs SparseIndexedUpdate F32.zero
            (Example.op_sparse false) (Example.ws_sparse (Int32Data [5; 7]))).
  - apply surjective_pairing.
  - discriminate.
  - discriminate.
  - discriminate.
Defined.

(** ** Rows the sparse update leaves alone *)

(** X11. The sparse operator run in place on momentum and parameter, with
    any index list whose entries name rows inside the buffers (repeated
    entries allowed), succeeds, and every element of the momentum and of the
    parameter buffer that lies in no row named by the list reads after the
    call as before it. *)
Theorem sparse_update_leaves_other_rows
    junk op w ws G Mo L P I Go n dr dm dl dp di gs ms ps LRv idxs :
  sparse_wiring op G Mo L P I Go Mo P ->
  float_tensor ws G (n :: dr) gs ->
  float_tensor ws Mo dm ms ->
  float_tensor ws L dl [LRv] ->
  float_tensor ws P dp ps ->
  holds ws I (mkTensor di (index_storage w idxs)) ->
  numel dp = numel dm ->
  numel di = n ->
  n <> 0%nat ->
  Z.of_nat (numel dr) < 2 ^ 31 ->
  (forall r, (r < n)%nat ->
     exists idx, idxs !! r = Some idx /\ 0 <= idx /\
                 (idx + 1) * Z.of_nat (numel dr) <= Z.of_nat (numel dm)) ->
  exists ws',
    SparseMomentumSGDUpdateOp.RunOnDevice junk op ws = (Done true, ws') /\
    forall o,
      (forall r idx, (r < n)%nat -> idxs !! r = Some idx ->
         o < idx * Z.of_nat (numel dr) \/ (idx + 1) * Z.of_nat (numel dr) <= o) ->
      read ws' (Ptr Mo o) = read ws (Ptr Mo o) /\
      read ws' (Ptr P o) = read ws (Ptr P o).
Proof.
  intros Hwire HG HMo HL HP HI Hpm Hin Hn Hint Hidx.
  destruct (sparse_prepare junk op w ws G Mo L P I Go Mo P n dr dm dl dp di
              gs ms ps LRv idxs Hwire HG HMo HL HP HI Hpm Hin Hn)
    as (ws1 & gs' & ms' & ps' & Hrun & (G1 & Mo1 & L1 & P1 & I1)
        & [Go1 LGo] & [Mo'1 LMo'] & [Po1 LPo] & _ & _).
  destruct HG as [HGw LG], HMo as [HMow LMo], HP as [HPw LP].
  set (bs := Z.of_nat (numel dr)) in *.
  assert (Hgs : Z.of_nat (length gs) = Z.of_nat n * bs).
  { rewrite LG. unfold bs. cbn [numel fold_right]. fold (numel dr). lia. }
  assert (Hgs' : Z.of_nat (length gs') = Z.of_nat n * bs).
  { rewrite LGo. unfold bs. cbn [numel fold_right]. fold (numel dr). lia. }
  destruct (rows_any w op G Mo L P I Go Mo P n bs (Z.of_nat (numel dm)) idxs LRv
              Hwire ltac:(unfold bs; lia) Hidx n 0%nat ws1)
    as (ws' & Hloop & HF & _).
  { lia. }
  { by eapply index_data_holds. }
  { exact (read_holds ws1 L dl [LRv] 0 L1). }
  { intros X o HX Ho. change (Ptr X o) with (Ptr X 0 +p o).
    destruct HX as [-> | -> ]; (eapply read_ptr_is_Some; [eassumption|lia]). }
  { intros X o HX Ho. change (Ptr X o) with (Ptr X 0 +p o).
    destruct HX as [-> | [-> | -> ] ];
      (eapply read_ptr_is_Some; [eassumption|lia]). }
  exists ws'. split.
  - rewrite Hrun. unfold sparse_rows, for_range. rewrite Nat2Z.id.
    change 0 with (Z.of_nat 0). by erewrite bind_Done by exact Hloop.
  - intros o Ho.
    destruct Hwire as [_ _ _ _ _ _ _ _ _ _ _ _ (GoMo & GoP & _)].
    assert (Hsame : forall X t, holds ws1 X t -> holds ws X t ->
              read ws1 (Ptr X o) = read ws (Ptr X o)).
    { intros X t H1 H2. unfold read, float_data. cbn [blob].
      unfold holds in H1, H2. by rewrite H1, H2. }
    split.
    + rewrite HF; [exact (Hsame Mo _ Mo1 HMow)| |].
      * intros E. by destruct GoMo.
      * intros _ r idx Hr. apply Ho. lia.
    + rewrite HF; [exact (Hsame P _ P1 HPw)| |].
      * intros E. by destruct GoP.
      * intros _ r idx Hr. apply Ho. lia.
Qed.

Lemma sparse_update_leaves_other_rows_witness :
  exists ws',
    SparseMomentumSGDUpdateOp.RunOnDevice F32.zero (Example.op_sparse true)
      (Example.ws_sparse (Int32Data [5; 5])) = (Done true, ws') /\
    forall o,
      (forall r idx, (r < 2)%nat -> [5; 5] !! r = Some idx ->
         o < idx * Z.of_nat 2 \/ (idx + 1) * Z.of_nat 2 <= o) ->
      read ws' (Ptr "mom" o)
        = read (Example.ws_sparse (Int32Data [5; 5])) (Ptr "mom" o) /\
      read ws' (Ptr "param" o)
        = read (Example.ws_sparse (Int32Data [5; 5])) (Ptr "param" o).
Proof.
  apply (sparse_update_leaves_other_rows F32.zero (Example.op_sparse true) int32_t
           (Example.ws_sparse (Int32Data [5; 5]))
           "grad" "mom" "lr" "param" "indices" "grad"
           2%nat [2%nat] [6%nat; 2%nat] [1%nat] [6%nat; 2%nat] [2%nat]
           [Example.c1; Example.c2; Example.c3; Example.c5]
           (replicate 12 Example.c1) (replicate 12 Example.c1)
           Example.c0_1 [5; 5]).
  - solve_sparse_wiring.
  - split; reflexivity.
  - split; reflexivity.
  - split; reflexivity.
  - split; reflexivity.
  - reflexivity.
  - reflexivity.
  - reflexivity.
  - discriminate.
  - reflexivity.
  - intros r Hr. exists 5.
    destruct r as [|[|r]]; [split_and!; [reflexivity|lia|simpl; lia]..|lia].
Defined.

(** ** The sparse update of a gradient without rows *)

Section SparseEmpty.
Variables (junk : float) (op : Operator) (w : SIndex) (ws : Workspace).
Variables (G Mo L P I Go Mo' Po : string).
Variables (dr dm dl dp di : list nat).
Variables (gs ms ps : list float) (LRv : float) (idxs : list Z).
Hypothesis Hwire : sparse_wiring op G Mo L P I Go Mo' Po.
Hypothesis HG : float_tensor ws G (0%nat :: dr) gs.
Hypothesis HMo : float_tensor ws Mo dm ms.
Hypothesis HL : float_tensor ws L dl [LRv].
Hypothesis HP : float_tensor ws P dp ps.
Hypothesis HI : holds ws I (mkTensor di (index_storage w idxs)).
Hypothesis Hpm : numel dp = numel dm.
Hypothesis Hin : numel di = 0%nat.

Local Abbreviation inputs_kept ws' :=
  (holds ws' G (mkTensor (0%nat :: dr) (FloatData gs)) /\
   holds ws' Mo (mkTensor dm (FloatData ms)) /\
   holds ws' L (mkTensor dl (FloatData [LRv])) /\
   holds ws' P (mkTensor dp (FloatData ps)) /\
   holds ws' I (mkTensor di (index_storage w idxs))).

(** X12. The sparse operator does not check that the gradient has rows: a
    gradient whose first extent is 0, with an empty index list, passes every
    length check, has the three outputs resized, and then fails in the
    division [Input(GRAD).size() / n] by [n = 0]. *)
Theorem sparse_empty_gradient_divides_by_zero :
  exists ws',
    SparseMomentumSGDUpdateOp.RunOnDevice junk op ws = (Fail DivisionByZero, ws') /\
    shaped ws' Go (0%nat :: dr) /\ shaped ws' Mo' dm /\ shaped ws' Po dp.
Proof using All.
  destruct Hwire as [WG WMo WL WP WI WGo WMo' WPo AG AMo AP
                       (GMo & GP & MoP & LG & LMo & LP & IG & IMo & IP)
                       (GoMo' & GoPo & Mo'Po)].
  destruct HG as [HG0 LenG], HMo as [HMo0 LenMo], HL as [HL0 LenL],
           HP as [HP0 LenP].
  assert (F0 : inputs_kept ws) by done.
  assert (Q0 : forall xs, float_tensor ws Po dp xs ->
                 holds ws Po (mkTensor dp (FloatData xs))) by by intros ? [].
  (* every output is apart from every input it is not *)
  assert (NGo : Go <> Mo /\ Go <> L /\ Go <> P /\ Go <> I)
    by (destruct AG as [->|(?&?&?&?&?)]; split_and!; congruence).
  assert (NMo' : Mo' <> G /\ Mo' <> L /\ Mo' <> P /\ Mo' <> I)
    by (destruct AMo as [->|(?&?&?&?&?)]; split_and!; congruence).
  assert (NPo : Po <> G /\ Po <> Mo /\ Po <> L /\ Po <> I)
    by (destruct AP as [->|(?&?&?&?&?)]; split_and!; congruence).
  destruct NGo as (GoMo & GoL & GoP & GoI), NMo' as (Mo'G & Mo'L & Mo'P & Mo'I),
           NPo as (PoG & PoMo & PoL & PoI).
  (* Output(OUTPUT_GRAD)->ResizeLike(Input(GRAD)) *)
  destruct (Output_step op _ Go ws WGo) as (wa & Ea & [oa Hoa] & Fa & Ka).
  assert (F1 : inputs_kept wa) by (destruct F0 as (?&?&?&?&?); split_and!; by apply Ka).
  assert (Q1 : forall xs, float_tensor ws Po dp xs ->
                 holds wa Po (mkTensor dp (FloatData xs))) by (intros; by apply Ka, Q0).
  destruct F1 as (G1 & Mo1 & L1 & P1 & I1).
  destruct (ResizeLike_step junk Go G _ oa wa G1 Hoa)
    as (wb & Eb & (sb & Sb & Lb) & Fb & Kb & Ib & _).
  assert (G2 : holds wb G (mkTensor (0%nat :: dr) (FloatData gs))).
  { destruct AG as [->|(?&_)]; [by apply Ib|by apply Kb]. }
  assert (F2 : inputs_kept wb) by (split_and!; first [done|by apply Kb]).
  assert (Q2 : forall xs, float_tensor ws Po dp xs ->
                 holds wb Po (mkTensor dp (FloatData xs)))
    by (intros; apply Kb; [by apply Q1|congruence]).
  clear G2.
  (* Output(OUTPUT_MOMENTUM)->ResizeLike(Input(MOMENTUM)) *)
  destruct (Output_step op _ Mo' wb WMo') as (wc & Ec & [oc Hoc] & Fc & Kc).
  assert (F3 : inputs_kept wc) by (destruct F2 as (?&?&?&?&?); split_and!; by apply Kc).
  assert (Q3 : forall xs, float_tensor ws Po dp xs ->
                 holds wc Po (mkTensor dp (FloatData xs))) by (intros; by apply Kc, Q2).
  pose proof (Kc _ _ Sb) as Sc.
  destruct F3 as (G3 & Mo3 & L3 & P3 & I3).
  destruct (ResizeLike_step junk Mo' Mo _ oc wc Mo3 Hoc)
    as (wd & Ed & (sd & Sd & Ld) & Fd & Kd & Id & _).
  assert (Mo4 : holds wd Mo (mkTensor dm (FloatData ms))).
  { destruct AMo as [->|(_&?&_)]; [by apply Id|by apply Kd]. }
  assert (F4 : inputs_kept wd) by (split_and!; first [done|by apply Kd]).
  assert (Q4 : forall xs, float_tensor ws Po dp xs ->
                 holds wd Po (mkTensor dp (FloatData xs)))
    by (intros; apply Kd; [by apply Q3|congruence]).
  assert (Sd1 : holds wd Go (mkTensor (0%nat :: dr) sb)) by by apply Kd.
  clear Mo4.
  (* Output(OUTPUT_PARAM)->ResizeLike(Input(PARAM)) *)
  destruct (Output_step op _ Po wd WPo) as (we & Ee & [oe Hoe] & Fe & Ke).
  assert (F5 : inputs_kept we) by (destruct F4 as (?&?&?&?&?); split_and!; by apply Ke).
  assert (Q5 : forall xs, float_tensor ws Po dp xs ->
                 holds we Po (mkTensor dp (FloatData xs))) by (intros; by apply Ke, Q4).
  pose proof (Ke _ _ Sd1) as Se1. pose proof (Ke _ _ Sd) as Se2.
  destruct F5 as (G5 & Mo5 & L5 & P5 & I5).
  destruct (ResizeLike_step junk Po P _ oe we P5 Hoe)
    as (wf & Ef & (sf & Sf & Lf) & Ff & Kf & If & Jf).
  assert (P6 : holds wf P (mkTensor dp (FloatData ps))).
  { destruct AP as [->|(_&_&_&?&_)]; [by apply If|by apply Kf]. }
  assert (F6 : inputs_kept wf) by (split_and!; first [done|by apply Kf]).
  assert (Q6 : forall xs, float_tensor ws Po dp xs ->
                 holds wf Po (mkTensor dp (FloatData xs))).
  { intros xs Hxs. apply Jf. split; [by apply Q5|by destruct Hxs]. }
  assert (Sf1 : holds wf Go (mkTensor (0%nat :: dr) sb)) by by apply Kf.
  assert (Sf2 : holds wf Mo' (mkTensor dm sd)) by by apply Kf.
  exists wf. split; [|split_and!; [by exists sb|by exists sd|by exists sf]].
  destruct F0 as (? & ? & ? & ? & ?), F2 as (? & ? & ? & ? & ?),
    F4 as (? & ? & ? & ? & ?), F6 as (? & ? & ? & ? & ?).
  assert (Hrun : SparseMomentumSGDUpdateOp.DoRunWithType w junk op ws
    = (Fail DivisionByZero, wf)).
  { unfold SparseMomentumSGDUpdateOp.DoRunWithType,
      SparseMomentumSGDUpdateOp.GRAD, SparseMomentumSGDUpdateOp.MOMENTUM,
      SparseMomentumSGDUpdateOp.LR, SparseMomentumSGDUpdateOp.PARAM,
      SparseMomentumSGDUpdateOp.INDICES, SparseMomentumSGDUpdateOp.OUTPUT_GRAD,
      SparseMomentumSGDUpdateOp.OUTPUT_MOMENTUM,
      SparseMomentumSGDUpdateOp.OUTPUT_PARAM.
    run_steps.
    replace (size _ =? 1) with true
      by (unfold size; cbn [dims]; rewrite <- LenL; reflexivity).
    run_steps.
    replace (size _ =? size _) with true
      by (unfold size; cbn [dims]; rewrite Hpm; symmetry; apply Z.eqb_refl).
    run_steps.
    erewrite bind_Done by (eapply dim_holds; [eassumption|reflexivity]).
    replace (size _ =? Z.of_nat 0) with true
      by (unfold size; cbn [dims]; rewrite Hin; reflexivity).
    run_steps.
    erewrite bind_Done by (eapply dim_holds; [eassumption|reflexivity]).
    run_steps.
    by erewrite bind_Fail. }
  unfold SparseMomentumSGDUpdateOp.RunOnDevice, SparseMomentumSGDUpdateOp.INDICES.
  run_steps.
  erewrite bind_Done by (by eapply tensor_holds).
  cbn [storage]. by destruct w.
Qed.

End SparseEmpty.

Lemma sparse_empty_gradient_divides_by_zero_witness :
  exists ws',
    SparseMomentumSGDUpdateOp.RunOnDevice F32.zero (Example.op_sparse false)
      (<["grad" := Example.mat 0 2 []]>
       (<["indices" := TensorBlob (mkTensor [0%nat] (Int64Data []))]>
        (Example.ws_sparse NoData)))
      = (Fail DivisionByZero, ws') /\
    shaped ws' "grad" [0%nat; 2%nat] /\ shaped ws' "mom" [6%nat; 2%nat] /\
    shaped ws' "param" [6%nat; 2%nat].
Proof.
  apply (sparse_empty_gradient_divides_by_zero F32.zero (Example.op_sparse false)
           int64_t _ "grad" "mom" "lr" "param" "indices" "grad" "mom" "param"
           [2%nat] [6%nat; 2%nat] [1%nat] [6%nat; 2%nat] [0%nat]
           [] (replicate 12 Example.c1) (replicate 12 Example.c1)
           Example.c0_1 []).
  - solve_sparse_wiring.
  - split; reflexivity.
  - split; reflexivity.
  - split; reflexivity.
  - split; reflexivity.
  - reflexivity.
  - reflexivity.
  - reflexivity.
Defined.

(** ** The sparse update with an index outside the buffers *)

(** A row whose index points outside the momentum buffer stops at the first
    read of the momentum, before anything was written. *)
Lemma row_update_bad_index w op G Mo L I Go Mo' Po ws bs i idx idxs LRv :
  0 < bs < 2 ^ 31 ->
  index_data w ws I = Some idxs ->
  idxs !! i = Some idx ->
  read ws (Ptr L 0 +p 0) = Some LRv ->
  is_Some (read ws (Ptr G (Z.of_nat i * bs))) ->
  read ws (Ptr Mo (idx * bs)) = None ->
  SparseMomentumSGDUpdateOp.row_update w op bs
    (Ptr G 0) (Ptr Mo 0) (Ptr L 0) (Ptr I 0) (Ptr Go 0) (Ptr Mo' 0) (Ptr Po 0)
    (Z.of_nat i) ws
  = (Fail (OutOfBounds (Ptr Mo (idx * bs))), ws).
Proof.
  intros Hbs HI Hi HL [gi Hg] Hm.
  unfold SparseMomentumSGDUpdateOp.row_update.
  erewrite bind_Done by (by eapply load_index_Some).
  rewrite to_int_small by lia.
  unfold momentum_sgd_update.
  erewrite bind_Done by (unfold load; by rewrite HL).
  unfold for_range.
  destruct (Z.to_nat bs) as [|k] eqn:Ek; [lia|].
  cbn [for_loop]. apply bind_Fail. unfold momentum_sgd_update_body.
  apply bind_Fail. rewrite !ptr_row, !Z.add_0_r.
  destruct (nesterov_ op); cbn [negb].
  - apply bind_Fail. unfold load. by rewrite Hm.
  - erewrite bind_Done by (unfold load; by rewrite Hg).
    apply bind_Fail. unfold load. by rewrite Hm.
Qed.

(** X13. The sparse operator does not check its indices against the number
    of rows of the momentum and parameter buffers.  When the rows before row
    [k] name rows inside the buffers and the index of row [k] is negative or
    past the last row, the call passes every check, updates the rows before
    [k], and fails at the read of the momentum element the index points to,
    outside the buffer. *)
Theorem sparse_index_not_range_checked
    junk op w ws G Mo L P I Go Mo' Po n dr dm dl dp di gs ms ps LRv idxs k idx :
  sparse_wiring op G Mo L P I Go Mo' Po ->
  float_tensor ws G (n :: dr) gs ->
  float_tensor ws Mo dm ms ->
  float_tensor ws L dl [LRv] ->
  float_tensor ws P dp ps ->
  holds ws I (mkTensor di (index_storage w idxs)) ->
  numel dp = numel dm ->
  numel di = n ->
  0 < Z.of_nat (numel dr) < 2 ^ 31 ->
  (k < n)%nat ->
  (forall r, (r < k)%nat ->
     exists idx', idxs !! r = Some idx' /\ 0 <= idx' /\
                  (idx' + 1) * Z.of_nat (numel dr) <= Z.of_nat (numel dm)) ->
  idxs !! k = Some idx ->
  idx < 0 \/ Z.of_nat (numel dm) <= idx * Z.of_nat (numel dr) ->
  exists ws',
    SparseMomentumSGDUpdateOp.RunOnDevice junk op ws
      = (Fail (OutOfBounds (Ptr Mo (idx * Z.of_nat (numel dr)))), ws').
Proof.
  intros Hwire HG HMo HL HP HI Hpm Hin Hbs Hk Hpre Hidx Hbad.
  destruct (sparse_prepare junk op w ws G Mo L P I Go Mo' Po n dr dm dl dp di
              gs ms ps LRv idxs Hwire HG HMo HL HP HI Hpm Hin ltac:(lia))
    as (ws1 & gs' & ms' & ps' & Hrun & (G1 & Mo1 & L1 & P1 & I1)
        & [Go1 LGo] & [Mo'1 LMo'] & [Po1 LPo] & _ & _).
  destruct HG as [HGw LG], HMo as [HMow LMo], HP as [HPw LP].
  set (bs := Z.of_nat (numel dr)) in *.
  assert (Hgs : Z.of_nat (length gs) = Z.of_nat n * bs).
  { rewrite LG. unfold bs. cbn [numel fold_right]. fold (numel dr). lia. }
  assert (Hgs' : Z.of_nat (length gs') = Z.of_nat n * bs).
  { rewrite LGo. unfold bs. cbn [numel fold_right]. fold (numel dr). lia. }
  assert (Hkn : Z.of_nat k * bs + bs <= Z.of_nat n * bs) by nia.
  pose proof Hwire as [_ _ _ _ _ _ _ _ AG AMo AP
                         (GMo & GP & MoP & LnG & LnMo & LnP & IG & IMo & IP)
                         (GoMo' & GoPo & Mo'Po)].
  assert (NX : L <> Go /\ L <> Mo' /\ L <> Po /\ I <> Go /\ I <> Mo' /\ I <> Po).
  { destruct AG as [->|(?&?&?&?&?)], AMo as [->|(?&?&?&?&?)],
      AP as [->|(?&?&?&?&?)]; split_and!; congruence. }
  destruct NX as (LGo_ & LMo'_ & LPo_ & IGo & IMo' & IPo).
  destruct (rows_any w op G Mo L P I Go Mo' Po k bs (Z.of_nat (numel dm)) idxs LRv
              Hwire ltac:(lia) Hpre k 0%nat ws1)
    as (ws2 & Hloop & _ & HS).
  { lia. }
  { by eapply index_data_holds. }
  { exact (read_holds ws1 L dl [LRv] 0 L1). }
  { intros X o HX Ho. change (Ptr X o) with (Ptr X 0 +p o).
    destruct HX as [-> | -> ]; (eapply read_ptr_is_Some; [eassumption|nia]). }
  { intros X o HX Ho. change (Ptr X o) with (Ptr X 0 +p o).
    destruct HX as [-> | [-> | -> ] ];
      (eapply read_ptr_is_Some; [eassumption|lia]). }
  change (Z.of_nat 0) with 0 in Hloop.
  assert (Hkeep : forall b, b <> Go -> b <> Mo' -> b <> Po -> ws2 !! b = ws1 !! b).
  { intros b ? ? ?.
    pose proof (preserves_rows w op bs G Mo L I Go Mo' Po k 0 b
                  ltac:(done) ltac:(done) ltac:(done) ws1) as Hp.
    by rewrite Hloop in Hp. }
  exists ws2. rewrite Hrun. unfold sparse_rows, for_range. rewrite Nat2Z.id.
  replace n with (k + S (n - k - 1))%nat by lia.
  apply bind_Fail. rewrite for_loop_app.
  erewrite bind_Done by exact Hloop.
  cbn [for_loop]. apply bind_Fail. rewrite Z.add_0_l.
  eapply row_update_bad_index.
  - lia.
  - rewrite (index_data_same w ws1 ws2 I) by (by apply Hkeep).
    by eapply index_data_holds.
  - exact Hidx.
  - rewrite (read_same_blob ws1 ws2) by (by apply Hkeep).
    exact (read_holds ws1 L dl [LRv] 0 L1).
  - apply HS. change (Ptr G (Z.of_nat k * bs)) with (Ptr G 0 +p Z.of_nat k * bs).
    eapply read_ptr_is_Some; [exact G1|nia].
  - destruct (read ws2 (Ptr Mo (idx * bs))) eqn:E; [|done].
    assert (Hs : is_Some (read ws1 (Ptr Mo (idx * bs)))) by (apply HS; by rewrite E).
    destruct Hs as [v Hv]. exfalso.
    unfold read, float_data in Hv. cbn [blob off] in Hv.
    unfold holds in Mo1. rewrite Mo1 in Hv. cbn [storage] in Hv.
    destruct (Z.leb_spec 0 (idx * bs)) as [H0|H0]; [|done].
    apply lookup_lt_Some in Hv. nia.
Qed.

Lemma sparse_index_not_range_checked_witness :
  exists ws',
    SparseMomentumSGDUpdateOp.RunOnDevice F32.zero (Example.op_sparse false)
      (Example.ws_sparse (Int32Data [5; 6]))
      = (Fail (OutOfBounds (Ptr "mom" (6 * Z.of_nat 2))), ws').
Proof.
  apply (sparse_index_not_range_checked F32.zero (Example.op_sparse false) int32_t
           (Example.ws_sparse (Int32Data [5; 6]))
           "grad" "mom" "lr" "param" "indices" "grad" "mom" "param"
           2%nat [2%nat] [6%nat; 2%nat] [1%nat] [6%nat; 2%nat] [2%nat]
           [Example.c1; Example.c2; Example.c3; Example.c5]
           (replicate 12 Example.c1) (replicate 12 Example.c1)
           Example.c0_1 [5; 6] 1%nat 6).
  - solve_sparse_wiring.
  - split; reflexivity.
  - split; reflexivity.
  - split; reflexivity.
  - split; reflexivity.
  - reflexivity.
  - reflexivity.
  - reflexivity.
  - simpl; lia.
  - lia.
  - intros r Hr. exists 5.
    destruct r as [|r]; [split_and!; [reflexivity|lia|simpl; lia]|lia].
  - reflexivity.
  - right. simpl. lia.
Defined.
